(** * eslint-plugin-xss: the [no-mixed-html] taint engine

    A shallow embedding of the rule file (the sink stack, the candidate
    resolver, the terminal extractor and the sink validators), of the syntax
    helpers of [tree.ts], of the rule table of [Rules.ts] and of [re.ts],
    followed by the properties of the specification stated over it, and by
    further properties of the code: of the helpers, of the two patterns of
    the rule file, of whole visits, and of the second rule of the plugin,
    [no-location-href-assign].

    Conventions of the embedding.
    - A syntax tree is a value of [BaseNode]; the fields of a kind are the
      arguments of its constructor, in the order of ESLint's visitor keys.
    - A JavaScript node object (something with an identity and a [parent]) is a
      [Node]: the subtree together with the chain of its ancestors, each with
      the index of the child slot that was followed.  [a === b] on nodes of one
      tree is equality of their positions, [same a b].
    - The rule's mutable variables (the expression stack, the rule cache, the
      rule table object and the reports handed to [context.report]) are the
      fields of [State]; functions that touch them live in the monad [M],
      which also carries the [TypeError] JavaScript raises on a property read
      of [null] or [undefined].
    - The host ([context], the regular-expression engine) is a section
      variable.  Patterns are assumed to be compiled without the global or
      sticky flag, so [exec] keeps no [lastIndex] state; array holes are not
      part of the tree model.
    - A string is a sequence of 8-bit characters.  The two patterns the rule
      file itself matches with are modelled on ASCII text, where [\s] is the
      six ASCII white-space characters. *)

From stdpp Require Import gmap strings list.
From Stdlib Require Import String Ascii Bool Arith Lia.

Local Open Scope string_scope.
Local Open Scope list_scope.

(* ------------------------------------------------------------------------- *)
(** ** Syntax trees (ESTree)                                                   *)
(* ------------------------------------------------------------------------- *)

(** Node kinds the rule never looks inside by name. *)
Inductive OtherType : Type :=
| Program | ExpressionStatement | BlockStatement | EmptyStatement
| VariableDeclaration | IfStatement | ForStatement | ForInStatement
| ForOfStatement | WhileStatement | DoWhileStatement | SwitchStatement
| SwitchCase | ThrowStatement | TryStatement | CatchClause | LabeledStatement
| BreakStatement | ContinueStatement | LogicalExpression | TemplateLiteral
| TemplateElement | TaggedTemplateExpression | SpreadElement | RestElement
| ObjectPattern | ArrayPattern | AssignmentPattern | AwaitExpression
| YieldExpression | ClassDeclaration | ClassExpression | ClassBody
| MethodDefinition | Super | MetaProperty | ChainExpression.

Inductive literal : Type :=
| StringValue (s : string)
| NumberValue (text : string)
| BooleanValue (b : bool)
| NullValue
| BigIntValue (text : string)
| RegExpValue (pattern flags : string).

Scheme All for list.
Scheme All for option.

Inductive BaseNode : Type :=
| Identifier (name : string)
| PrivateIdentifier (name : string)
| Literal (value : literal)
| ThisExpression
| MemberExpression (object property : BaseNode) (computed : bool)
| CallExpression (callee : BaseNode) (arguments : list BaseNode)
| NewExpression (callee : BaseNode) (arguments : list BaseNode)
| ArrayExpression (elements : list BaseNode)
| ObjectExpression (properties : list BaseNode)
| Property (key value : BaseNode)
| FunctionExpression (id : option BaseNode) (params : list BaseNode) (body : BaseNode)
| FunctionDeclaration (id : option BaseNode) (params : list BaseNode) (body : BaseNode)
| ArrowFunctionExpression (params : list BaseNode) (body : BaseNode)
| UnaryExpression (argument : BaseNode)
| UpdateExpression (argument : BaseNode)
| BinaryExpression (left right : BaseNode)
| AssignmentExpression (left right : BaseNode)
| ConditionalExpression (test consequent alternate : BaseNode)
| SequenceExpression (expressions : list BaseNode)
| VariableDeclarator (id : BaseNode) (init : option BaseNode)
| ReturnStatement (argument : option BaseNode)
| Other (kind : OtherType) (children : list BaseNode).

Definition otherTypeName (k : OtherType) : string :=
  match k with
  | Program => "Program" | ExpressionStatement => "ExpressionStatement"
  | BlockStatement => "BlockStatement" | EmptyStatement => "EmptyStatement"
  | VariableDeclaration => "VariableDeclaration" | IfStatement => "IfStatement"
  | ForStatement => "ForStatement" | ForInStatement => "ForInStatement"
  | ForOfStatement => "ForOfStatement" | WhileStatement => "WhileStatement"
  | DoWhileStatement => "DoWhileStatement" | SwitchStatement => "SwitchStatement"
  | SwitchCase => "SwitchCase" | ThrowStatement => "ThrowStatement"
  | TryStatement => "TryStatement" | CatchClause => "CatchClause"
  | LabeledStatement => "LabeledStatement" | BreakStatement => "BreakStatement"
  | ContinueStatement => "ContinueStatement"
  | LogicalExpression => "LogicalExpression" | TemplateLiteral => "TemplateLiteral"
  | TemplateElement => "TemplateElement"
  | TaggedTemplateExpression => "TaggedTemplateExpression"
  | SpreadElement => "SpreadElement" | RestElement => "RestElement"
  | ObjectPattern => "ObjectPattern" | ArrayPattern => "ArrayPattern"
  | AssignmentPattern => "AssignmentPattern" | AwaitExpression => "AwaitExpression"
  | YieldExpression => "YieldExpression" | ClassDeclaration => "ClassDeclaration"
  | ClassExpression => "ClassExpression" | ClassBody => "ClassBody"
  | MethodDefinition => "MethodDefinition" | Super => "Super"
  | MetaProperty => "MetaProperty" | ChainExpression => "ChainExpression"
  end.

(** [node.type]. *)
Definition type (n : BaseNode) : string :=
  match n with
  | Identifier _ => "Identifier"
  | PrivateIdentifier _ => "PrivateIdentifier"
  | Literal _ => "Literal"
  | ThisExpression => "ThisExpression"
  | MemberExpression _ _ _ => "MemberExpression"
  | CallExpression _ _ => "CallExpression"
  | NewExpression _ _ => "NewExpression"
  | ArrayExpression _ => "ArrayExpression"
  | ObjectExpression _ => "ObjectExpression"
  | Property _ _ => "Property"
  | FunctionExpression _ _ _ => "FunctionExpression"
  | FunctionDeclaration _ _ _ => "FunctionDeclaration"
  | ArrowFunctionExpression _ _ => "ArrowFunctionExpression"
  | UnaryExpression _ => "UnaryExpression"
  | UpdateExpression _ => "UpdateExpression"
  | BinaryExpression _ _ => "BinaryExpression"
  | AssignmentExpression _ _ => "AssignmentExpression"
  | ConditionalExpression _ _ _ => "ConditionalExpression"
  | SequenceExpression _ => "SequenceExpression"
  | VariableDeclarator _ _ => "VariableDeclarator"
  | ReturnStatement _ => "ReturnStatement"
  | Other k _ => otherTypeName k
  end.

(* ------------------------------------------------------------------------- *)
(** ** Node objects: a subtree with its parent chain                           *)
(* ------------------------------------------------------------------------- *)

(** The ancestors of a node, nearest first; each entry is the parent's subtree
    and the index of the child slot the node sits in. *)
Definition Ancestors : Type := list (nat * BaseNode).

Record Node : Type := mkNode { self : BaseNode; ancestors : Ancestors }.

(** [node.parent]; [None] is JavaScript's [null]. *)
Definition parent (n : Node) : option Node :=
  match ancestors n with
  | [] => None
  | (_, p) :: up => Some (mkNode p up)
  end.

Definition position (n : Node) : list nat := map fst (ancestors n).

(** [a === b] for two node objects of one tree. *)
Definition same (a b : Node) : bool := bool_decide (position a = position b).

Definition child (n : Node) (i : nat) (c : BaseNode) : Node :=
  mkNode c ((i, self n) :: ancestors n).

Fixpoint locate (n : Node) (i : nat) (l : list BaseNode) : list Node :=
  match l with
  | [] => []
  | c :: r => child n i c :: locate n (S i) r
  end.

(** Child slots, numbered in traversal order. *)
Definition at_callee (n : Node) (c : BaseNode) : Node := child n 0 c.
Definition at_arguments (n : Node) (l : list BaseNode) : list Node := locate n 1 l.
Definition at_object (n : Node) (c : BaseNode) : Node := child n 0 c.
Definition at_property (n : Node) (c : BaseNode) : Node := child n 1 c.
Definition at_elements (n : Node) (l : list BaseNode) : list Node := locate n 0 l.
Definition at_properties (n : Node) (l : list BaseNode) : list Node := locate n 0 l.
Definition at_key (n : Node) (c : BaseNode) : Node := child n 0 c.
Definition at_value (n : Node) (c : BaseNode) : Node := child n 1 c.
Definition at_left (n : Node) (c : BaseNode) : Node := child n 0 c.
Definition at_right (n : Node) (c : BaseNode) : Node := child n 1 c.
Definition at_test (n : Node) (c : BaseNode) : Node := child n 0 c.
Definition at_consequent (n : Node) (c : BaseNode) : Node := child n 1 c.
Definition at_alternate (n : Node) (c : BaseNode) : Node := child n 2 c.
Definition at_id (n : Node) (c : BaseNode) : Node := child n 0 c.
Definition at_init (n : Node) (c : BaseNode) : Node := child n 1 c.
Definition at_argument (n : Node) (c : BaseNode) : Node := child n 0 c.
Definition at_expressions (n : Node) (l : list BaseNode) : list Node := locate n 0 l.
Definition at_children (n : Node) (l : list BaseNode) : list Node := locate n 0 l.
(** Functions: [id], then [params], then [body]; arrows have no [id]. *)
Definition at_params (n : Node) (l : list BaseNode) : list Node := locate n 1 l.
Definition at_body (n : Node) (params : list BaseNode) (c : BaseNode) : Node :=
  child n (S (List.length params)) c.
Definition at_arrow_params (n : Node) (l : list BaseNode) : list Node := locate n 0 l.
Definition at_arrow_body (n : Node) (params : list BaseNode) (c : BaseNode) : Node :=
  child n (List.length params) c.

(** A whole program as a node object: the root has no parent. *)
Definition root (n : BaseNode) : Node := mkNode n [].

(* ------------------------------------------------------------------------- *)
(** ** re.ts                                                                   *)
(* ------------------------------------------------------------------------- *)

Record RegExp : Type := mkRegExp { source : string; flags : option string }.

Module re.

(** [str.split("/")]. *)
Fixpoint split_slash (s : string) : list string :=
  match s with
  | EmptyString => [EmptyString]
  | String c rest =>
      if Ascii.eqb c "/" then EmptyString :: split_slash rest
      else match split_slash rest with
           | [] => [String c EmptyString]
           | w :: ws => String c w :: ws
           end
  end.

Definition toRegexp (str : string) : RegExp :=
  let pair := split_slash str in
  mkRegExp (List.hd EmptyString pair) (List.nth_error pair 1).

Section Any.
Variable exec : RegExp -> string -> bool.

Fixpoint any (input : string) (regexps : list RegExp) : bool :=
  match regexps with
  | [] => false
  | r :: rest => if exec r input then true else any input rest
  end.
End Any.

End re.

(* ------------------------------------------------------------------------- *)
(** ** tree.ts                                                                 *)
(* ------------------------------------------------------------------------- *)

Module tree.

Definition getIdentifier (n : Node) : option Node :=
  (* Function calls use the callee as name. *)
  let n := match self n with
           | CallExpression c _ => at_callee n c
           | _ => n
           end in
  (* Get the member property. *)
  let n := match self n with
           | MemberExpression o p computed =>
               if computed then at_object n o else at_property n p
           | _ => n
           end in
  match self n with
  | Identifier _ => Some n
  | _ => None
  end.

(** [node.name], [undefined] on nodes without a name. *)
Definition name (n : BaseNode) : option string :=
  match n with
  | Identifier x | PrivateIdentifier x => Some x
  | _ => None
  end.

(** [Array.prototype.join]: an [undefined] element prints as the empty
    string. *)
Definition join (sep : string) (l : list (option string)) : string :=
  String.concat sep (map (fun o => match o with Some s => s | None => "" end) l).

Definition getNodeName (n : Node) : string :=
  match self n with
  | ThisExpression => "this"
  | _ => match getIdentifier n with
         | Some i => match name (self i) with Some x => x | None => "" end
         | None => ""
         end
  end.

(** The name stack of [getFullItemName], in the order it is pushed. *)
Fixpoint nameStack (func : BaseNode) : list (option string) :=
  match func with
  | MemberExpression o p _ => name p :: nameStack o
  | Identifier x => [Some x]
  | _ => []
  end.

Definition unwrapCall (func : BaseNode) : BaseNode :=
  match func with
  | CallExpression c _ => c
  | _ => func
  end.

Definition getFullItemName (func : BaseNode) : string :=
  join "." (rev (nameStack (unwrapCall func))).

(** The loop of [getRuleNames]: [memberIdentifiers] and [names] are the two
    arrays it unshifts into. *)
Fixpoint ruleNamesLoop (func : BaseNode) (memberIdentifiers names : list string)
  : list string :=
  match func with
  | MemberExpression o _ true =>
      (* Skip computed properties. *)
      ruleNamesLoop o memberIdentifiers names
  | MemberExpression o _ false =>
      match getIdentifier (root func) with
      | None => names
      | Some i =>
          let memberIdentifiers :=
            match name (self i) with Some x => x | None => "" end
            :: memberIdentifiers in
          ruleNamesLoop o memberIdentifiers
            (("." +:+ String.concat "." memberIdentifiers) :: names)
      end
  | _ =>
      (* No [object]: the prefix is empty and the loop ends after this
         round. *)
      match getIdentifier (root func) with
      | None => names
      | Some i =>
          let memberIdentifiers :=
            match name (self i) with Some x => x | None => "" end
            :: memberIdentifiers in
          String.concat "." memberIdentifiers :: names
      end
  end.

Definition getRuleNames (func : BaseNode) : list string :=
  ruleNamesLoop (unwrapCall func) [] [].

(** The closest enclosing function, the node itself included. *)
Fixpoint closestFunction (n : BaseNode) (up : Ancestors) : option Node :=
  match n with
  | FunctionExpression _ _ _ | FunctionDeclaration _ _ _
  | ArrowFunctionExpression _ _ => Some (mkNode n up)
  | _ => match up with
         | [] => None
         | (_, p) :: up' => closestFunction p up'
         end
  end.

Definition getParentFunctionIdentifier (n : Node) : option Node :=
  match closestFunction (self n) (ancestors n) with
  | None => None
  | Some func =>
      let assigned :=
        match parent func with
        | Some p =>
            match self p with
            | VariableDeclarator i _ => Some (at_id p i)
            | AssignmentExpression l _ => Some (at_left p l)
            | _ => None
            end
        | None => None
        end in
      match self func with
      | FunctionExpression (Some i) _ _
      | FunctionDeclaration (Some i) _ _ => Some (at_id func i)
      | _ => assigned
      end
  end.

Definition isParameter (n expr : Node) : bool :=
  match self expr with
  | CallExpression _ args =>
      (* Check whether any of the call arguments equals the node. *)
      existsb (fun a => same a n) (at_arguments expr args)
  | AssignmentExpression _ r => same (at_right expr r) n
  | VariableDeclarator _ init =>
      match init with
      | Some i => same (at_init expr i) n
      | None => false
      end
  | Property _ v => same (at_value expr v) n
  | ArrayExpression els => existsb (fun e => same e n) (at_elements expr els)
  | FunctionExpression _ _ _ => false
  | ConditionalExpression _ c a =>
      same n (at_alternate expr a) || same n (at_consequent expr c)
  | ArrowFunctionExpression ps b => same n (at_arrow_body expr ps b)
  | _ => true
  end.

End tree.

(* ------------------------------------------------------------------------- *)
(** ** Rule state and the monad of the rule                                    *)
(* ------------------------------------------------------------------------- *)

(** A function policy, an entry of the [functions] option. *)
Record Passthrough : Type := mkPassthrough { obj : bool; args : bool }.

(** [safe: true] or [safe: [names]]. *)
Inductive Safe : Type :=
| SafeAll
| SafeNames (names : list string).

Record FunctionPolicy : Type := mkPolicy {
  passthrough : option Passthrough;
  htmlInput : bool;
  htmlOutput : bool;
  safe : option Safe
}.

(** The empty rule object [{}]. *)
Definition emptyPolicy : FunctionPolicy := mkPolicy None false false None.

(** An entry of [exprStack]: [{ node: node }], with [xss] set later. *)
Record Frame : Type := mkFrame { node : Node; xss : bool }.

(** The descriptor handed to [context.report]. *)
Record Report : Type := mkReport {
  report_node : Node;
  message : string;
  identifier : string
}.

Record State : Type := mkState {
  exprStack : list Frame;                 (* top of the stack first *)
  rules : gmap string FunctionPolicy;     (* [data.functions.rules] *)
  cache : gmap string FunctionPolicy;     (* [data.functions.cache] *)
  reports : list Report                   (* in the order reported *)
}.

Inductive Result (A : Type) : Type :=
| Ok (a : A)
| TypeError.
Arguments Ok {A} a.
Arguments TypeError {A}.

Definition M (A : Type) : Type := State -> Result (A * State).

Definition ret {A} (a : A) : M A := fun s => Ok (a, s).

Definition bind {A B} (m : M A) (k : A -> M B) : M B :=
  fun s => match m s with
           | Ok (a, s') => k a s'
           | TypeError => TypeError
           end.

Definition throw {A} : M A := fun _ => TypeError.

Definition lift {A} (r : Result A) : M A :=
  fun s => match r with
           | Ok a => Ok (a, s)
           | TypeError => TypeError
           end.

Definition gets {A} (f : State -> A) : M A := fun s => Ok (f s, s).

Definition modify (f : State -> State) : M unit := fun s => Ok (tt, f s).

Notation "x <- m ;; k" := (bind m (fun x => k))
  (at level 100, m at next level, right associativity).
Notation "m ;;; k" := (bind m (fun _ => k))
  (at level 100, right associativity).

(** [l.forEach(f)] where [f] threads an accumulator and sees the index. *)
Definition forEach {A B} (f : A -> nat -> B -> M B) : list A -> nat -> B -> M B :=
  fix go (l : list A) (i : nat) (acc : B) : M B :=
    match l with
    | [] => ret acc
    | x :: r => acc' <- f x i acc ;; go r (S i) acc'
    end.

(** [l.forEach(f)] for its effect only. *)
Fixpoint forEach_ {A} (f : A -> M unit) (l : list A) : M unit :=
  match l with
  | [] => ret tt
  | x :: r => f x ;;; forEach_ f r
  end.

Definition set_exprStack (st : list Frame) (s : State) : State :=
  mkState st (rules s) (cache s) (reports s).
Definition set_cache (c : gmap string FunctionPolicy) (s : State) : State :=
  mkState (exprStack s) (rules s) c (reports s).
Definition add_report (r : Report) (s : State) : State :=
  mkState (exprStack s) (rules s) (cache s) (reports s ++ [r]).

(** [context.report(descriptor)]. *)
Definition report (r : Report) : M unit := modify (add_report r).

(* ------------------------------------------------------------------------- *)
(** ** Rules.ts                                                                *)
(* ------------------------------------------------------------------------- *)

Module Rules.

(** The loop [for (i = 0; !rules && i < partialNames.length; i++)]. *)
Fixpoint firstRule (table : gmap string FunctionPolicy)
         (partialNames : list string) : option FunctionPolicy :=
  match partialNames with
  | [] => None
  | nm :: rest =>
      match table !! nm with
      | Some r => Some r
      | None => firstRule table rest
      end
  end.

Definition _getWithCache (n : BaseNode) : M FunctionPolicy :=
  let fullName := tree.getFullItemName n in
  cached <- gets (fun s => cache s !! fullName) ;;
  match cached with
  | Some r => ret r
  | None =>
      found <- gets (fun s => firstRule (rules s) (tree.getRuleNames n)) ;;
      let r := match found with Some r => r | None => emptyPolicy end in
      modify (fun s => set_cache (<[fullName := r]> (cache s)) s) ;;;
      ret r
  end.

Definition getFunctionRules (n : Node) : M FunctionPolicy :=
  _getWithCache (self n).

Definition get (n : Node) : M FunctionPolicy :=
  match self n with
  | CallExpression _ _ => getFunctionRules n
  | _ => ret emptyPolicy
  end.

End Rules.

(* ------------------------------------------------------------------------- *)
(** ** The host: ESLint's rule context                                         *)
(* ------------------------------------------------------------------------- *)

Record Token : Type := mkToken { token_type : string; token_value : string }.

(** The rule's option object, [context.options[0]]; an absent key is [None]. *)
Record Options : Type := mkOptions {
  htmlVariableRules : option (list string);
  htmlFunctionRules : option (list string);
  functions : option (gmap string FunctionPolicy)
}.

Record RuleContext : Type := mkContext {
  options : list Options;
  getTokenBefore : Node -> option Token;
  (** the values of [getSourceCode().getComments(node).leading] *)
  leadingComments : Node -> list string;
  getSource : Node -> string
}.

(* ------------------------------------------------------------------------- *)
(** ** rules/no-mixed-html: the regular-expression literals of the file        *)
(* ------------------------------------------------------------------------- *)

Definition isLowerAlpha (c : ascii) : bool :=
  let k := nat_of_ascii c in ((97 <=? k) && (k <=? 122))%nat.

(** [/<\/?[a-z]/.exec(s)], as a truth value. *)
Fixpoint htmlTagExec (s : string) : bool :=
  match s with
  | EmptyString => false
  | String c rest =>
      (Ascii.eqb c "<" &&
       match rest with
       | String d rest' =>
           isLowerAlpha d ||
           (Ascii.eqb d "/" &&
            match rest' with
            | String e _ => isLowerAlpha e
            | EmptyString => false
            end)
       | EmptyString => false
       end)
      || htmlTagExec rest
  end.

(** [\s] on the characters of the model. *)
Definition isSpace (c : ascii) : bool :=
  let k := nat_of_ascii c in (((9 <=? k) && (k <=? 13)) || (k =? 32))%nat.

Definition toLower (c : ascii) : ascii :=
  let k := nat_of_ascii c in
  if ((65 <=? k) && (k <=? 90))%nat then ascii_of_nat (k + 32) else c.

Fixpoint skipSpaces (s : string) : string :=
  match s with
  | EmptyString => EmptyString
  | String c rest => if isSpace c then skipSpaces rest else s
  end.

Fixpoint allSpaces (s : string) : bool :=
  match s with
  | EmptyString => true
  | String c rest => isSpace c && allSpaces rest
  end.

(** [/^\s*safe\s*$/i.exec(s)], as a truth value. *)
Definition safeCommentExec (s : string) : bool :=
  match skipSpaces s with
  | String a (String b (String c (String d rest))) =>
      Ascii.eqb (toLower a) "s" && Ascii.eqb (toLower b) "a" &&
      Ascii.eqb (toLower c) "f" && Ascii.eqb (toLower d) "e" &&
      allSpaces rest
  | _ => false
  end.

(** The value a literal is matched on: [exec] converts its argument to a
    string, and only a string value can contain [<]. *)
Definition literalHasHtmlTag (v : literal) : bool :=
  match v with
  | StringValue s => htmlTagExec s
  | _ => false
  end.

(** [node.regex] is set on regular-expression literals only. *)
Definition regex (v : literal) : bool :=
  match v with
  | RegExpValue _ _ => true
  | _ => false
  end.

(** [(i, self n) :: ancestors n]: the parent chain of the [i]-th child. *)
Definition slot (n : Node) (i : nat) : Ancestors := (i, self n) :: ancestors n.

(** [candidate.xss = true] on the frame [ptr] entries below the top. *)
Fixpoint taint (ptr : nat) (stack : list Frame) : list Frame :=
  match stack, ptr with
  | [], _ => []
  | f :: below, 0 => mkFrame (node f) true :: below
  | f :: below, S ptr' => f :: taint ptr' below
  end.

(** The name of an identifier node. *)
Definition identifierName (i : Node) : string :=
  match tree.name (self i) with
  | Some x => x
  | None => ""
  end.

(* ------------------------------------------------------------------------- *)
(** ** rules/no-mixed-html: [module.exports = function (context)]              *)
(* ------------------------------------------------------------------------- *)

Section NoMixedHtml.

(** [regexp.exec(input) !== null]. *)
Variable exec : RegExp -> string -> bool.
Variable context : RuleContext.

(** *** Options *)

Definition defaultFunctionRules : gmap string FunctionPolicy :=
  <[".join" := mkPolicy (Some (mkPassthrough true true)) false false None]>
  (<[".toString" := mkPolicy (Some (mkPassthrough true false)) false false None]>
  (<[".substr" := mkPolicy (Some (mkPassthrough true false)) false false None]>
  (<[".substring" := mkPolicy (Some (mkPassthrough true false)) false false None]>
   ∅))).

Definition opts : option Options := List.hd_error (options context).

Definition htmlVariableRulesRegex : list RegExp :=
  map re.toRegexp
      match opts with
      | Some o => match htmlVariableRules o with Some l => l | None => ["html/i"] end
      | None => ["html/i"]
      end.

Definition htmlFunctionRulesRegex : list RegExp :=
  map re.toRegexp
      match opts with
      | Some o => match htmlFunctionRules o with Some l => l | None => ["AsHtml"] end
      | None => ["AsHtml"]
      end.

Definition functionRules : gmap string FunctionPolicy :=
  match opts with
  | Some o => match functions o with Some t => t | None => defaultFunctionRules end
  | None => defaultFunctionRules
  end.

(** The state a fresh instance of the rule starts from, over a given rule
    table object: [new Rules(...)] with an empty cache, and [exprStack = []]. *)
Definition instantiate (table : gmap string FunctionPolicy) : State :=
  mkState [] table ∅ [].

Definition initialState : State := instantiate functionRules.

(** *** Comments *)

Definition nodeHasSafeComment (n : Node) : bool :=
  existsb safeCommentExec (leadingComments context n).

Definition hasParentheses (n : Node) : Result bool :=
  match getTokenBefore context n with
  | None => TypeError
  | Some prevToken =>
      Ok (String.eqb (token_type prevToken) "Punctuator" &&
          String.eqb (token_value prevToken) "(")
  end.

(** The loop of [getCommentParent] that looks for the closest parenthesized
    binary expression, started at [parent]. *)
Fixpoint closestParenthesized (p : BaseNode) (up : Ancestors) {struct up}
  : Result (option Node) :=
  match p with
  | BinaryExpression _ _ =>
      match hasParentheses (mkNode p up) with
      | TypeError => TypeError
      | Ok true => Ok (Some (mkNode p up))
      | Ok false =>
          match up with
          | [] => Ok None
          | (_, q) :: up' => closestParenthesized q up'
          end
      end
  | _ => Ok None
  end.

Definition getCommentParent (n : Node) : Result (option Node) :=
  match parent n with
  | None => Ok None
  | Some p =>
      match self p with
      | CallExpression _ _ => Ok None
      | BinaryExpression l _ =>
          if same n (at_left p l) then Ok (Some p)
          else closestParenthesized (self p) (ancestors p)
      | _ => Ok (Some p)
      end
  end.

Definition commentable (n : BaseNode) : bool :=
  match n with
  | ArrayExpression _ | Identifier _ | Literal _ | CallExpression _ _
  | BinaryExpression _ _ | MemberExpression _ _ _ => true
  | _ => false
  end.

(** The [while] loop of [isCommentedSafe].  Every round moves to a proper
    ancestor, so a budget of one round per level of nesting is never
    exhausted ([isCommentedSafeLoop_enough]). *)
Fixpoint isCommentedSafeLoop (rounds : nat) (n : option Node) : Result bool :=
  match n, rounds with
  | None, _ => Ok false
  | Some _, 0 => Ok false
  | Some n, S rounds' =>
      if commentable (self n) then
        if nodeHasSafeComment n then Ok true
        else match getCommentParent n with
             | TypeError => TypeError
             | Ok p => isCommentedSafeLoop rounds' p
             end
      else Ok false
  end.

Definition isCommentedSafe (n : Node) : Result bool :=
  isCommentedSafeLoop (S (List.length (ancestors n))) (Some n).

(** *** Naming rules and function rules *)

Definition isHtmlVariable (n : Node) : bool :=
  match tree.getIdentifier n with
  | None => false
  | Some i => re.any exec (identifierName i) htmlVariableRulesRegex
  end.

Definition isHtmlFunction (n : Node) : bool :=
  match tree.getIdentifier n with
  | None => false
  | Some i => re.any exec (identifierName i) htmlFunctionRulesRegex
  end.

Definition isHtmlOutputFunction (func : Node) : M bool :=
  r <- Rules.getFunctionRules func ;;
  ret (htmlOutput r
       || re.any exec (tree.getFullItemName (self func)) htmlFunctionRulesRegex).

Definition functionAcceptsHtml (func : Node) : M bool :=
  r <- Rules.getFunctionRules func ;; ret (htmlInput r).

Definition isXssSafe (n : Node) : M bool :=
  commented <- lift (isCommentedSafe n) ;;
  if commented then ret true
  else match self n with
       | Literal _ | FunctionExpression _ _ _ => ret true
       | Identifier _ | MemberExpression _ _ _ => ret (isHtmlVariable n)
       | CallExpression c _ => isHtmlOutputFunction (at_callee n c)
       | _ => ret false
       end.

(** *** Terminal extraction *)

Definition getPassthrough (n : Node) : M (option Passthrough) :=
  match self n with
  | CallExpression _ _ =>
      r <- Rules.getFunctionRules n ;; ret (passthrough r)
  | _ => ret None
  end.

(** [_children] is the array the recursion pushes into; the function returns
    it.  Arguments sit in slots 1, 2, ... of a call and elements in slots
    0, 1, ... of an array. *)
Fixpoint getDescendants (n : BaseNode) (up : Ancestors)
         (_children : list Node) (_hasRecursed : bool) {struct n}
  : M (list Node) :=
  let this := mkNode n up in
  pt <- getPassthrough this ;;
  match pt with
  | Some pt =>
      match n with
      | CallExpression callee arguments =>
          _children <-
            (if obj pt then
               match callee with
               | MemberExpression o _ _ =>
                   getDescendants o (slot (at_callee this callee) 0)
                                  _children _hasRecursed
               | _ => throw
               end
             else ret _children) ;;
          if args pt then
            forEach (fun a i ch => getDescendants a (slot this i) ch _hasRecursed)
                    arguments 1 _children
          else ret _children
      | _ => ret _children
      end
  | None =>
      match n with
      | CallExpression _ _ | NewExpression _ _ | ThisExpression
      | ObjectExpression _ | FunctionExpression _ _ _ | UnaryExpression _
      | UpdateExpression _ | MemberExpression _ _ _ | SequenceExpression _
      | Literal _ | Identifier _ =>
          (* Basic expressions that won't be reflected further. *)
          ret (_children ++ [this])
      | ArrayExpression elements =>
          if _hasRecursed then ret (_children ++ [this])
          else forEach (fun e i ch => getDescendants e (slot this i) ch true)
                       elements 0 _children
      | BinaryExpression l r =>
          ch <- getDescendants l (slot this 0) _children true ;;
          getDescendants r (slot this 1) ch true
      | AssignmentExpression l _ =>
          getDescendants l (slot this 0) _children _hasRecursed
      | ConditionalExpression _ c a =>
          ch <- getDescendants a (slot this 2) _children _hasRecursed ;;
          getDescendants c (slot this 1) ch _hasRecursed
      | _ => ret _children
      end
  end.

(** *** Sink validation *)

Definition includes (l : list string) (x : string) : bool :=
  existsb (String.eqb x) l.

(** The body of the [forEach] callback of [checkForXss] once the node is
    not marked safe in the current context. *)
Definition checkDescendant (childNode : Node) : M unit :=
  (* Node is okay, if it is safe. *)
  ok <- isXssSafe childNode ;;
  if ok then ret tt
  else
    (* Node wasn't deemed okay. Report error. *)
    let '(msg, childNode) :=
      match self childNode with
      | CallExpression c _ =>
          ("Unencoded return value from function '{{ identifier }}' used in HTML context",
           at_callee childNode c)
      | _ =>
          ("Unencoded input '{{ identifier }}' used in HTML context", childNode)
      end in
    let identifier :=
      match self childNode with
      | ObjectExpression _ => "[Object]"
      | ArrayExpression _ => "[Array]"
      | _ => getSource context childNode
      end in
    report (mkReport childNode msg identifier).

Definition checkForXss (n target : Node) : M unit :=
  match self n with
  | FunctionExpression _ _ _ | ObjectExpression _ => ret tt
  | _ =>
      targetRules <- Rules.get target ;;
      nodes <- getDescendants (self n) (ancestors n) [] false ;;
      forEach_
        (fun childNode =>
           (* Return if the parameter is marked as safe in the current
              context. *)
           match safe targetRules with
           | Some SafeAll => ret tt
           | Some (SafeNames l) =>
               if includes l (tree.getNodeName childNode) then ret tt
               else checkDescendant childNode
           | None => checkDescendant childNode
           end)
        nodes
  end.

Fixpoint usesHtml (n : BaseNode) (up : Ancestors) {struct up} : M bool :=
  let this := mkNode n up in
  match n with
  | CallExpression c _ => functionAcceptsHtml (at_callee this c)
  | AssignmentExpression l _ => ret (isHtmlVariable (at_left this l))
  | VariableDeclarator i _ => ret (isHtmlVariable (at_id this i))
  | Property k _ => ret (isHtmlVariable (at_key this k))
  | ArrayExpression _ =>
      match up with
      | [] => throw
      | (_, p) :: up' => usesHtml p up'
      end
  | ReturnStatement _ | ArrowFunctionExpression _ _ =>
      match tree.getParentFunctionIdentifier this with
      | None => ret false
      | Some func => ret (isHtmlFunction func)
      end
  | _ => ret false
  end.

Definition checkHtmlVariable (n : Node) : M unit :=
  ok <- isXssSafe n ;;
  if ok then ret tt
  else report (mkReport n
                 "Non-HTML variable '{{ identifier }}' is used to store raw HTML"
                 (getSource context n)).

Definition checkHtmlFunction (n fault : Node) : M unit :=
  ok <- isXssSafe n ;;
  if ok then ret tt
  else report (mkReport fault
                 "Non-HTML function '{{ identifier }}' returns HTML content"
                 (getSource context n)).

Definition checkFunctionAcceptsHtml (n : Node) : M unit :=
  ok <- functionAcceptsHtml n ;;
  if ok then ret tt
  else report (mkReport n "HTML passed in to function '{{ identifier }}'"
                 (getSource context n)).

(** *** The expression stack *)

(** The [do ... while (parent !== top)] loop of [canInfectXss]; [child] is
    the node the round starts from. *)
Fixpoint parameterChain (top : Node) (child : BaseNode) (up : Ancestors)
         {struct up} : Result bool :=
  match up with
  | [] => TypeError
  | (_, p) :: up' =>
      if negb (tree.isParameter (mkNode child up) (mkNode p up')) then Ok false
      else if same (mkNode p up') top then Ok true
           else parameterChain top p up'
  end.

Definition canInfectXss (n : Node) : M bool :=
  stack <- gets exprStack ;;
  match stack with
  | [] => ret false
  | top :: _ => lift (parameterChain (node top) (self n) (ancestors n))
  end.

Definition pushNode (n : Node) : M unit :=
  modify (fun s => set_exprStack (mkFrame n false :: exprStack s) s).

(** [exprStack.pop()], followed by the first read of a field of the result. *)
Definition pop : M Frame :=
  stack <- gets exprStack ;;
  match stack with
  | [] => throw
  | expr :: below => modify (set_exprStack below) ;;; ret expr
  end.

(** [expr.xss || usesHtml(expr.node)]. *)
Definition isCandidate (expr : Frame) : M bool :=
  if xss expr then ret true
  else usesHtml (self (node expr)) (ancestors (node expr)).

Definition exitNode : M unit :=
  expr <- pop ;;
  (* Quick checks for whether the node is even vulnerable to XSS. *)
  vulnerable <- isCandidate expr ;;
  if negb vulnerable then ret tt
  else
    (* Check whether the node has been commented safe. *)
    commented <- lift (isCommentedSafe (node expr)) ;;
    if commented then ret tt
    else
      let this := node expr in
      match self this with
      | CallExpression c arguments =>
          checkFunctionAcceptsHtml (at_callee this c) ;;;
          forEach_ (fun a => checkForXss a this) (at_arguments this arguments)
      | AssignmentExpression l r =>
          checkHtmlVariable (at_left this l) ;;;
          checkForXss (at_right this r) this
      | VariableDeclarator i init =>
          checkHtmlVariable (at_id this i) ;;;
          match init with
          | Some e => checkForXss (at_init this e) this
          | None => ret tt
          end
      | Property k v =>
          checkHtmlVariable (at_key this k) ;;;
          checkForXss (at_value this v) this
      | ReturnStatement argument =>
          match tree.getParentFunctionIdentifier this with
          | None => ret tt
          | Some func =>
              checkHtmlFunction func this ;;;
              match argument with
              | Some a => checkForXss (at_argument this a) this
              | None => throw
              end
          end
      | ArrowFunctionExpression ps b =>
          match tree.getParentFunctionIdentifier this with
          | None => ret tt
          | Some func =>
              checkHtmlFunction func func ;;;
              checkForXss (at_arrow_body this ps b) this
          end
      | _ => ret tt
      end.

(** The path of [getPathFromParent], before it is reversed. *)
Fixpoint pathToParent (n : BaseNode) (up : Ancestors) (parentType : string)
         {struct up} : option (list Node) :=
  if String.eqb (type n) parentType then Some [mkNode n up]
  else match up with
       | [] => None
       | (_, p) :: up' =>
           match pathToParent p up' parentType with
           | Some path => Some (mkNode n up :: path)
           | None => None
           end
       end.

Definition getPathFromParent (n : Node) (parentType : string)
  : option (list Node) :=
  match pathToParent (self n) (ancestors n) parentType with
  | Some path => Some (rev path)
  | None => None
  end.

(** [callImmediateChild === callExpr.callee], for the first two entries of
    the path. *)
Definition isCalleeOf (path : list Node) : Result bool :=
  match path with
  | [] => TypeError
  | callExpr :: rest =>
      match self callExpr with
      | CallExpression c _ =>
          Ok match rest with
             | callImmediateChild :: _ =>
                 same callImmediateChild (at_callee callExpr c)
             | [] => false
             end
      | _ => Ok false
      end
  end.

(** The loop of [getXssCandidateParent] over the frames from [ptr] down;
    the result is the distance of the candidate from the top of the stack. *)
Fixpoint candidateLoop (n : Node) (stack : list Frame) (ptr : nat)
  : M (option nat) :=
  match stack with
  | [] => ret None
  | candidate :: below =>
      match self (node candidate) with
      | CallExpression _ _ =>
          functionRules <- Rules.get (node candidate) ;;
          match passthrough functionRules with
          | None => ret (Some ptr)
          | Some pt =>
              if obj pt && args pt then candidateLoop n below (S ptr)
              else
                match getPathFromParent n "CallExpression" with
                | None => throw
                | Some path =>
                    isCallee <- lift (isCalleeOf path) ;;
                    let isParam := negb isCallee in
                    if isCallee && obj pt then candidateLoop n below (S ptr)
                    else if isParam && args pt then candidateLoop n below (S ptr)
                         else ret (Some ptr)
                end
          end
      | _ => ret (Some ptr)
      end
  end.

Definition getXssCandidateParent (n : Node) : M (option nat) :=
  stack <- gets exprStack ;; candidateLoop n stack 0.

(** [if (candidate) candidate.xss = true]. *)
Definition infect (candidate : option nat) : M unit :=
  match candidate with
  | Some ptr => modify (fun s => set_exprStack (taint ptr (exprStack s)) s)
  | None => ret tt
  end.

Definition markParentXSS : M unit :=
  expr <- pop ;;
  vulnerable <- isCandidate expr ;;
  if negb vulnerable then ret tt
  else candidate <- getXssCandidateParent (node expr) ;; infect candidate.

Definition infectParentConditional (condition : Node -> M bool) (n : Node)
  : M unit :=
  stack <- gets exprStack ;;
  match stack with
  | [] => ret tt
  | _ :: _ =>
      commented <- lift (isCommentedSafe n) ;;
      if commented then ret tt
      else
        can <- canInfectXss n ;;
        if negb can then ret tt
        else
          holds <- condition n ;;
          if holds then
            infectable <- getXssCandidateParent n ;; infect infectable
          else ret tt
  end.

(** *** The visitor *)

(** The condition of the call-expression handler:
    [isHtmlOutputFunction(node.callee)]. *)
Definition returnsHtml (n : Node) : M bool :=
  match self n with
  | CallExpression c _ => isHtmlOutputFunction (at_callee n c)
  | _ => throw
  end.

(** The condition of the literal handler: not a regular expression, not
    commented safe, and the value contains an HTML tag or fragment. *)
Definition containsHtml (n : Node) : M bool :=
  match self n with
  | Literal v =>
      if regex v then ret false
      else
        commented <- lift (isCommentedSafe n) ;;
        ret (negb commented && literalHasHtmlTag v)
  | _ => commented <- lift (isCommentedSafe n) ;; ret false
  end.

(** The condition of the identifier handler. *)
Definition namesHtml (n : Node) : M bool := ret (isHtmlVariable n).

Definition onCallExpression (n : Node) : M unit :=
  (* First check whether this expression marks the parent as dirty. *)
  infectParentConditional returnsHtml n ;;;
  pushNode n.

Definition onLiteral : Node -> M unit :=
  infectParentConditional containsHtml.

Definition onIdentifier : Node -> M unit :=
  infectParentConditional namesHtml.

Definition enter (n : Node) : M unit :=
  match self n with
  | AssignmentExpression _ _ | VariableDeclarator _ _ | Property _ _
  | ReturnStatement _ | ArrowFunctionExpression _ _ | ArrayExpression _ =>
      pushNode n
  | CallExpression _ _ => onCallExpression n
  | Literal _ => onLiteral n
  | Identifier _ => onIdentifier n
  | _ => ret tt
  end.

Definition leave (n : Node) : M unit :=
  match self n with
  | AssignmentExpression _ _ | VariableDeclarator _ _ | Property _ _
  | ReturnStatement _ | ArrowFunctionExpression _ _ | CallExpression _ _ =>
      exitNode
  | ArrayExpression _ => markParentXSS
  | _ => ret tt
  end.

(** Children are visited in the order of the visitor keys, starting at slot
    [i]. *)
Definition traverseAll (f : BaseNode -> Ancestors -> M unit) (this : Node)
  : list BaseNode -> nat -> M unit :=
  fix go (l : list BaseNode) (i : nat) : M unit :=
    match l with
    | [] => ret tt
    | c :: r => f c (slot this i) ;;; go r (S i)
    end.

Definition traverseOption (f : BaseNode -> Ancestors -> M unit) (this : Node)
           (o : option BaseNode) (i : nat) : M unit :=
  match o with
  | Some c => f c (slot this i)
  | None => ret tt
  end.

(** The traversal the host drives: the enter handler of a node, its
    children, then its exit handler. *)
Fixpoint traverse (n : BaseNode) (up : Ancestors) {struct n} : M unit :=
  let this := mkNode n up in
  enter this ;;;
  match n with
  | Identifier _ | PrivateIdentifier _ | Literal _ | ThisExpression => ret tt
  | MemberExpression o p _ =>
      traverse o (slot this 0) ;;; traverse p (slot this 1)
  | CallExpression c l | NewExpression c l =>
      traverse c (slot this 0) ;;; traverseAll traverse this l 1
  | ArrayExpression l | ObjectExpression l | SequenceExpression l
  | Other _ l => traverseAll traverse this l 0
  | Property a b | BinaryExpression a b | AssignmentExpression a b =>
      traverse a (slot this 0) ;;; traverse b (slot this 1)
  | FunctionExpression i ps b | FunctionDeclaration i ps b =>
      traverseOption traverse this i 0 ;;;
      traverseAll traverse this ps 1 ;;;
      traverse b (slot this (S (List.length ps)))
  | ArrowFunctionExpression ps b =>
      traverseAll traverse this ps 0 ;;;
      traverse b (slot this (List.length ps))
  | UnaryExpression a | UpdateExpression a => traverse a (slot this 0)
  | ConditionalExpression t c a =>
      traverse t (slot this 0) ;;;
      traverse c (slot this 1) ;;;
      traverse a (slot this 2)
  | VariableDeclarator i init =>
      traverse i (slot this 0) ;;; traverseOption traverse this init 1
  | ReturnStatement a => traverseOption traverse this a 0
  end ;;;
  leave this.

(** One run of the rule over a program: a fresh instance, the traversal
    from the root, and the reports it made. *)
Definition lint (program : BaseNode) : Result (list Report) :=
  match traverse program [] initialState with
  | Ok (_, s) => Ok (reports s)
  | TypeError => TypeError
  end.

(** Two runs over one program, one after the other.  Each run is a fresh
    instance of the rule, with its own stack, cache and reports; what the
    second instance shares with the first is the rule table object of the
    options, in whatever state the first run left it. *)
Definition lintTwice (program : BaseNode)
  : Result (list Report * list Report) :=
  match traverse program [] (instantiate functionRules) with
  | TypeError => TypeError
  | Ok (_, s1) =>
      match traverse program [] (instantiate (rules s1)) with
      | TypeError => TypeError
      | Ok (_, s2) => Ok (reports s1, reports s2)
      end
  end.

End NoMixedHtml.

(* ------------------------------------------------------------------------- *)
(** ** rules/no-location-href-assign                                           *)
(* ------------------------------------------------------------------------- *)

Module location_href.

(** [node.property], [undefined] on kinds without the field: member
    expressions and meta properties have it. *)
Definition property (n : BaseNode) : option BaseNode :=
  match n with
  | MemberExpression _ p _ => Some p
  | Other MetaProperty l => List.nth_error l 1
  | _ => None
  end.

(** [node.callee], [undefined] on kinds without the field. *)
Definition callee (n : BaseNode) : option BaseNode :=
  match n with
  | CallExpression c _ | NewExpression c _ => Some c
  | _ => None
  end.

(** [node.name === text]. *)
Definition named (n : BaseNode) (text : string) : bool :=
  match tree.name n with
  | Some x => String.eqb x text
  | None => false
  end.

Definition ERROR : string :=
  "Dangerous location.href assignment can lead to XSS".

(** The descriptor handed to [context.report]. *)
Record Report : Type := mkReport { report_node : Node; message : string }.

Section Rule.

(** Two type guards the rule imports from [typeNarrowing].  They are applied
    to the value of a field, which may be [undefined] ([None]), and are kept
    as parameters of the rule: what is proved of it holds for every pair of
    guards. *)
Variable isPrivateIdentifier : option BaseNode -> Result bool.
Variable isBaseCallExpression : option BaseNode -> Result bool.

(** [context.options[0].escapeFunc], when the options give one, and
    [sourceCode.getText]. *)
Variable escapeFuncOption : option string.
Variable getText : Node -> string.

(** [(context.options[0] && context.options[0].escapeFunc) || "escape"]. *)
Definition escapeFunc : string :=
  match escapeFuncOption with
  | Some x => if String.eqb x "" then "escape" else x
  | None => "escape"
  end.

(** The test on the right side: a call of the escape function. *)
Definition isEscaped (n : Node) (rhs : BaseNode) : Result bool :=
  match isBaseCallExpression (Some rhs) with
  | TypeError => TypeError
  | Ok false => Ok false
  | Ok true =>
      match isPrivateIdentifier (callee rhs) with
      | TypeError => TypeError
      | Ok false => Ok false
      | Ok true =>
          match callee rhs with
          | None => TypeError
          | Some c =>
              Ok (named c escapeFunc
                  || String.eqb (getText (at_callee (at_right n rhs) c))
                                escapeFunc)
          end
      end
  end.

(** The [AssignmentExpression] handler: the report it makes, if any. *)
Definition onAssignment (n : Node) : Result (option Report) :=
  match self n with
  | AssignmentExpression (MemberExpression o p _) rhs =>
      match isPrivateIdentifier (Some p) with
      | TypeError => TypeError
      | Ok guard =>
          let isHref := guard && named p "href" in
          if negb isHref then Ok None
          else
            let isLocationObject := named o "location" in
            match property o with
            | None => TypeError
            | Some q =>
                let isLocationProperty := named q "location" in
                if negb (isLocationObject || isLocationProperty) then Ok None
                else
                  match isEscaped n rhs with
                  | TypeError => TypeError
                  | Ok true => Ok None
                  | Ok false =>
                      let rightSource := getText (at_right n rhs) in
                      Ok (Some (mkReport n
                                  (ERROR +:+ ". Please use " +:+ escapeFunc
                                   +:+ "(" +:+ rightSource
                                   +:+ ") as a wrapper for escaping")))
                  end
            end
      end
  | _ => Ok None
  end.

End Rule.

(** A guard that accepts the nodes with a [name], and one that accepts
    calls, for running the rule on examples. *)
Definition hasName (o : option BaseNode) : Result bool :=
  match o with
  | Some (Identifier _) | Some (PrivateIdentifier _) => Ok true
  | Some _ => Ok false
  | None => TypeError
  end.

Definition isCall (o : option BaseNode) : Result bool :=
  match o with
  | Some (CallExpression _ _) => Ok true
  | Some _ => Ok false
  | None => TypeError
  end.

End location_href.

(* ------------------------------------------------------------------------- *)
(** ** A concrete host, for running the rule on examples                       *)
(* ------------------------------------------------------------------------- *)

Module Example.

Fixpoint prefixb (p s : string) : bool :=
  match p, s with
  | EmptyString, _ => true
  | String a p', String b s' => Ascii.eqb a b && prefixb p' s'
  | _, _ => false
  end.

Fixpoint containsb (p s : string) : bool :=
  prefixb p s ||
  match s with
  | String _ r => containsb p r
  | EmptyString => false
  end.

Fixpoint lowerString (s : string) : string :=
  match s with
  | EmptyString => EmptyString
  | String c r => String (toLower c) (lowerString r)
  end.

(** [exec] for patterns without metacharacters, with or without the [i]
    flag: a substring search. *)
Definition literalExec (r : RegExp) (input : string) : bool :=
  match flags r with
  | Some "i" => containsb (lowerString (source r)) (lowerString input)
  | _ => containsb (source r) input
  end.

(** [context.getSource(node)], for the nodes the examples report. *)
Fixpoint sourceText (n : BaseNode) : string :=
  match n with
  | Identifier x | PrivateIdentifier x => x
  | ThisExpression => "this"
  | MemberExpression o p false => sourceText o +:+ "." +:+ sourceText p
  | MemberExpression o p true => sourceText o +:+ "[" +:+ sourceText p +:+ "]"
  | CallExpression c _ => sourceText c +:+ "(...)"
  | FunctionExpression _ _ _ => "function () {...}"
  | _ => "..."
  end.

(** A source text without comments, in which no expression is
    parenthesized; the rule runs with its default options. *)
Definition plain : RuleContext :=
  mkContext [] (fun _ => Some (mkToken "Punctuator" "="))
            (fun _ => [])
            (fun n => sourceText (self n)).

(** The same text with a [/*safe*/] comment in front of every literal. *)
Definition safeLiterals : RuleContext :=
  mkContext [] (fun _ => Some (mkToken "Punctuator" "="))
            (fun n => match self n with Literal _ => [" safe "] | _ => [] end)
            (fun n => sourceText (self n)).

(** The default options with one more function rule. *)
Definition withFunctions (t : gmap string FunctionPolicy) : RuleContext :=
  mkContext [mkOptions None None (Some t)]
            (fun _ => Some (mkToken "Punctuator" "="))
            (fun _ => [])
            (fun n => sourceText (self n)).

(** Where a report points and what it says. *)
Definition summary (r : Result (list Report))
  : option (list (list nat * string * string)) :=
  match r with
  | Ok l => Some (map (fun d => (position (report_node d), message d, identifier d)) l)
  | TypeError => None
  end.

End Example.

(* ------------------------------------------------------------------------- *)
(** ** Notions the properties are stated with                                 *)
(* ------------------------------------------------------------------------- *)

(** The node [getIdentifier] looks at after unwrapping a call. *)
Definition unwrapped (n : Node) : Node :=
  match self n with
  | CallExpression c _ => at_callee n c
  | _ => n
  end.

Definition isIdentifier (n : BaseNode) : bool :=
  match n with
  | Identifier _ => true
  | _ => false
  end.

(** The kinds [isParameter] has a branch for. *)
Definition rejectingKinds : list string :=
  ["CallExpression"; "AssignmentExpression"; "VariableDeclarator"; "Property";
   "ArrayExpression"; "FunctionExpression"; "ConditionalExpression";
   "ArrowFunctionExpression"].

Definition canReject (expr : BaseNode) : bool :=
  existsb (String.eqb (type expr)) rejectingKinds.

(** What a lookup returns in a given state, and the state it leaves. *)
Definition resolve (s : State) (n : BaseNode) : FunctionPolicy :=
  match cache s !! tree.getFullItemName n with
  | Some r => r
  | None => match Rules.firstRule (rules s) (tree.getRuleNames n) with
            | Some r => r
            | None => emptyPolicy
            end
  end.

Definition remember (s : State) (n : BaseNode) : State :=
  match cache s !! tree.getFullItemName n with
  | Some _ => s
  | None => set_cache (<[tree.getFullItemName n := resolve s n]> (cache s)) s
  end.

Definition prepend {A} (ch : list A) (r : Result (list A * State))
  : Result (list A * State) :=
  match r with
  | Ok (l, s') => Ok (ch ++ l, s')
  | TypeError => TypeError
  end.

Definition accLaw (n : BaseNode) : Prop :=
  forall up ch rec s,
    getDescendants n up ch rec s = prepend ch (getDescendants n up [] rec s).

(** [t] lies strictly inside the subtree of [this]. *)
Definition inside (this t : Node) : Prop :=
  exists pre i, ancestors t = pre ++ slot this i.

(** The effects of a policy lookup: only the cache changes. *)
Definition onlyCache (s s' : State) : Prop :=
  exprStack s' = exprStack s /\ rules s' = rules s /\ reports s' = reports s.

Definition terminalsOk (n : BaseNode) : Prop :=
  forall up rec s l s',
    getDescendants n up [] rec s = Ok (l, s') ->
    Forall (fun t => t = mkNode n up \/ inside (mkNode n up) t) l /\
    onlyCache s s'.

(** Some step of the walk from [n] up to [top] is not a value-carrying
    position: either the step from [n] to its parent, or a later step that is
    taken because the parent is not yet [top]. *)
Inductive BrokenChain (top : Node) : Node -> Prop :=
| broken_here (n p : Node) :
    parent n = Some p -> tree.isParameter n p = false -> BrokenChain top n
| broken_above (n p : Node) :
    parent n = Some p -> same p top = false -> BrokenChain top p ->
    BrokenChain top n.

Definition pushed (n : Node) (s : State) : State :=
  set_exprStack (mkFrame n false :: exprStack s) s.

(** What a visit that resolves no candidate leaves behind: nothing for a
    literal or an identifier, the node's own fresh frame for a call. *)
Definition untouched (n : Node) (s : State) : Result (unit * State) :=
  match self n with
  | CallExpression _ _ => Ok (tt, pushed n s)
  | _ => Ok (tt, s)
  end.

(** Whether the leaf sits on the callee side of its closest enclosing call,
    the leaf itself included ([isCallee] in [getXssCandidateParent]): the
    path of [getPathFromParent] ends at that call, whichever frame the loop
    is looking at.  [None] when the code would fail to find a path. *)
Definition leafIsCallee (n : Node) : option bool :=
  match getPathFromParent n "CallExpression" with
  | Some path => match isCalleeOf path with
                 | Ok b => Some b
                 | TypeError => None
                 end
  | None => None
  end.

(** A passthrough the loop continues past: a full passthrough, or a partial
    one that passes through the side the leaf has in its closest enclosing
    call: the object when the leaf is the callee of that call or lies in it,
    the arguments otherwise. *)
Definition transparentFor (n : Node) (pt : Passthrough) : bool :=
  (obj pt && args pt) ||
  match leafIsCallee n with
  | Some true => obj pt
  | Some false => args pt
  | None => false
  end.

(** Every frame, scanned from the top down, is a call whose policy (as the
    lookup resolves it at that point of the scan) the loop continues past;
    the last argument is the state the scan ends in. *)
Inductive AllTransparent (n : Node) : list Frame -> State -> State -> Prop :=
| transparent_nil (s : State) : AllTransparent n [] s s
| transparent_cons (f : Frame) (below : list Frame) (s s' : State)
                   (c : BaseNode) (l : list BaseNode) (pt : Passthrough) :
    self (node f) = CallExpression c l ->
    passthrough (resolve s (self (node f))) = Some pt ->
    transparentFor n pt = true ->
    AllTransparent n below (remember s (self (node f))) s' ->
    AllTransparent n (f :: below) s s'.

(** The position as the specification words it: the side of the leaf in the
    call of the frame that is looked at, read off the path from the leaf up
    to that call.  [slotUnder call up] is the child slot of [call] the chain
    [up] passes through. *)
Fixpoint slotUnder (call : Node) (up : Ancestors) : option nat :=
  match up with
  | [] => None
  | (i, p) :: up' =>
      if same (mkNode p up') call then Some i else slotUnder call up'
  end.

Definition sideIn (n call : Node) : option bool :=
  match slotUnder call (ancestors n) with
  | Some i => Some (Nat.eqb i 0)
  | None => None
  end.

(** A full passthrough, or a partial one that is transparent in the position
    the leaf occupies in the call [call]. *)
Definition transparentIn (n call : Node) (pt : Passthrough) : bool :=
  (obj pt && args pt) ||
  match sideIn n call with
  | Some true => obj pt
  | Some false => args pt
  | None => false
  end.

(** Every frame, scanned from the top down, is a call whose policy is a full
    passthrough or transparent in the position the leaf occupies in that
    call. *)
Inductive TransparentInPlace (n : Node) : list Frame -> State -> State -> Prop :=
| in_place_nil (s : State) : TransparentInPlace n [] s s
| in_place_cons (f : Frame) (below : list Frame) (s s' : State)
                (c : BaseNode) (l : list BaseNode) (pt : Passthrough) :
    self (node f) = CallExpression c l ->
    passthrough (resolve s (self (node f))) = Some pt ->
    transparentIn n (node f) pt = true ->
    TransparentInPlace n below (remember s (self (node f))) s' ->
    TransparentInPlace n (f :: below) s s'.

(** The dotted name [a.b.c], possibly called. *)
Definition dotted (a b c : string) : BaseNode :=
  MemberExpression (MemberExpression (Identifier a) (Identifier b) false)
                   (Identifier c) false.

(** Every successful run of [m] relates the state before to the state
    after. *)
Definition respects (R : State -> State -> Prop) {A} (m : M A) : Prop :=
  forall s a s', m s = Ok (a, s') -> R s s'.

(** Reports are only appended, each at a node satisfying [P]; the stack and
    the rule table are left alone. *)
Definition reportsAt (P : Node -> Prop) (s s' : State) : Prop :=
  exprStack s' = exprStack s /\ rules s' = rules s /\
  exists new, reports s' = reports s ++ new /\
              Forall (fun r => P (report_node r)) new.

(** The rule table object is never written. *)
Definition sameRules (s s' : State) : Prop := rules s' = rules s.

(** The state in which [checkForXss] extracts the terminals: the lookup of
    the target's rules has been made. *)
Definition lookedUp (target : Node) (s : State) : State :=
  match self target with
  | CallExpression _ _ => remember s (self target)
  | _ => s
  end.

(** The nodes of the frames on the stack, top first. *)
Definition shape (s : State) : list Node := map node (exprStack s).

(** The same frames are on the stack; their flags may differ. *)
Definition sameShape (s s' : State) : Prop := shape s' = shape s.

(** The kinds whose enter handler pushes a frame and whose exit handler pops
    it. *)
Definition isSink (n : BaseNode) : bool :=
  match n with
  | AssignmentExpression _ _ | VariableDeclarator _ _ | Property _ _
  | ReturnStatement _ | ArrowFunctionExpression _ _ | ArrayExpression _
  | CallExpression _ _ => true
  | _ => false
  end.

(** The two sinks that give a variable named [h] its value. *)
Definition storesInto (h : string) (value sink : BaseNode) : Prop :=
  sink = VariableDeclarator (Identifier h) (Some value) \/
  sink = AssignmentExpression (Identifier h) value.

Definition nonHtmlVariableReport (context : RuleContext) (n : Node) : Report :=
  mkReport n "Non-HTML variable '{{ identifier }}' is used to store raw HTML"
           (getSource context n).

(** *** Notions of the further properties *)

(** A text without [/]. *)
Fixpoint noSlash (s : string) : bool :=
  match s with
  | EmptyString => true
  | String c rest => negb (Ascii.eqb c "/") && noSlash rest
  end.

(** The member chain [base.p1.p2...pn], every access non-computed. *)
Definition chain (base : BaseNode) (props : list string) : BaseNode :=
  fold_left (fun o p => MemberExpression o (Identifier p) false) props base.

(** The non-empty suffixes of a list, the longest first. *)
Fixpoint suffixes {A} (l : list A) : list (list A) :=
  match l with
  | [] => []
  | _ :: r => l :: suffixes r
  end.

Definition isFunction (n : BaseNode) : bool :=
  match n with
  | FunctionExpression _ _ _ | FunctionDeclaration _ _ _
  | ArrowFunctionExpression _ _ => true
  | _ => false
  end.

(** An occurrence of [<] or [</] followed by a lowercase letter. *)
Definition hasTag (s : string) : Prop :=
  exists (pre post : string) (c : ascii),
    isLowerAlpha c = true /\
    (s = pre +:+ String "<" (String c post) \/
     s = pre +:+ String "<" (String "/" (String c post))).

(** A text of ASCII characters only. *)
Fixpoint asciiText (s : string) : bool :=
  match s with
  | EmptyString => true
  | String c rest => (nat_of_ascii c <? 128)%nat && asciiText rest
  end.

(** The word [safe] in any casing, between white space. *)
Definition saysSafe (s : string) : Prop :=
  exists (before word after : string),
    s = before +:+ word +:+ after /\
    allSpaces before = true /\ allSpaces after = true /\
    Example.lowerString word = "safe".

(** The kinds no branch of [getDescendants] names. *)
Definition unexamined (n : BaseNode) : bool :=
  match n with
  | PrivateIdentifier _ | Property _ _ | FunctionDeclaration _ _ _
  | ArrowFunctionExpression _ _ | VariableDeclarator _ _ | ReturnStatement _
  | Other _ _ => true
  | _ => false
  end.

(** The kinds [checkForXss] returns on at once. *)
Definition skipped (n : BaseNode) : bool :=
  match n with
  | FunctionExpression _ _ _ | ObjectExpression _ => true
  | _ => false
  end.

Definition isMember (n : BaseNode) : bool :=
  match n with
  | MemberExpression _ _ _ => true
  | _ => false
  end.

(** What a run may do to the rule table, the cache and the reports: the
    table is kept, cached policies are kept, reports are appended. *)
Definition extends (s s' : State) : Prop :=
  rules s' = rules s /\ cache s ⊆ cache s' /\
  exists new, reports s' = reports s ++ new.

(** No report is made and the rule table is kept. *)
Definition quiet (s s' : State) : Prop :=
  reports s' = reports s /\ rules s' = rules s.

(** The kinds whose exit handler is [exitNode]. *)
Definition isValidated (n : BaseNode) : bool :=
  match n with
  | AssignmentExpression _ _ | VariableDeclarator _ _ | Property _ _
  | ReturnStatement _ | ArrowFunctionExpression _ _ | CallExpression _ _ => true
  | _ => false
  end.

(** Terminal extraction on [n] respects [R], wherever [n] stands. *)
Definition framed (R : State -> State -> Prop) (n : BaseNode) : Prop :=
  forall up ch rec, respects R (getDescendants n up ch rec).

(** The frame the candidate scan stops at: any frame that is not a call, a
    call without a passthrough policy, or a partial passthrough that does not
    pass through the side the leaf has in its closest enclosing call. *)
Definition stopsAt (n : Node) (f : Frame) (s : State) : Prop :=
  match self (node f) with
  | CallExpression _ _ =>
      match passthrough (resolve s (self (node f))) with
      | None => True
      | Some pt =>
          transparentFor n pt = false /\ exists b, leafIsCallee n = Some b
      end
  | _ => True
  end.

(** Every frame, scanned from the top down, is a call whose policy (as the
    lookup resolves it at that point of the scan) passes its arguments
    through; the last argument is the state the scan ends in. *)
Inductive ArgumentsPass : list Frame -> State -> State -> Prop :=
| pass_nil (s : State) : ArgumentsPass [] s s
| pass_cons (f : Frame) (below : list Frame) (s s' : State)
            (c : BaseNode) (l : list BaseNode) (pt : Passthrough) :
    self (node f) = CallExpression c l ->
    passthrough (resolve s (self (node f))) = Some pt ->
    args pt = true ->
    ArgumentsPass below (remember s (self (node f))) s' ->
    ArgumentsPass (f :: below) s s'.

(** A frame that keeps what reaches it through an argument: any frame that
    is not a call, a call without a passthrough policy, or a call that passes
    only its object through. *)
Definition keepsArguments (f : Frame) (s : State) : Prop :=
  match self (node f) with
  | CallExpression _ _ =>
      match passthrough (resolve s (self (node f))) with
      | None => True
      | Some pt => args pt = false
      end
  | _ => True
  end.

(** No node of the subtree is a sink. *)
Fixpoint sinkFree (n : BaseNode) : bool :=
  match n with
  | Identifier _ | PrivateIdentifier _ | Literal _ | ThisExpression => true
  | MemberExpression o p _ => sinkFree o && sinkFree p
  | NewExpression c l => sinkFree c && forallb sinkFree l
  | ObjectExpression l | SequenceExpression l | Other _ l => forallb sinkFree l
  | FunctionExpression i ps b | FunctionDeclaration i ps b =>
      match i with Some x => sinkFree x | None => true end &&
      forallb sinkFree ps && sinkFree b
  | UnaryExpression a | UpdateExpression a => sinkFree a
  | BinaryExpression a b => sinkFree a && sinkFree b
  | ConditionalExpression t c a => sinkFree t && sinkFree c && sinkFree a
  | CallExpression _ _ | ArrayExpression _ | Property _ _
  | ArrowFunctionExpression _ _ | AssignmentExpression _ _
  | VariableDeclarator _ _ | ReturnStatement _ => false
  end.

(** Nothing in the subtree is a sign of HTML: no identifier has a name that
    matches a naming rule, no callee has a full name that matches a function
    naming rule, and no string literal contains a tag or a fragment of
    one. *)
Fixpoint htmlFree (exec : RegExp -> string -> bool) (context : RuleContext)
         (n : BaseNode) {struct n} : bool :=
  let free := htmlFree exec context in
  match n with
  | Identifier x =>
      negb (re.any exec x (htmlVariableRulesRegex context)) &&
      negb (re.any exec x (htmlFunctionRulesRegex context))
  | Literal v => regex v || negb (literalHasHtmlTag v)
  | PrivateIdentifier _ | ThisExpression => true
  | CallExpression c l =>
      negb (re.any exec (tree.getFullItemName c) (htmlFunctionRulesRegex context)) &&
      free c && forallb free l
  | NewExpression c l => free c && forallb free l
  | MemberExpression a b _ | Property a b | BinaryExpression a b
  | AssignmentExpression a b => free a && free b
  | ArrayExpression l | ObjectExpression l | SequenceExpression l
  | Other _ l => forallb free l
  | FunctionExpression i ps b | FunctionDeclaration i ps b =>
      match i with Some x => free x | None => true end &&
      forallb free ps && free b
  | ArrowFunctionExpression ps b => forallb free ps && free b
  | UnaryExpression a | UpdateExpression a => free a
  | ConditionalExpression t c a => free t && free c && free a
  | VariableDeclarator i init =>
      free i && match init with Some e => free e | None => true end
  | ReturnStatement a => match a with Some e => free e | None => true end
  end.

Definition isArray (n : BaseNode) : bool :=
  match n with
  | ArrayExpression _ => true
  | _ => false
  end.

(** The chain of ancestors ends in a [Program] node. *)
Definition rooted (up : Ancestors) : Prop :=
  exists pre i body, up = pre ++ [(i, Other Program body)].

(** The node of the top frame, if there is one, is a proper ancestor in the
    chain [up]. *)
Definition anchored (up : Ancestors) (sh : list Node) : Prop :=
  match sh with
  | [] => True
  | top :: _ => exists pre i p up',
      up = pre ++ (i, p) :: up' /\ same (mkNode p up') top = true
  end.

(** The frames after the enter handler of [n]. *)
Definition pushedShape (n : Node) (sh : list Node) : list Node :=
  if isSink (self n) then n :: sh else sh.

(** A policy that neither accepts nor produces HTML. *)
Definition plainPolicy (r : FunctionPolicy) : Prop :=
  htmlInput r = false /\ htmlOutput r = false.

Definition plainTable (t : gmap string FunctionPolicy) : Prop :=
  map_Forall (fun _ r => plainPolicy r) t.

(** No frame is marked and no policy in sight mentions HTML. *)
Definition calm (s : State) : Prop :=
  Forall (fun f => xss f = false) (exprStack s) /\
  plainTable (rules s) /\ plainTable (cache s).

(** From a calm state whose frames are the nodes [sh], [m] completes, in a
    calm state whose frames are the nodes [sh'], with the same reports and a
    value satisfying [Q]. *)
Definition turns (sh sh' : list Node) {A} (Q : A -> Prop) (m : M A) : Prop :=
  forall s, calm s -> shape s = sh ->
    exists a s', m s = Ok (a, s') /\ calm s' /\ reports s' = reports s /\
                 shape s' = sh' /\ Q a.

Definition unencodedInputReport (context : RuleContext) (n : Node) : Report :=
  mkReport n "Unencoded input '{{ identifier }}' used in HTML context"
           (getSource context n).

(* ------------------------------------------------------------------------- *)
(** ** Properties                                                              *)
(* ------------------------------------------------------------------------- *)

(** *** Node identity *)

Lemma same_refl (n : Node) : same n n = true.
Proof. unfold same. apply bool_decide_eq_true. reflexivity. Qed.

Lemma same_child (n : Node) (i j : nat) (a b : BaseNode) :
  same (child n i a) (child n j b) = bool_decide (i = j).
Proof.
  unfold same, position, child. simpl.
  destruct (decide (i = j)) as [->|Hne].
  - rewrite !bool_decide_eq_true_2; auto.
  - rewrite !bool_decide_eq_false_2; auto. intros H. inversion H. contradiction.
Qed.

(** *** Identifier resolution (tree.ts, [getIdentifier]) *)

Section Classifiers.

Variable exec : RegExp -> string -> bool.
Variable context : RuleContext.

Lemma getIdentifier_member (n : Node) (o p : BaseNode) (computed : bool) :
  self (unwrapped n) = MemberExpression o p computed ->
  tree.getIdentifier n =
    let target := if computed then at_object (unwrapped n) o
                  else at_property (unwrapped n) p in
    if isIdentifier (self target) then Some target else None.
Proof.
  unfold tree.getIdentifier, unwrapped.
  destruct n as [sn up]; simpl.
  destruct sn; simpl; intros H; try discriminate;
    try (injection H as -> -> ->; destruct computed; simpl;
         match goal with |- context [match ?x with _ => _ end] => destruct x end;
         reflexivity).
  destruct sn; simpl in *; try discriminate.
  injection H as -> -> ->. destruct computed; simpl.
  - destruct o; reflexivity.
  - destruct p; reflexivity.
Qed.

Lemma getIdentifier_not_member (n : Node) :
  (forall o p c, self (unwrapped n) <> MemberExpression o p c) ->
  tree.getIdentifier n =
    if isIdentifier (self (unwrapped n)) then Some (unwrapped n) else None.
Proof.
  unfold tree.getIdentifier, unwrapped.
  destruct n as [sn up]; simpl.
  destruct sn; simpl; intros H; try reflexivity;
    try (exfalso; eapply H; reflexivity).
  destruct sn; simpl in *; try reflexivity.
  exfalso; eapply H; reflexivity.
Qed.

(** C2, as the code has it.  Identifier resolution unwraps a call to its
    callee and then resolves a non-computed member access to its PROPERTY
    and a computed member access to its OBJECT; the classifiers test the
    name of the identifier so reached, and return false when the node
    reached is not an identifier (as for [this], or for a computed access
    over a base that is not an identifier). *)
Theorem C2_identifier_resolution (n : Node) :
  (forall o p, self (unwrapped n) = MemberExpression o p false ->
     tree.getIdentifier n =
       if isIdentifier p then Some (at_property (unwrapped n) p) else None) /\
  (forall o p, self (unwrapped n) = MemberExpression o p true ->
     tree.getIdentifier n =
       if isIdentifier o then Some (at_object (unwrapped n) o) else None) /\
  (forall i, tree.getIdentifier n = Some i ->
     isHtmlVariable exec context n
       = re.any exec (identifierName i) (htmlVariableRulesRegex context) /\
     isHtmlFunction exec context n
       = re.any exec (identifierName i) (htmlFunctionRulesRegex context)) /\
  (tree.getIdentifier n = None ->
     isHtmlVariable exec context n = false /\
     isHtmlFunction exec context n = false) /\
  (self (unwrapped n) = ThisExpression ->
     isHtmlVariable exec context n = false /\
     isHtmlFunction exec context n = false) /\
  (forall o p, self (unwrapped n) = MemberExpression o p true ->
     isIdentifier o = false ->
     isHtmlVariable exec context n = false /\
     isHtmlFunction exec context n = false).
Proof.
  assert (Hnone : tree.getIdentifier n = None ->
                  isHtmlVariable exec context n = false /\
                  isHtmlFunction exec context n = false).
  { unfold isHtmlVariable, isHtmlFunction. intros ->. split; reflexivity. }
  repeat split.
  - intros o p H. rewrite (getIdentifier_member n o p false H). reflexivity.
  - intros o p H. rewrite (getIdentifier_member n o p true H). reflexivity.
  - unfold isHtmlVariable. rewrite H. reflexivity.
  - unfold isHtmlFunction. rewrite H. reflexivity.
  - apply Hnone; assumption.
  - apply Hnone; assumption.
  - apply Hnone. rewrite getIdentifier_not_member.
    + rewrite H. reflexivity.
    + intros o p c. rewrite H. discriminate.
  - apply Hnone. rewrite getIdentifier_not_member.
    + rewrite H. reflexivity.
    + intros o p c. rewrite H. discriminate.
  - apply Hnone. rewrite (getIdentifier_member n o p true H). simpl.
    rewrite H0. reflexivity.
  - apply Hnone. rewrite (getIdentifier_member n o p true H). simpl.
    rewrite H0. reflexivity.
Qed.

End Classifiers.

Lemma C2_identifier_resolution_witness :
  let n := root (CallExpression
                   (MemberExpression (Identifier "text") (Identifier "html") false)
                   []) in
  tree.getIdentifier n
    = Some (at_property (unwrapped n) (Identifier "html")).
Proof.
  intros n.
  destruct (C2_identifier_resolution Example.literalExec Example.plain n) as [H _].
  exact (H (Identifier "text") (Identifier "html") eq_refl).
Defined.

(** C2 as the specification words it fails: in [html.text] the non-computed
    access resolves to the property [text], not to the object [html], so the
    HTML-variable classifier answers false; in [text[html]] the computed
    access resolves to the object [text], not to the property [html]. *)
Lemma C2_counterexample :
  let dotted := root (MemberExpression (Identifier "html") (Identifier "text") false) in
  let indexed := root (MemberExpression (Identifier "text") (Identifier "html") true) in
  tree.getIdentifier dotted = Some (at_property dotted (Identifier "text")) /\
  tree.getIdentifier dotted <> Some (at_object dotted (Identifier "html")) /\
  isHtmlVariable Example.literalExec Example.plain dotted = false /\
  tree.getIdentifier indexed = Some (at_object indexed (Identifier "text")) /\
  tree.getIdentifier indexed <> Some (at_property indexed (Identifier "html")) /\
  isHtmlVariable Example.literalExec Example.plain indexed = false.
Proof.
  cbv zeta. repeat split; try reflexivity; intros H; discriminate H.
Qed.

(** *** The value-carrying test (tree.ts, [isParameter]) *)

(** C9.  When the parent's kind is none of call expression, assignment,
    variable declarator, property, array literal, function expression,
    conditional expression or arrow function, [isParameter] answers true
    whatever node it is asked about; in particular every child of a binary
    expression, of a member expression and of a unary expression is a
    value-carrying step. *)
Theorem C9_isParameter_default :
  (forall n expr : Node,
      canReject (self expr) = false -> tree.isParameter n expr = true) /\
  (forall (n : Node) l r up,
      tree.isParameter n (mkNode (BinaryExpression l r) up) = true) /\
  (forall (n : Node) o p c up,
      tree.isParameter n (mkNode (MemberExpression o p c) up) = true) /\
  (forall (n : Node) a up,
      tree.isParameter n (mkNode (UnaryExpression a) up) = true).
Proof.
  repeat split.
  intros n [e up] H. unfold tree.isParameter. simpl in *.
  destruct e; try reflexivity; try (vm_compute in H; discriminate H).
Qed.

Lemma C9_isParameter_default_witness :
  let plus := root (Other LogicalExpression [Identifier "a"; Identifier "b"]) in
  canReject (self plus) = false /\
  tree.isParameter (child plus 1 (Identifier "b")) plus = true.
Proof.
  intros plus. split.
  - reflexivity.
  - apply (proj1 C9_isParameter_default). reflexivity.
Defined.

(** *** The rule table (Rules.ts) *)

Lemma getWithCache_eq (n : BaseNode) (s : State) :
  Rules._getWithCache n s = Ok (resolve s n, remember s n).
Proof.
  unfold Rules._getWithCache, remember, bind, gets, modify, ret.
  destruct (cache s !! tree.getFullItemName n) eqn:E;
    unfold resolve; rewrite E; reflexivity.
Qed.

Lemma getPassthrough_eq (n : Node) (s : State) :
  getPassthrough n s =
    match self n with
    | CallExpression _ _ =>
        Ok (passthrough (resolve s (self n)), remember s (self n))
    | _ => Ok (None, s)
    end.
Proof.
  unfold getPassthrough. destruct n as [sn up]; simpl.
  destruct sn; try reflexivity.
  unfold bind, Rules.getFunctionRules. simpl. rewrite getWithCache_eq.
  reflexivity.
Qed.

(** *** Terminal extraction ([getDescendants]) *)

Lemma list_all_In {A} (P : A -> Prop) (l : list A) :
  list_all A P l -> forall x, In x l -> P x.
Proof.
  induction 1 as [|a Ha l Hl IH]; intros x Hx; simpl in Hx.
  - contradiction.
  - destruct Hx as [<-|Hx]; auto.
Qed.

(** One step of [getDescendants] on each kind it looks inside. *)

Lemma getDescendants_call c l up ch rec s :
  getDescendants (CallExpression c l) up ch rec s =
    let this := mkNode (CallExpression c l) up in
    match passthrough (resolve s (self this)) with
    | None => Ok (ch ++ [this], remember s (self this))
    | Some pt =>
        bind (if obj pt then
                match c with
                | MemberExpression o _ _ =>
                    getDescendants o (slot (at_callee this c) 0) ch rec
                | _ => throw
                end
              else ret ch)
             (fun ch => if args pt then
                          forEach (fun a i ch => getDescendants a (slot this i) ch rec)
                                  l 1 ch
                        else ret ch)
             (remember s (self this))
    end.
Proof.
  simpl. unfold bind at 1. rewrite getPassthrough_eq. simpl.
  destruct (passthrough _); reflexivity.
Qed.

Lemma getDescendants_array l up ch rec s :
  getDescendants (ArrayExpression l) up ch rec s =
    let this := mkNode (ArrayExpression l) up in
    if rec then Ok (ch ++ [this], s)
    else forEach (fun e i ch => getDescendants e (slot this i) ch true) l 0 ch s.
Proof. destruct rec; reflexivity. Qed.

Lemma getDescendants_binary l r up ch rec s :
  getDescendants (BinaryExpression l r) up ch rec s =
    let this := mkNode (BinaryExpression l r) up in
    bind (getDescendants l (slot this 0) ch true)
         (fun ch => getDescendants r (slot this 1) ch true) s.
Proof. reflexivity. Qed.

Lemma getDescendants_assignment l r up ch rec s :
  getDescendants (AssignmentExpression l r) up ch rec s =
    getDescendants l (slot (mkNode (AssignmentExpression l r) up) 0) ch rec s.
Proof. reflexivity. Qed.

Lemma getDescendants_conditional t c a up ch rec s :
  getDescendants (ConditionalExpression t c a) up ch rec s =
    let this := mkNode (ConditionalExpression t c a) up in
    bind (getDescendants a (slot this 2) ch rec)
         (fun ch => getDescendants c (slot this 1) ch rec) s.
Proof. reflexivity. Qed.

(** The accumulator law: the nodes found are appended to [_children]. *)

Lemma forEach_acc (f : BaseNode -> nat -> list Node -> M (list Node))
      (l : list BaseNode) :
  (forall e, In e l -> forall i ch s, f e i ch s = prepend ch (f e i [] s)) ->
  forall i ch s, forEach f l i ch s = prepend ch (forEach f l i [] s).
Proof.
  induction l as [|e l IH]; intros H i ch s; simpl.
  - unfold ret. rewrite app_nil_r. reflexivity.
  - unfold bind. rewrite (H e (or_introl eq_refl) i ch s).
    destruct (f e i [] s) as [[l1 s1]|]; [|reflexivity]. simpl.
    assert (H' : forall e, In e l ->
                 forall i ch s, f e i ch s = prepend ch (f e i [] s)).
    { intros e' He'. apply H. right. exact He'. }
    rewrite (IH H' (S i) (ch ++ l1) s1). rewrite (IH H' (S i) l1 s1).
    destruct (forEach f l (S i) [] s1) as [[l2 s2]|]; [|reflexivity].
    simpl. rewrite app_assoc. reflexivity.
Qed.

Lemma prepend_app (f : list Node -> M (list Node)) :
  (forall ch s, f ch s = prepend ch (f [] s)) ->
  forall ch l s, f (ch ++ l) s = prepend ch (f l s).
Proof.
  intros H ch l s. rewrite H. rewrite (H l).
  destruct (f [] s) as [[x s']|]; simpl; [|reflexivity].
  rewrite app_assoc. reflexivity.
Qed.

Lemma prepend_bind (ch : list Node) (m0 mch : M (list Node))
      (k : list Node -> M (list Node)) s :
  mch s = prepend ch (m0 s) ->
  (forall l s', k (ch ++ l) s' = prepend ch (k l s')) ->
  bind mch k s = prepend ch (bind m0 k s).
Proof.
  intros H1 H2. unfold bind. rewrite H1.
  destruct (m0 s) as [[l1 s1]|]; simpl; [|reflexivity].
  apply H2.
Qed.

Ltac use_acc :=
  match goal with
  | H : accLaw ?o /\ _ |- accLaw ?o => exact (proj1 H)
  | H : accLaw ?o /\ _ |- getDescendants ?o _ _ _ _ = _ => apply (proj1 H)
  | H : _ /\ accLaw ?o |- getDescendants ?o _ _ _ _ = _ => apply (proj2 H)
  | H : list_all BaseNode _ ?l, He : In ?e ?l
    |- getDescendants ?e _ _ _ _ = _ =>
      apply (proj1 (list_all_In _ _ H e He))
  end.

Lemma getDescendants_acc_strong (n : BaseNode) :
  accLaw n /\ match n with MemberExpression o _ _ => accLaw o | _ => True end.
Proof.
  induction n; (split; [|try exact I; try use_acc]).
  all: try (intros up ch rec s; reflexivity).
  all: try (intros up ch rec s; cbn; rewrite app_nil_r; reflexivity).
  - (* call *)
    intros up ch rec s. rewrite !getDescendants_call. cbv zeta.
    destruct (passthrough _) as [pt|]; [|reflexivity].
    apply prepend_bind.
    + destruct (obj pt); [|unfold ret; simpl; rewrite app_nil_r; reflexivity].
      match goal with |- context [match ?c with _ => _ end] => destruct c end;
        try reflexivity. use_acc.
    + intros l s'. destruct (args pt); [|reflexivity].
      apply (prepend_app (fun ch => forEach _ _ _ ch)). intros ch' s''.
      apply forEach_acc. intros e He i ch'' s3. use_acc.
  - (* array *)
    intros up ch rec s. rewrite !getDescendants_array. cbv zeta.
    destruct rec; [reflexivity|].
    apply forEach_acc. intros e He i ch' s''. use_acc.
  - (* binary *)
    intros up ch rec s. rewrite !getDescendants_binary. cbv zeta.
    apply prepend_bind.
    + use_acc.
    + intros l s'. apply (prepend_app (fun ch => getDescendants _ _ ch _)).
      intros ch' s''. use_acc.
  - (* assignment *)
    intros up ch rec s. rewrite !getDescendants_assignment. use_acc.
  - (* conditional *)
    intros up ch rec s. rewrite !getDescendants_conditional. cbv zeta.
    apply prepend_bind.
    + use_acc.
    + intros l s'. apply (prepend_app (fun ch => getDescendants _ _ ch _)).
      intros ch' s''. use_acc.
Qed.

Lemma getDescendants_acc n up ch rec s :
  getDescendants n up ch rec s = prepend ch (getDescendants n up [] rec s).
Proof. apply (proj1 (getDescendants_acc_strong n)). Qed.

(** Where the terminals lie, and what extraction does to the state. *)

Lemma inside_child this i c : inside this (child this i c).
Proof. exists [], i. reflexivity. Qed.

Lemma inside_slot this i c : inside this (mkNode c (slot this i)).
Proof. exists [], i. reflexivity. Qed.

Lemma inside_trans a b c : inside a b -> inside b c -> inside a c.
Proof.
  intros [p1 [i1 H1]] [p2 [i2 H2]].
  exists (p2 ++ (i2, self b) :: p1), i1.
  rewrite H2. unfold slot at 1. rewrite H1.
  rewrite <- app_assoc. reflexivity.
Qed.

Lemma inside_not_same this t : inside this t -> same t this = false.
Proof.
  intros [pre [i H]]. unfold same, position.
  apply bool_decide_eq_false. intros E.
  apply (f_equal (@List.length nat)) in E.
  rewrite H in E. rewrite !length_map, length_app in E.
  unfold slot in E. simpl in E. lia.
Qed.

Lemma onlyCache_refl s : onlyCache s s.
Proof. repeat split. Qed.

Lemma onlyCache_trans a b c : onlyCache a b -> onlyCache b c -> onlyCache a c.
Proof. unfold onlyCache. intuition congruence. Qed.

Lemma onlyCache_remember s n : onlyCache s (remember s n).
Proof.
  unfold remember. destruct (cache s !! _); [apply onlyCache_refl|].
  repeat split.
Qed.

Lemma prepend_Ok {A} (ch : list A) r l s' :
  prepend ch r = Ok (l, s') -> exists l0, r = Ok (l0, s') /\ l = ch ++ l0.
Proof.
  destruct r as [[l0 s0]|]; simpl; intros H; [|discriminate].
  injection H as <- <-. eauto.
Qed.

Lemma forEach_terminals (this : Node) (rec : bool) (l : list BaseNode) :
  (forall e, In e l -> terminalsOk e) ->
  forall i ch s r s',
    forEach (fun a i ch => getDescendants a (slot this i) ch rec) l i ch s
      = Ok (r, s') ->
    exists r', r = ch ++ r' /\ Forall (inside this) r' /\ onlyCache s s'.
Proof.
  induction l as [|e l IH]; intros H i ch s r s' E; simpl in E.
  - injection E as <- <-. exists []. rewrite app_nil_r.
    repeat split; constructor.
  - unfold bind in E. rewrite getDescendants_acc in E.
    destruct (getDescendants e (slot this i) [] rec s) as [[l1 s1]|] eqn:E1;
      simpl in E; [|discriminate].
    destruct (H e (or_introl eq_refl) _ _ _ _ _ E1) as [Hl1 Hs1].
    destruct (IH (fun e' He' => H e' (or_intror He')) _ _ _ _ _ E)
      as [r' [-> [Hr' Hs']]].
    exists (l1 ++ r'). rewrite app_assoc. split; [reflexivity|]. split.
    + apply Forall_app. split; [|exact Hr'].
      eapply List.Forall_impl; [|exact Hl1]. simpl. intros t [->|Ht].
      * apply inside_slot.
      * eapply inside_trans; [apply inside_slot|exact Ht].
    + eapply onlyCache_trans; eassumption.
Qed.

Ltac use_terms :=
  match goal with
  | H : terminalsOk ?o /\ _ |- terminalsOk ?o => exact (proj1 H)
  | H : _ /\ terminalsOk ?o |- terminalsOk ?o => exact (proj2 H)
  | H : list_all BaseNode _ ?l, He : In ?e ?l |- terminalsOk ?e =>
      exact (proj1 (list_all_In _ _ H e He))
  end.

Lemma bind_Ok {A B} (m : M A) (k : A -> M B) s b s' :
  bind m k s = Ok (b, s') -> exists a s1, m s = Ok (a, s1) /\ k a s1 = Ok (b, s').
Proof.
  unfold bind. destruct (m s) as [[a s1]|]; [|discriminate]. eauto.
Qed.

Lemma Forall_inside_weaken (a b : Node) l :
  inside a b -> Forall (fun t => t = b \/ inside b t) l ->
  Forall (fun t => t = a \/ inside a t) l.
Proof.
  intros Hab. apply List.Forall_impl. intros t [->|Ht]; right; auto.
  eapply inside_trans; eassumption.
Qed.

Lemma getDescendants_terminals_strong (n : BaseNode) :
  terminalsOk n /\
  match n with MemberExpression o _ _ => terminalsOk o | _ => True end.
Proof.
  induction n; (split; [|try exact I; try use_terms]).
  all: try (intros up rec s l s' E; cbn in E; injection E as <- <-;
            split; [repeat constructor|apply onlyCache_refl]).
  - (* call *)
    intros up rec s l s' E. rewrite getDescendants_call in E. cbv zeta in E.
    simpl self in E.
    set (this := mkNode (CallExpression n arguments) up) in *.
    destruct (passthrough _) as [pt|].
    2:{ injection E as <- <-. split; [repeat constructor|apply onlyCache_remember]. }
    apply bind_Ok in E. destruct E as [ch1 [s1 [E1 E2]]].
    assert (H1 : Forall (inside this) ch1 /\
                 onlyCache (remember s (CallExpression n arguments)) s1).
    { destruct (obj pt).
      - destruct n; try discriminate E1.
        destruct IHn as [_ Ho]. destruct (Ho _ _ _ _ _ E1) as [Hl Hs].
        split; [|exact Hs].
        eapply List.Forall_impl; [|exact Hl]. simpl. intros t [->|Ht].
        + eapply inside_trans; [apply (inside_slot this 0)|apply inside_slot].
        + eapply inside_trans; [|exact Ht].
          eapply inside_trans; [apply (inside_slot this 0)|apply inside_slot].
      - injection E1 as <- <-. split; [constructor|apply onlyCache_refl]. }
    destruct H1 as [Hch1 Hs1].
    assert (H2 : exists r', l = ch1 ++ r' /\ Forall (inside this) r' /\ onlyCache s1 s').
    { destruct (args pt).
      - eapply forEach_terminals; [|exact E2]. intros e He. use_terms.
      - injection E2 as <- <-. exists []. rewrite app_nil_r.
        repeat split; constructor. }
    destruct H2 as [r' [-> [Hr' Hs']]]. split.
    + apply Forall_app. split; (eapply List.Forall_impl; [|eassumption]); simpl; auto.
    + eapply onlyCache_trans; [apply onlyCache_remember|].
      eapply onlyCache_trans; eassumption.
  - (* array *)
    intros up rec s l s' E. rewrite getDescendants_array in E. cbv zeta in E.
    destruct rec.
    + injection E as <- <-. split; [repeat constructor|apply onlyCache_refl].
    + eapply forEach_terminals in E; [|intros e He; use_terms].
      destruct E as [r' [-> [Hr' Hs']]]. simpl. split; [|exact Hs'].
      eapply List.Forall_impl; [|exact Hr']. simpl. auto.
  - (* binary *)
    intros up rec s l s' E. rewrite getDescendants_binary in E. cbv zeta in E.
    apply bind_Ok in E. destruct E as [ch1 [s1 [E1 E2]]].
    rewrite getDescendants_acc in E2. apply prepend_Ok in E2.
    destruct E2 as [l2 [E2 ->]].
    destruct IHn1 as [IH1 _]. destruct IHn2 as [IH2 _].
    destruct (IH1 _ _ _ _ _ E1) as [Hl1 Hs1].
    destruct (IH2 _ _ _ _ _ E2) as [Hl2 Hs2].
    split; [|eapply onlyCache_trans; eassumption].
    apply Forall_app. split;
      (eapply Forall_inside_weaken; [apply inside_slot|eassumption]).
  - (* assignment *)
    intros up rec s l s' E. rewrite getDescendants_assignment in E.
    destruct IHn1 as [IH1 _]. destruct (IH1 _ _ _ _ _ E) as [Hl1 Hs1].
    split; [|exact Hs1].
    eapply Forall_inside_weaken; [apply inside_slot|eassumption].
  - (* conditional *)
    intros up rec s l s' E. rewrite getDescendants_conditional in E. cbv zeta in E.
    apply bind_Ok in E. destruct E as [ch1 [s1 [E1 E2]]].
    rewrite getDescendants_acc in E2. apply prepend_Ok in E2.
    destruct E2 as [l2 [E2 ->]].
    destruct IHn2 as [IH2 _]. destruct IHn3 as [IH3 _].
    destruct (IH3 _ _ _ _ _ E1) as [Hl1 Hs1].
    destruct (IH2 _ _ _ _ _ E2) as [Hl2 Hs2].
    split; [|eapply onlyCache_trans; eassumption].
    apply Forall_app. split;
      (eapply Forall_inside_weaken; [apply inside_slot|eassumption]).
Qed.

Lemma getDescendants_terminals n up rec s l s' :
  getDescendants n up [] rec s = Ok (l, s') ->
  Forall (fun t => t = mkNode n up \/ inside (mkNode n up) t) l /\
  onlyCache s s'.
Proof. apply (proj1 (getDescendants_terminals_strong n)). Qed.

Lemma forEach_app {A B} (f : A -> nat -> B -> M B) (l1 l2 : list A) i acc s :
  forEach f (l1 ++ l2) i acc s
    = bind (forEach f l1 i acc)
           (fun acc => forEach f l2 (i + List.length l1) acc) s.
Proof.
  revert i acc s. induction l1 as [|a l1 IH]; intros i acc s; simpl.
  - unfold bind, ret. rewrite Nat.add_0_r. reflexivity.
  - unfold bind. destruct (f a i acc s) as [[b s1]|]; [|reflexivity].
    rewrite IH. unfold bind.
    replace (S i + List.length l1) with (i + S (List.length l1)) by lia.
    reflexivity.
Qed.

(** C1, as the code has it.  An array literal is a terminal exactly when it is
    reached with the recursion flag set, that is as an operand of a binary
    expression or as an element of another array literal; given as the
    top-level input (flag unset) it is not a terminal: each of its elements is
    recursed into, with the flag set, and every terminal returned lies
    strictly inside it; the same holds when it is reached from the top level
    through a conditional branch, which hands the flag on as it is. *)
Theorem C1_array_terminal_when_recursed
        (elements : list BaseNode) (up : Ancestors) (ch : list Node) (s : State) :
  let this := mkNode (ArrayExpression elements) up in
  getDescendants (ArrayExpression elements) up ch true s = Ok (ch ++ [this], s) /\
  getDescendants (ArrayExpression elements) up ch false s
    = forEach (fun e i ch => getDescendants e (slot this i) ch true)
              elements 0 ch s /\
  (forall l s',
      getDescendants (ArrayExpression elements) up [] false s = Ok (l, s') ->
      Forall (fun t => inside this t /\ same t this = false) l) /\
  (forall (l : BaseNode) (up' : Ancestors) (rec : bool),
      let sum := mkNode (BinaryExpression l (ArrayExpression elements)) up' in
      getDescendants (self sum) up' ch rec s
        = bind (getDescendants l (slot sum 0) ch true)
               (fun ch => ret (ch ++ [at_right sum (ArrayExpression elements)])) s) /\
  (forall (before after : list BaseNode) (up' : Ancestors),
      let outer :=
        mkNode (ArrayExpression (before ++ ArrayExpression elements :: after)) up' in
      let inner :=
        mkNode (ArrayExpression elements) (slot outer (List.length before)) in
      getDescendants (self outer) up' ch false s
        = bind (forEach (fun e i ch => getDescendants e (slot outer i) ch true)
                        before 0 ch)
               (fun ch =>
                  forEach (fun e i ch => getDescendants e (slot outer i) ch true)
                          after (S (List.length before)) (ch ++ [inner])) s) /\
  (forall (t a : BaseNode) (up' : Ancestors),
      let choice :=
        mkNode (ConditionalExpression t (ArrayExpression elements) a) up' in
      let inner := at_consequent choice (ArrayExpression elements) in
      getDescendants (self choice) up' ch false s
        = bind (getDescendants a (slot choice 2) ch false)
               (fun ch =>
                  forEach (fun e i ch => getDescendants e (slot inner i) ch true)
                          elements 0 ch) s).
Proof.
  intros this. split; [|split; [|split; [|split; [|split]]]].
  - rewrite getDescendants_array. reflexivity.
  - rewrite getDescendants_array. reflexivity.
  - intros l s' E. rewrite getDescendants_array in E. cbv zeta in E.
    eapply forEach_terminals in E.
    + destruct E as [r' [-> [Hr' _]]]. simpl.
      eapply List.Forall_impl; [|exact Hr']. simpl. intros t Ht.
      split; [exact Ht|apply inside_not_same; exact Ht].
    + intros e _. apply getDescendants_terminals_strong.
  - intros l up' rec. reflexivity.
  - intros before after up'. cbv zeta. simpl self.
    rewrite getDescendants_array. cbv zeta. rewrite forEach_app.
    unfold bind.
    destruct (forEach _ before 0 ch s) as [[c1 s1]|]; reflexivity.
  - intros t a up'. reflexivity.
Qed.

Lemma C1_array_terminal_when_recursed_witness :
  let arr := ArrayExpression [Literal (StringValue "a"); Identifier "b"] in
  let s := initialState Example.plain in
  Forall (fun t => inside (root arr) t /\ same t (root arr) = false)
         [child (root arr) 0 (Literal (StringValue "a"));
          child (root arr) 1 (Identifier "b")].
Proof.
  intros arr s.
  apply (proj1 (proj2 (proj2 (C1_array_terminal_when_recursed
                                [Literal (StringValue "a"); Identifier "b"]
                                [] [] s))) _ s).
  reflexivity.
Defined.

(** C1 as the specification words it fails.  Given as the top-level input, the
    array literal [["a"]] is not returned: the terminal is its element.
    Reached through recursion, as the right operand of ["x" + ["a"]], the
    array literal itself is the terminal and its element is not visited. *)
Lemma C1_counterexample :
  let arr := ArrayExpression [Literal (StringValue "a")] in
  let sum := BinaryExpression (Literal (StringValue "x")) arr in
  let s := initialState Example.plain in
  getDescendants arr [] [] false s
    = Ok ([child (root arr) 0 (Literal (StringValue "a"))], s) /\
  getDescendants sum [] [] false s
    = Ok ([child (root sum) 0 (Literal (StringValue "x")); child (root sum) 1 arr], s).
Proof. split; reflexivity. Qed.

(** *** Candidate resolution: the gates of [infectParentConditional] *)

Lemma parameterChain_broken (top n : Node) :
  BrokenChain top n ->
  parameterChain top (self n) (ancestors n) = Ok false.
Proof.
  induction 1 as [n p Hp Hstep|n p Hp Htop Hrest IH];
    destruct n as [c up]; destruct up as [|[i q] up']; simpl in *;
    try discriminate; injection Hp as <-.
  - rewrite Hstep. reflexivity.
  - destruct (tree.isParameter _ _); [|reflexivity]. simpl.
    rewrite Htop. exact IH.
Qed.

Section Gates.
Variable exec : RegExp -> string -> bool.
Variable context : RuleContext.

Lemma infect_empty condition n s :
  exprStack s = [] -> infectParentConditional context condition n s = Ok (tt, s).
Proof.
  intros H. unfold infectParentConditional, bind, gets. rewrite H. reflexivity.
Qed.

Lemma infect_commented condition n s :
  isCommentedSafe context n = Ok true ->
  infectParentConditional context condition n s = Ok (tt, s).
Proof.
  intros H. unfold infectParentConditional, bind, gets, lift.
  destruct (exprStack s); [reflexivity|]. rewrite H. reflexivity.
Qed.

Lemma infect_broken condition n s top b rest :
  exprStack s = mkFrame top b :: rest ->
  BrokenChain top n ->
  infectParentConditional context condition n s =
    match isCommentedSafe context n with
    | Ok _ => Ok (tt, s)
    | TypeError => TypeError
    end.
Proof.
  intros Hs Hb. unfold infectParentConditional, bind, gets, lift.
  rewrite Hs. destruct (isCommentedSafe context n) as [[|]|]; try reflexivity.
  unfold canInfectXss, bind, gets, lift. rewrite Hs. simpl.
  rewrite (parameterChain_broken _ _ Hb). reflexivity.
Qed.

(** C7.  For a suspected source leaf (a literal, an identifier or a call): if
    the sink stack is empty, or the leaf is commented safe, or some step of
    the walk from the leaf to the node of the top frame is not a
    value-carrying position, then candidate resolution has no effect: the
    state is returned as it was (no frame's flag modified, no report made),
    apart from the frame a call pushes for itself.  The only other outcome is
    the [TypeError] of a failed token lookup inside the safe-comment test. *)
Theorem C7_gates_block_resolution (n : Node) (s : State) :
  (exprStack s = [] \/
   isCommentedSafe context n = Ok true \/
   (exists top b rest,
       exprStack s = mkFrame top b :: rest /\ BrokenChain top n)) ->
  (forall condition,
      infectParentConditional context condition n s = Ok (tt, s) \/
      (infectParentConditional context condition n s = TypeError /\
       isCommentedSafe context n = TypeError)) /\
  (isIdentifier (self n) = true \/ (exists v, self n = Literal v) \/
   (exists c l, self n = CallExpression c l) ->
   enter exec context n s = untouched n s \/
   (enter exec context n s = TypeError /\
    isCommentedSafe context n = TypeError)).
Proof.
  intros H.
  assert (Hall : forall condition,
             infectParentConditional context condition n s = Ok (tt, s) \/
             (infectParentConditional context condition n s = TypeError /\
              isCommentedSafe context n = TypeError)).
  { intros condition. destruct H as [H|[H|[top [b [rest [Hs Hb]]]]]].
    - left. apply infect_empty; exact H.
    - left. apply infect_commented; exact H.
    - rewrite (infect_broken condition n s top b rest Hs Hb).
      destruct (isCommentedSafe context n); [left|right; split]; reflexivity. }
  split; [exact Hall|].
  intros Hk. unfold enter, untouched.
  destruct n as [c up]; simpl in *.
  destruct c; try (destruct Hk as [Hk|[[v Hk]|[c' [l' Hk]]]]; discriminate).
  - unfold onIdentifier. apply Hall.
  - unfold onLiteral. apply Hall.
  - unfold onCallExpression, bind.
    match goal with
    | |- context [infectParentConditional context ?c ?n s] =>
        destruct (Hall c) as [E|[E E']]; rewrite E
    end.
    + left. reflexivity.
    + right. split; [reflexivity|exact E'].
Qed.

(** *** Candidate resolution: passthrough frames *)

Lemma AllTransparent_onlyCache n stack s s' :
  AllTransparent n stack s s' -> onlyCache s s'.
Proof.
  induction 1.
  - apply onlyCache_refl.
  - eapply onlyCache_trans; [apply onlyCache_remember|eassumption].
Qed.

Lemma Rules_get_call (n : Node) c l s :
  self n = CallExpression c l ->
  Rules.get n s = Ok (resolve s (self n), remember s (self n)).
Proof.
  intros H. unfold Rules.get. rewrite H. unfold Rules.getFunctionRules.
  rewrite H. apply getWithCache_eq.
Qed.

Lemma candidateLoop_transparent n stack s s' :
  AllTransparent n stack s s' ->
  forall ptr, candidateLoop n stack ptr s = Ok (None, s').
Proof.
  induction 1 as [s|f below s s' c l pt Hc Hpt Ht Hrest IH]; intros ptr.
  - reflexivity.
  - simpl. rewrite Hc. unfold bind.
    rewrite (Rules_get_call _ c l s Hc). rewrite Hpt.
    unfold transparentFor, leafIsCallee in Ht.
    destruct (obj pt && args pt) eqn:Efull; [apply IH|].
    simpl in Ht.
    destruct (getPathFromParent n "CallExpression") as [path|];
      [|discriminate].
    unfold lift. destruct (isCalleeOf path) as [[|]|]; try discriminate;
      simpl; rewrite Ht; simpl; try apply IH.
Qed.

(** C10, as the code has it.  If every frame on the sink stack, scanned from
    the top down, is a call whose policy is a full passthrough, or a partial
    passthrough that passes through the side the leaf has in its closest
    enclosing call (the code finds that side once, from the path to the
    nearest call, and uses it for every frame), the candidate search returns
    null; a leaf that passed all the gates then marks no frame and makes no
    report: only the rule cache may have grown. *)
Theorem C10_all_passthrough_drops_source (n : Node) (s s' : State) :
  AllTransparent n (exprStack s) s s' ->
  getXssCandidateParent n s = Ok (None, s') /\
  exprStack s' = exprStack s /\ reports s' = reports s /\
  (forall (condition : Node -> M bool) (s0 : State),
      exprStack s0 <> [] ->
      isCommentedSafe context n = Ok false ->
      canInfectXss n s0 = Ok (true, s0) ->
      condition n s0 = Ok (true, s) ->
      infectParentConditional context condition n s0 = Ok (tt, s')).
Proof.
  intros H.
  assert (Hc : getXssCandidateParent n s = Ok (None, s')).
  { unfold getXssCandidateParent, bind, gets.
    apply candidateLoop_transparent. exact H. }
  destruct (AllTransparent_onlyCache _ _ _ _ H) as [Hst [_ Hrep]].
  repeat split; try assumption.
  intros condition s0 Hne Hsafe Hcan Hcond.
  unfold infectParentConditional, bind, gets, lift.
  destruct (exprStack s0); [contradiction|].
  rewrite Hsafe, Hcan. simpl. rewrite Hcond. rewrite Hc. reflexivity.
Qed.
End Gates.

(** [x = html(text)], on entering the callee [html] with the frames of the
    call and of the assignment on the stack. *)
Lemma C7_gates_block_resolution_witness :
  let asg := root (AssignmentExpression
                     (Identifier "x")
                     (CallExpression (Identifier "html") [Identifier "text"])) in
  let call := at_right asg (CallExpression (Identifier "html") [Identifier "text"]) in
  let callee := at_callee call (Identifier "html") in
  let s := mkState [mkFrame call false; mkFrame asg false]
                   (functionRules Example.plain) ∅ [] in
  enter Example.literalExec Example.plain callee s = untouched callee s \/
  (enter Example.literalExec Example.plain callee s = TypeError /\
   isCommentedSafe Example.plain callee = TypeError).
Proof.
  intros asg call callee s.
  apply (C7_gates_block_resolution Example.literalExec Example.plain callee s).
  - right. right. exists call, false, [mkFrame asg false]. split.
    + reflexivity.
    + apply broken_here with (p := call); reflexivity.
  - left. reflexivity.
Defined.

(** [wrap(x.join("<b>"))] as a statement, where [wrap] passes its arguments
    through and [.join] passes everything through, on entering the literal
    with the frames of the two calls on the stack. *)
Lemma C10_all_passthrough_drops_source_witness :
  let joins := mkPolicy (Some (mkPassthrough true true)) false false None in
  let wraps := mkPolicy (Some (mkPassthrough false true)) false false None in
  let ctx := Example.withFunctions (<[".join" := joins]> (<["wrap" := wraps]> ∅)) in
  let inner := CallExpression
                 (MemberExpression (Identifier "x") (Identifier "join") false)
                 [Literal (StringValue "<b>")] in
  let outer := root (CallExpression (Identifier "wrap") [inner]) in
  let innerNode := child outer 1 inner in
  let leaf := child innerNode 1 (Literal (StringValue "<b>")) in
  let s := mkState [mkFrame innerNode false; mkFrame outer false]
                   (functionRules ctx) ∅ [] in
  infectParentConditional ctx (containsHtml ctx) leaf s
    = Ok (tt, remember (remember s inner) (self outer)).
Proof.
  intros joins wraps ctx inner outer innerNode leaf s.
  refine (proj2 (proj2 (proj2
            (C10_all_passthrough_drops_source ctx leaf s
               (remember (remember s inner) (self outer)) _))) _ s _ _ _ _).
  - eapply transparent_cons; [reflexivity|reflexivity|reflexivity|].
    eapply transparent_cons; [reflexivity|reflexivity|reflexivity|].
    apply transparent_nil.
  - discriminate.
  - reflexivity.
  - reflexivity.
  - reflexivity.
Defined.

(** C10 as the specification words it fails: in [x.join("<b>").toString()]
    the literal passes every gate and both frames are transparent where the
    literal sits (it is an argument of [.join], a full passthrough, and lies
    in the object of [.toString], an object passthrough), yet the search
    returns the frame of [.toString]: the literal is an argument of its
    closest call, and that side is what the loop tests on every frame.  The
    frame is marked and the run reports it. *)
Lemma C10_counterexample :
  let inner := CallExpression
                 (MemberExpression (Identifier "x") (Identifier "join") false)
                 [Literal (StringValue "<b>")] in
  let method := MemberExpression inner (Identifier "toString") false in
  let outer := CallExpression method [] in
  let program := Other Program [Other ExpressionStatement [outer]] in
  let outerNode :=
    child (child (root program) 0 (Other ExpressionStatement [outer])) 0 outer in
  let innerNode := at_object (at_callee outerNode method) inner in
  let leaf := child innerNode 1 (Literal (StringValue "<b>")) in
  let s := mkState [mkFrame innerNode false; mkFrame outerNode false]
                   (functionRules Example.plain) ∅ [] in
  let s' := remember (remember s inner) outer in
  TransparentInPlace leaf (exprStack s) s s' /\
  isCommentedSafe Example.plain leaf = Ok false /\
  canInfectXss leaf s = Ok (true, s) /\
  containsHtml Example.plain leaf s = Ok (true, s) /\
  getXssCandidateParent leaf s = Ok (Some 1, s') /\
  infectParentConditional Example.plain (containsHtml Example.plain) leaf s
    = Ok (tt, set_exprStack [mkFrame innerNode false; mkFrame outerNode true] s') /\
  Example.summary (lint Example.literalExec Example.plain program)
    = Some [([0; 0; 0], "HTML passed in to function '{{ identifier }}'",
             "x.join(...).toString")].
Proof.
  intros inner method outer program outerNode innerNode leaf s s'.
  split.
  { eapply in_place_cons; [reflexivity|reflexivity|reflexivity|].
    eapply in_place_cons; [reflexivity|reflexivity|reflexivity|].
    apply in_place_nil. }
  repeat split.
Qed.

(** *** Policy lookup ([Rules.prototype._getWithCache]) *)

(** The lookup of a dotted name: the cache under the full name first; on a
    miss the candidates [a.b.c], [.b.c], [.c] in this order, the first
    configured entry (or the empty policy) being stored under the full name;
    and, on a miss, a node without any candidate name receives the empty
    policy. *)
Lemma lookup_dotted (a b c : string) (s : State) (n : BaseNode) :
  (n = dotted a b c \/ exists l, n = CallExpression (dotted a b c) l) ->
  let full := a +:+ "." +:+ b +:+ "." +:+ c in
  let candidates := [full; "." +:+ b +:+ "." +:+ c; "." +:+ c] in
  tree.getFullItemName n = full /\
  tree.getRuleNames n = candidates /\
  Rules._getWithCache n s =
    match cache s !! full with
    | Some r => Ok (r, s)
    | None =>
        let r := match rules s !! full with
                 | Some r => r
                 | None =>
                     match rules s !! ("." +:+ b +:+ "." +:+ c) with
                     | Some r => r
                     | None =>
                         match rules s !! ("." +:+ c) with
                         | Some r => r
                         | None => emptyPolicy
                         end
                     end
                 end in
        Ok (r, set_cache (<[full := r]> (cache s)) s)
    end.
Proof.
  intros Hn full candidates.
  assert (Hfull : tree.getFullItemName n = full).
  { destruct Hn as [->|[l ->]]; reflexivity. }
  assert (Hnames : tree.getRuleNames n = candidates).
  { destruct Hn as [->|[l ->]]; reflexivity. }
  split; [exact Hfull|]. split; [exact Hnames|].
  rewrite getWithCache_eq. unfold remember, resolve.
  rewrite Hfull, Hnames.
  destruct (cache s !! full); [reflexivity|].
  unfold candidates. simpl.
  destruct (rules s !! full); [reflexivity|].
  destruct (rules s !! ("." +:+ b +:+ "." +:+ c)); [reflexivity|].
  destruct (rules s !! ("." +:+ c)); reflexivity.
Qed.

Lemma lookup_unresolvable (s : State) (n : BaseNode) :
  tree.getRuleNames n = [] ->
  cache s !! tree.getFullItemName n = None ->
  Rules._getWithCache n s =
    Ok (emptyPolicy,
        set_cache (<[tree.getFullItemName n := emptyPolicy]> (cache s)) s).
Proof.
  intros Hnames Hmiss. rewrite getWithCache_eq.
  unfold remember, resolve. rewrite Hmiss, Hnames. reflexivity.
Qed.

(** C6, where the code departs from it.  A node without any candidate rule
    name receives the empty policy from a fresh cache, but the policy of
    another node once that node has been looked up under the same full name.
    - With the function rule [compile: { htmlOutput: true }], the curried
      call [compile(src)(data)] has the candidate [compile] and the full name
      [""]; the immediately invoked function of
      [var htmlB = (function () {...})()] has no candidate and the same full
      name.  Alone, the second declarator is reported; after
      [var htmlA = compile(src)(data)] it is not.
    - With the function rule [b: { htmlInput: true }], the call
      [this[b]("<i>")] has no candidate and the full name [b]: alone it is
      reported, after [b("x")] it is not; and a lookup of [b] after it finds
      the empty policy. *)
Theorem C6_unresolvable_node_receives_cached_policy :
  let statement e := Other ExpressionStatement [e] in
  let declare x e := Other VariableDeclaration [VariableDeclarator (Identifier x) (Some e)] in
  (* the curried call and the immediately invoked function *)
  let compiles := mkPolicy None false true None in
  let ctx := Example.withFunctions (<["compile" := compiles]> ∅) in
  let curried := CallExpression (CallExpression (Identifier "compile") [Identifier "src"])
                                [Identifier "data"] in
  let invoked := CallExpression (FunctionExpression None [] (Other BlockStatement []))
                                [] in
  (* the computed member over [this] *)
  let accepts := mkPolicy None true false None in
  let ctx' := Example.withFunctions (<["b" := accepts]> ∅) in
  let named := CallExpression (Identifier "b") [Literal (StringValue "x")] in
  let unresolvable :=
    CallExpression (MemberExpression ThisExpression (Identifier "b") true)
                   [Literal (StringValue "<i>")] in
  (tree.getRuleNames invoked = [] /\
   Rules._getWithCache invoked (initialState ctx)
     = Ok (emptyPolicy, set_cache (<["" := emptyPolicy]> ∅) (initialState ctx)) /\
   Rules._getWithCache curried (initialState ctx)
     = Ok (compiles, set_cache (<["" := compiles]> ∅) (initialState ctx)) /\
   Rules._getWithCache invoked (set_cache (<["" := compiles]> ∅) (initialState ctx))
     = Ok (compiles, set_cache (<["" := compiles]> ∅) (initialState ctx)) /\
   Example.summary
     (lint Example.literalExec ctx (Other Program [declare "htmlB" invoked]))
     = Some [([0; 1; 0; 0],
              "Unencoded return value from function '{{ identifier }}' used in HTML context",
              "function () {...}")] /\
   Example.summary
     (lint Example.literalExec ctx
           (Other Program [declare "htmlA" curried; declare "htmlB" invoked]))
     = Some []) /\
  (tree.getRuleNames unresolvable = [] /\
   Rules._getWithCache unresolvable (initialState ctx')
     = Ok (emptyPolicy, set_cache (<["b" := emptyPolicy]> ∅) (initialState ctx')) /\
   Rules._getWithCache unresolvable (set_cache (<["b" := accepts]> ∅) (initialState ctx'))
     = Ok (accepts, set_cache (<["b" := accepts]> ∅) (initialState ctx')) /\
   Rules._getWithCache named (set_cache (<["b" := emptyPolicy]> ∅) (initialState ctx'))
     = Ok (emptyPolicy, set_cache (<["b" := emptyPolicy]> ∅) (initialState ctx')) /\
   Example.summary
     (lint Example.literalExec ctx' (Other Program [statement unresolvable]))
     = Some [([0; 0; 0], "HTML passed in to function '{{ identifier }}'",
              "this[b]")] /\
   Example.summary
     (lint Example.literalExec ctx'
           (Other Program [statement named; statement unresolvable]))
     = Some []).
Proof. repeat split; vm_compute; reflexivity. Qed.

(** *** What a computation may do to the state *)

Section Respects.

Variable R : State -> State -> Prop.
Hypothesis R_refl : forall s, R s s.
Hypothesis R_trans : forall a b c, R a b -> R b c -> R a c.

Lemma respects_ret {A} (a : A) : respects R (ret a).
Proof. intros s a' s' H. injection H as _ <-. apply R_refl. Qed.

Lemma respects_throw {A} : respects R (@throw A).
Proof. intros s a s' H. discriminate H. Qed.

Lemma respects_lift {A} (r : Result A) : respects R (lift r).
Proof.
  intros s a s' H. unfold lift in H. destruct r; [|discriminate].
  injection H as _ <-. apply R_refl.
Qed.

Lemma respects_gets {A} (f : State -> A) : respects R (gets f).
Proof. intros s a s' H. injection H as _ <-. apply R_refl. Qed.

Lemma respects_modify (f : State -> State) :
  (forall s, R s (f s)) -> respects R (modify f).
Proof. intros Hf s a s' H. injection H as _ <-. apply Hf. Qed.

Lemma respects_bind {A B} (m : M A) (k : A -> M B) :
  respects R m -> (forall a, respects R (k a)) -> respects R (bind m k).
Proof.
  intros Hm Hk s b s' H. unfold bind in H.
  destruct (m s) as [[a s1]|] eqn:E; [|discriminate].
  eapply R_trans; [eapply Hm; exact E|eapply Hk; exact H].
Qed.

Lemma respects_forEach {A B} (f : A -> nat -> B -> M B) (l : list A) :
  (forall x, In x l -> forall i acc, respects R (f x i acc)) ->
  forall i acc, respects R (forEach f l i acc).
Proof.
  induction l as [|x l IH]; intros H i acc; simpl.
  - apply respects_ret.
  - apply respects_bind.
    + apply H. left. reflexivity.
    + intros acc'. apply IH. intros y Hy. apply H. right. exact Hy.
Qed.

Lemma respects_forEach_ {A} (f : A -> M unit) (l : list A) :
  (forall x, In x l -> respects R (f x)) -> respects R (forEach_ f l).
Proof.
  induction l as [|x l IH]; intros H; simpl.
  - apply respects_ret.
  - apply respects_bind.
    + apply H. left. reflexivity.
    + intros _. apply IH. intros y Hy. apply H. right. exact Hy.
Qed.

End Respects.

Lemma respects_weaken (R1 R2 : State -> State -> Prop) {A} (m : M A) :
  (forall s s', R1 s s' -> R2 s s') -> respects R1 m -> respects R2 m.
Proof. intros H Hm s a s' E. apply H. eapply Hm. exact E. Qed.

Lemma reportsAt_refl P s : reportsAt P s s.
Proof.
  repeat split. exists []. rewrite app_nil_r. split; constructor.
Qed.

Lemma reportsAt_trans P a b c :
  reportsAt P a b -> reportsAt P b c -> reportsAt P a c.
Proof.
  intros [H1 [H2 [n1 [H3 H4]]]] [H5 [H6 [n2 [H7 H8]]]].
  split; [congruence|]. split; [congruence|].
  exists (n1 ++ n2). split.
  - rewrite H7, H3, app_assoc. reflexivity.
  - apply Forall_app. split; assumption.
Qed.

Lemma onlyCache_reportsAt P s s' : onlyCache s s' -> reportsAt P s s'.
Proof.
  intros [H1 [H2 H3]]. repeat split; try assumption.
  exists []. rewrite app_nil_r. split; [assumption|constructor].
Qed.

Lemma reportsAt_impl (P Q : Node -> Prop) s s' :
  (forall x, P x -> Q x) -> reportsAt P s s' -> reportsAt Q s s'.
Proof.
  intros H [H1 [H2 [new [H3 H4]]]]. repeat split; try assumption.
  exists new. split; [assumption|].
  eapply List.Forall_impl; [|exact H4]. simpl. auto.
Qed.

Lemma sameRules_refl s : sameRules s s.
Proof. reflexivity. Qed.

Lemma sameRules_trans a b c : sameRules a b -> sameRules b c -> sameRules a c.
Proof. unfold sameRules. congruence. Qed.

Lemma reportsAt_sameRules P s s' : reportsAt P s s' -> sameRules s s'.
Proof. intros [_ [H _]]. exact H. Qed.

(** Level one: lookups change the cache only. *)

Lemma respects_getWithCache n : respects onlyCache (Rules._getWithCache n).
Proof.
  intros s a s' H. rewrite getWithCache_eq in H. injection H as _ <-.
  apply onlyCache_remember.
Qed.

Lemma respects_getFunctionRules n : respects onlyCache (Rules.getFunctionRules n).
Proof. apply respects_getWithCache. Qed.

Lemma respects_Rules_get n : respects onlyCache (Rules.get n).
Proof.
  unfold Rules.get. destruct (self n);
    try apply (respects_ret _ onlyCache_refl).
  apply respects_getFunctionRules.
Qed.

Lemma respects_getDescendants n up ch rec :
  respects onlyCache (getDescendants n up ch rec).
Proof.
  intros s l s' H. rewrite getDescendants_acc in H.
  apply prepend_Ok in H. destruct H as [l0 [H _]].
  apply getDescendants_terminals in H. apply H.
Qed.

Ltac respects_step R Rrefl Rtrans :=
  first
    [ apply (respects_ret R Rrefl)
    | apply (respects_throw R)
    | apply (respects_lift R Rrefl)
    | apply (respects_gets R Rrefl)
    | apply (respects_bind R Rtrans); [|intro]
    | match goal with
      | |- respects _ (if ?b then _ else _) => destruct b
      | |- respects _ (match ?x with _ => _ end) => destruct x
      end ].

Ltac respects_cache :=
  repeat first
    [ apply respects_getFunctionRules
    | apply respects_Rules_get
    | apply respects_getDescendants
    | respects_step onlyCache onlyCache_refl onlyCache_trans ].

Section Levels.
Variable exec : RegExp -> string -> bool.
Variable context : RuleContext.

Lemma respects_isHtmlOutputFunction func :
  respects onlyCache (isHtmlOutputFunction exec context func).
Proof. unfold isHtmlOutputFunction. respects_cache. Qed.

Lemma respects_functionAcceptsHtml func :
  respects onlyCache (functionAcceptsHtml func).
Proof. unfold functionAcceptsHtml. respects_cache. Qed.

Lemma respects_isXssSafe n : respects onlyCache (isXssSafe exec context n).
Proof.
  unfold isXssSafe. respects_cache; apply respects_isHtmlOutputFunction.
Qed.

Lemma respects_usesHtml n up : respects onlyCache (usesHtml exec context n up).
Proof.
  revert n. induction up as [|[i p] up IH]; intros n; destruct n; simpl;
    respects_cache; try apply respects_functionAcceptsHtml; apply IH.
Qed.

Lemma respects_candidateLoop n stack ptr :
  respects onlyCache (candidateLoop n stack ptr).
Proof.
  revert ptr. induction stack as [|f below IH]; intros ptr; simpl.
  - respects_cache.
  - respects_cache; apply IH.
Qed.

Lemma respects_getXssCandidateParent n :
  respects onlyCache (getXssCandidateParent n).
Proof.
  unfold getXssCandidateParent. respects_cache. apply respects_candidateLoop.
Qed.

Lemma respects_canInfectXss n : respects onlyCache (canInfectXss n).
Proof. unfold canInfectXss. respects_cache. Qed.

(** Level two: validation appends reports. *)

Lemma respects_report P r :
  P (report_node r) -> respects (reportsAt P) (report r).
Proof.
  intros H. apply respects_modify. intros s. repeat split.
  exists [r]. split; [reflexivity|]. repeat constructor. exact H.
Qed.

Lemma respects_cache_reports P {A} (m : M A) :
  respects onlyCache m -> respects (reportsAt P) m.
Proof. apply respects_weaken. apply onlyCache_reportsAt. Qed.

Lemma respects_checkDescendant t :
  respects (reportsAt (fun x => x = t \/ inside t x))
           (checkDescendant exec context t).
Proof.
  unfold checkDescendant.
  apply (respects_bind _ (reportsAt_trans _)).
  - apply respects_cache_reports. apply respects_isXssSafe.
  - intros ok. destruct ok; [apply (respects_ret _ (reportsAt_refl _))|].
    destruct t as [c up]. destruct c; simpl;
      apply respects_report; simpl; auto.
    right. apply inside_child.
Qed.

Lemma respects_checkEach (P : Node -> Prop) (targetRules : FunctionPolicy)
      (nodes : list Node) :
  Forall P nodes ->
  (forall t x, P t -> inside t x -> P x) ->
  respects (reportsAt P)
    (forEach_
       (fun childNode =>
          match safe targetRules with
          | Some SafeAll => ret tt
          | Some (SafeNames l) =>
              if includes l (tree.getNodeName childNode) then ret tt
              else checkDescendant exec context childNode
          | None => checkDescendant exec context childNode
          end) nodes).
Proof.
  intros Hnodes Hin. apply (respects_forEach_ _ (reportsAt_refl _) (reportsAt_trans _)).
  intros t Ht.
  assert (HP : P t).
  { rewrite Forall_forall in Hnodes. apply Hnodes. apply list_elem_of_In. exact Ht. }
  assert (Hc : respects (reportsAt P) (checkDescendant exec context t)).
  { eapply respects_weaken; [|apply respects_checkDescendant].
    intros s s'. apply reportsAt_impl. intros x [->|Hx]; eauto. }
  destruct (safe targetRules) as [[|l]|];
    [apply (respects_ret _ (reportsAt_refl _))| |exact Hc].
  destruct (includes l _); [apply (respects_ret _ (reportsAt_refl _))|exact Hc].
Qed.

Lemma Rules_get_eq target s :
  exists r, Rules.get target s = Ok (r, lookedUp target s).
Proof.
  unfold Rules.get, lookedUp, Rules.getFunctionRules.
  destruct (self target) eqn:E; try (eexists; reflexivity).
  rewrite getWithCache_eq. eexists; reflexivity.
Qed.

Lemma checkForXss_reports_at (P : Node -> Prop) (n target : Node) (s s' : State) :
  (forall t x, P t -> inside t x -> P x) ->
  (forall l s1,
      getDescendants (self n) (ancestors n) [] false (lookedUp target s)
        = Ok (l, s1) -> Forall P l) ->
  checkForXss exec context n target s = Ok (tt, s') ->
  reportsAt P s s'.
Proof.
  intros Hin Hterm.
  assert (Hgo : forall a,
             (targetRules <- Rules.get target ;;
              nodes <- getDescendants (self n) (ancestors n) [] false ;;
              forEach_
                (fun childNode =>
                   match safe targetRules with
                   | Some SafeAll => ret tt
                   | Some (SafeNames l) =>
                       if includes l (tree.getNodeName childNode) then ret tt
                       else checkDescendant exec context childNode
                   | None => checkDescendant exec context childNode
                   end) nodes) s = Ok (a, s') ->
             reportsAt P s s').
  { intros a H. apply bind_Ok in H. destruct H as [r [s1 [Hr H]]].
    destruct (Rules_get_eq target s) as [r' Hr'].
    pose proof (respects_Rules_get target _ _ _ Hr') as Hc1.
    rewrite Hr' in Hr. injection Hr as <- <-.
    apply bind_Ok in H. destruct H as [nodes [s2 [Hn H]]].
    pose proof (Hterm _ _ Hn) as HP.
    pose proof (respects_getDescendants _ _ _ _ _ _ _ Hn) as Hc2.
    pose proof (respects_checkEach P r' nodes HP Hin _ _ _ H) as Hc3.
    eapply reportsAt_trans; [|exact Hc3].
    apply onlyCache_reportsAt. eapply onlyCache_trans; eassumption. }
  unfold checkForXss. destruct (self n); try apply Hgo;
    intros H; injection H as <-; apply reportsAt_refl.
Qed.

Lemma respects_checkForXss (n target : Node) :
  respects (reportsAt (fun x => x = n \/ inside n x))
           (checkForXss exec context n target).
Proof.
  intros s [] s' H. eapply checkForXss_reports_at; [| |exact H].
  - intros t x [->|Ht] Hx; right; [exact Hx|].
    eapply inside_trans; eassumption.
  - intros l s1 E. destruct n as [c up]. simpl in E.
    apply getDescendants_terminals in E. apply E.
Qed.

(** *** Passthrough calls *)

Lemma getDescendants_passthrough_inside c l up pt rec s terminals s' :
  let call := mkNode (CallExpression c l) up in
  passthrough (resolve s (self call)) = Some pt ->
  getDescendants (self call) up [] rec s = Ok (terminals, s') ->
  Forall (inside call) terminals.
Proof.
  intros call Hpt E. simpl self in *. rewrite getDescendants_call in E.
  cbv zeta in E. simpl self in E. rewrite Hpt in E.
  apply bind_Ok in E. destruct E as [ch1 [s1 [E1 E2]]].
  assert (H1 : Forall (inside call) ch1).
  { destruct (obj pt).
    - destruct c; try discriminate E1.
      apply getDescendants_terminals in E1. destruct E1 as [Hl _].
      eapply List.Forall_impl; [|exact Hl]. simpl. intros t [->|Ht].
      + eapply inside_trans; [apply (inside_slot call 0)|apply inside_slot].
      + eapply inside_trans; [|exact Ht].
        eapply inside_trans; [apply (inside_slot call 0)|apply inside_slot].
    - injection E1 as <- _. constructor. }
  destruct (args pt).
  - eapply forEach_terminals in E2.
    + destruct E2 as [r' [-> [Hr' _]]]. apply Forall_app. split; assumption.
    + intros e _. apply getDescendants_terminals_strong.
  - injection E2 as <- _. exact H1.
Qed.

(** C5.  For a call whose resolved policy is a passthrough, terminal
    extraction recurses into the receiver of the callee (when the policy is
    object-transparent) and into each argument (when it is
    argument-transparent); the call itself is never among the terminals,
    which all lie strictly inside it, and so does every report that
    validating the call as a sink input can make: a finding for
    [htmlMsg = unsafeValue.join("")] is located at a contributor inside the
    call, never at the [.join] call expression. *)
Theorem C5_passthrough_call_is_not_a_terminal
        (c : BaseNode) (l : list BaseNode) (up : Ancestors) (pt : Passthrough) :
  let call := mkNode (CallExpression c l) up in
  (forall ch rec s,
      passthrough (resolve s (self call)) = Some pt ->
      getDescendants (self call) up ch rec s
        = bind (if obj pt then
                  match c with
                  | MemberExpression o _ _ =>
                      getDescendants o (ancestors (at_object (at_callee call c) o))
                                     ch rec
                  | _ => throw
                  end
                else ret ch)
               (fun ch => if args pt then
                            forEach (fun a i ch => getDescendants a (slot call i) ch rec)
                                    l 1 ch
                          else ret ch)
               (remember s (self call))) /\
  (forall rec s terminals s',
      passthrough (resolve s (self call)) = Some pt ->
      getDescendants (self call) up [] rec s = Ok (terminals, s') ->
      Forall (fun t => inside call t /\ same t call = false) terminals) /\
  (forall target s s',
      passthrough (resolve (lookedUp target s) (self call)) = Some pt ->
      checkForXss exec context call target s = Ok (tt, s') ->
      reportsAt (fun x => inside call x /\ same x call = false) s s').
Proof.
  intros call. split; [|split].
  - intros ch rec s Hpt. simpl self in *. rewrite getDescendants_call.
    cbv zeta. simpl self. rewrite Hpt. reflexivity.
  - intros rec s terminals s' Hpt E.
    pose proof (getDescendants_passthrough_inside c l up pt rec s _ _ Hpt E) as H.
    eapply List.Forall_impl; [|exact H]. simpl. intros t Ht.
    split; [exact Ht|apply inside_not_same; exact Ht].
  - intros target s s' Hpt E.
    eapply reportsAt_impl;
      [|eapply (checkForXss_reports_at (inside call)); [| |exact E]].
    + intros x Hx. split; [exact Hx|apply inside_not_same; exact Hx].
    + intros t x Ht Hx. eapply inside_trans; eassumption.
    + intros l0 s1 E1.
      eapply (getDescendants_passthrough_inside c l up pt); eassumption.
Qed.
End Levels.

(** *** The budget of the safe-comment walk is never exhausted *)

Section CommentWalk.
Variable context : RuleContext.

Lemma closestParenthesized_depth (p : BaseNode) (up : Ancestors) (q : Node) :
  closestParenthesized context p up = Ok (Some q) ->
  List.length (ancestors q) <= List.length up.
Proof.
  revert p. induction up as [|[i r] up IH]; intros p H; simpl in H.
  - destruct p; try discriminate.
    destruct (hasParentheses context _) as [[|]|]; try discriminate.
    injection H as <-. simpl. lia.
  - destruct p; try discriminate.
    destruct (hasParentheses context _) as [[|]|]; try discriminate.
    + injection H as <-. simpl. lia.
    + apply IH in H. simpl. lia.
Qed.

Lemma getCommentParent_depth (n q : Node) :
  getCommentParent context n = Ok (Some q) ->
  List.length (ancestors q) < List.length (ancestors n).
Proof.
  unfold getCommentParent, parent. destruct n as [c up].
  destruct up as [|[i p] up']; simpl; [discriminate|].
  destruct p; intros H;
    try (injection H as <-; simpl; lia); try discriminate.
  destruct (same _ _).
  - injection H as <-. simpl. lia.
  - apply closestParenthesized_depth in H. lia.
Qed.

(** Any budget above the depth of the node gives the same answer as the one
    [isCommentedSafe] starts from: the loop ends before the budget does. *)
Lemma isCommentedSafeLoop_enough (rounds : nat) (n : Node) :
  List.length (ancestors n) < rounds ->
  isCommentedSafeLoop context rounds (Some n) = isCommentedSafe context n.
Proof.
  unfold isCommentedSafe.
  remember (List.length (ancestors n)) as depth eqn:Hd.
  revert n Hd rounds.
  induction depth as [depth IH] using lt_wf_ind. intros n Hd rounds Hr.
  destruct rounds as [|rounds]; [lia|]. simpl.
  destruct (commentable (self n)); [|reflexivity].
  destruct (nodeHasSafeComment context n); [reflexivity|].
  destruct (getCommentParent context n) as [[q|]|] eqn:E; try reflexivity.
  - pose proof (getCommentParent_depth n q E) as Hq.
    destruct rounds as [|rounds]; [lia|].
    destruct depth as [|depth]; [lia|].
    rewrite (IH (List.length (ancestors q)) ltac:(lia) q eq_refl (S rounds) ltac:(lia)).
    rewrite (IH (List.length (ancestors q)) ltac:(lia) q eq_refl (S depth) ltac:(lia)).
    reflexivity.
  - destruct rounds, depth; reflexivity.
Qed.
End CommentWalk.

(** *** The stack discipline *)

Lemma sameShape_refl s : sameShape s s.
Proof. reflexivity. Qed.

Lemma sameShape_trans a b c : sameShape a b -> sameShape b c -> sameShape a c.
Proof. unfold sameShape. congruence. Qed.

Lemma onlyCache_sameShape s s' : onlyCache s s' -> sameShape s s'.
Proof. intros [H _]. unfold sameShape, shape. rewrite H. reflexivity. Qed.

Lemma reportsAt_sameShape P s s' : reportsAt P s s' -> sameShape s s'.
Proof. intros [H _]. unfold sameShape, shape. rewrite H. reflexivity. Qed.

Lemma taint_shape ptr stack : map node (taint ptr stack) = map node stack.
Proof.
  revert ptr. induction stack as [|f below IH]; intros ptr;
    destruct ptr; simpl; try reflexivity.
  rewrite IH. reflexivity.
Qed.

Lemma respects_cache_shape {A} (m : M A) :
  respects onlyCache m -> respects sameShape m.
Proof. apply respects_weaken. apply onlyCache_sameShape. Qed.

Lemma respects_reports_shape P {A} (m : M A) :
  respects (reportsAt P) m -> respects sameShape m.
Proof. apply respects_weaken. apply reportsAt_sameShape. Qed.

Ltac shape_known :=
  first
    [ apply respects_cache_shape;
      first [ apply respects_isXssSafe | apply respects_usesHtml
            | apply respects_functionAcceptsHtml
            | apply respects_isHtmlOutputFunction
            | apply respects_getXssCandidateParent
            | apply respects_canInfectXss ]
    | eapply respects_reports_shape; apply respects_checkForXss
    | apply (respects_forEach_ _ sameShape_refl sameShape_trans); intros ].

Ltac shape_all :=
  repeat first
    [ shape_known
    | respects_step sameShape sameShape_refl sameShape_trans
    | apply respects_modify; intro; unfold sameShape, shape; simpl;
      first [ reflexivity | apply taint_shape ] ].

Section Discipline.
Variable exec : RegExp -> string -> bool.
Variable context : RuleContext.

Lemma shape_infect c : respects sameShape (infect c).
Proof. unfold infect. shape_all. Qed.

Lemma shape_infectParentConditional condition n :
  (forall x, respects sameShape (condition x)) ->
  respects sameShape (infectParentConditional context condition n).
Proof.
  intros Hc. unfold infectParentConditional, infect.
  repeat first [ apply Hc | shape_known
               | respects_step sameShape sameShape_refl sameShape_trans
               | apply respects_modify; intro; unfold sameShape, shape; simpl;
                 apply taint_shape ].
Qed.

Lemma shape_condition n :
  respects sameShape (returnsHtml exec context n) /\
  respects sameShape (containsHtml context n) /\
  respects sameShape (namesHtml exec context n).
Proof.
  unfold returnsHtml, containsHtml, namesHtml. repeat split; shape_all.
Qed.

(** Entering a sink pushes its frame on a stack of the same shape. *)
Lemma enter_sink (n : Node) s s' :
  isSink (self n) = true ->
  enter exec context n s = Ok (tt, s') ->
  shape s' = n :: shape s.
Proof.
  intros Hk H. unfold enter in H.
  destruct (self n) eqn:E; try discriminate Hk;
    try (injection H as <-; reflexivity).
  unfold onCallExpression in H. apply bind_Ok in H.
  destruct H as [[] [s1 [H1 H2]]]. injection H2 as <-.
  apply shape_infectParentConditional in H1;
    [|intros x; apply shape_condition].
  unfold sameShape in H1. unfold shape in *. simpl. rewrite H1. reflexivity.
Qed.

Lemma pop_then (k : Frame -> M unit) s s' :
  (forall f, respects sameShape (k f)) ->
  bind pop k s = Ok (tt, s') -> shape s' = List.tl (shape s).
Proof.
  intros Hrest Hb. unfold bind, pop, gets in Hb. unfold bind in Hb.
  unfold shape at 2. destruct (exprStack s) as [|f rest] eqn:Es;
    [discriminate|].
  simpl in Hb. apply Hrest in Hb. unfold sameShape in Hb. rewrite Hb.
  reflexivity.
Qed.

Lemma exitNode_pops s s' :
  exitNode exec context s = Ok (tt, s') -> shape s' = List.tl (shape s).
Proof.
  unfold exitNode. apply pop_then. intros f.
  unfold isCandidate, checkHtmlVariable, checkHtmlFunction,
    checkFunctionAcceptsHtml, report.
  shape_all.
Qed.

Lemma markParentXSS_pops s s' :
  markParentXSS exec context s = Ok (tt, s') -> shape s' = List.tl (shape s).
Proof.
  unfold markParentXSS. apply pop_then. intros f.
  unfold isCandidate, infect. shape_all.
Qed.

(** Leaving a sink pops its frame and keeps the shape of the rest. *)
Lemma leave_sink (n : Node) s s' :
  isSink (self n) = true ->
  leave exec context n s = Ok (tt, s') ->
  shape s' = List.tl (shape s).
Proof.
  intros Hk H. unfold leave in H.
  destruct (self n) eqn:E; try discriminate Hk;
    first [ apply exitNode_pops; exact H | apply markParentXSS_pops; exact H ].
Qed.

Lemma enter_other (n : Node) :
  isSink (self n) = false -> respects sameShape (enter exec context n).
Proof.
  intros Hk. unfold enter, onLiteral, onIdentifier.
  destruct (self n); try discriminate Hk;
    first [ apply (respects_ret _ sameShape_refl)
          | apply shape_infectParentConditional; intros x; apply shape_condition ].
Qed.

Lemma leave_other (n : Node) :
  isSink (self n) = false -> respects sameShape (leave exec context n).
Proof.
  intros Hk. unfold leave.
  destruct (self n); try discriminate Hk; apply (respects_ret _ sameShape_refl).
Qed.

(** A node's visit: its enter handler, its children, its exit handler. *)
Lemma bracket (n : Node) (body : M unit) :
  respects sameShape body ->
  respects sameShape
    (bind (enter exec context n)
          (fun _ => bind body (fun _ => leave exec context n))).
Proof.
  intros Hbody. destruct (isSink (self n)) eqn:Hk.
  - intros s [] s' H.
    apply bind_Ok in H. destruct H as [[] [s1 [H1 H]]].
    apply bind_Ok in H. destruct H as [[] [s2 [H2 H3]]].
    apply (enter_sink n _ _ Hk) in H1. apply Hbody in H2.
    apply (leave_sink n _ _ Hk) in H3.
    unfold sameShape in *. rewrite H3, H2, H1. reflexivity.
  - apply (respects_bind _ sameShape_trans); [apply enter_other; exact Hk|].
    intros _. apply (respects_bind _ sameShape_trans); [exact Hbody|].
    intros _. apply leave_other; exact Hk.
Qed.

Lemma shape_traverseAll (this : Node) (l : list BaseNode) :
  (forall c, In c l -> forall up, respects sameShape (traverse exec context c up)) ->
  forall i, respects sameShape (traverseAll (traverse exec context) this l i).
Proof.
  induction l as [|c l IH]; intros H i; simpl.
  - apply (respects_ret _ sameShape_refl).
  - apply (respects_bind _ sameShape_trans).
    + apply H. left. reflexivity.
    + intros _. apply IH. intros c' Hc'. apply H. right. exact Hc'.
Qed.

(** Frames are pushed and popped in step with the nesting of the tree: the
    visit of a node leaves the frames that were on the stack, in the same
    order. *)
Lemma shape_traverse (n : BaseNode) :
  forall up, respects sameShape (traverse exec context n up).
Proof.
  induction n; intros up; simpl; apply bracket;
    repeat first
      [ apply (respects_ret _ sameShape_refl)
      | match goal with
        | H : forall up, respects sameShape (traverse exec context ?c up)
          |- respects sameShape (traverse exec context ?c _) => apply H
        | H : list_all BaseNode _ ?l
          |- respects sameShape (traverseAll _ _ ?l _) =>
            apply shape_traverseAll; intros c Hc; exact (list_all_In _ _ H c Hc)
        | H : option_all BaseNode _ ?o
          |- respects sameShape (traverseOption _ _ ?o _) =>
            destruct H; simpl
        end
      | apply (respects_bind _ sameShape_trans); [|intros _] ];
    try assumption.
Qed.
End Discipline.

(** *** Declarators *)

Section Declarators.
Variable exec : RegExp -> string -> bool.
Variable context : RuleContext.

(** *** The safe-comment walk *)

Lemma isCommentedSafe_not_commentable (n : Node) :
  commentable (self n) = false -> isCommentedSafe context n = Ok false.
Proof.
  intros H. unfold isCommentedSafe. simpl. rewrite H. reflexivity.
Qed.

(** Below a parent that is neither a call nor a binary expression, and that
    the walk does not continue through, only the node's own comment counts. *)
Lemma isCommentedSafe_own_comment (n p : Node) :
  parent n = Some p ->
  commentable (self n) = true ->
  commentable (self p) = false ->
  isCommentedSafe context n = Ok (nodeHasSafeComment context n).
Proof.
  intros Hp Hn Hnot. unfold isCommentedSafe.
  destruct n as [c up]. destruct up as [|[i q] up']; [discriminate Hp|].
  injection Hp as <-. simpl in *.
  rewrite Hn. destruct (nodeHasSafeComment context _); [reflexivity|].
  unfold getCommentParent. simpl.
  destruct q; simpl in *; try discriminate Hnot; reflexivity.
Qed.

Lemma htmlTagExec_app (a b : string) :
  htmlTagExec b = true -> htmlTagExec (a +:+ b) = true.
Proof.
  intros H. induction a as [|c a IH]; simpl; [exact H|].
  change (String.append a b) with (a +:+ b). rewrite IH. apply orb_true_r.
Qed.

(** A string with [<] followed by a lowercase letter matches the pattern of
    the literal handler. *)
Lemma htmlTagExec_tag (a b : string) (c : ascii) :
  isLowerAlpha c = true -> htmlTagExec (a +:+ String "<" (String c b)) = true.
Proof.
  intros H. apply htmlTagExec_app. simpl. rewrite H. reflexivity.
Qed.

Lemma set_exprStack_same s : set_exprStack (exprStack s) s = s.
Proof. destruct s; reflexivity. Qed.

Lemma set_exprStack_twice st st' s :
  set_exprStack st' (set_exprStack st s) = set_exprStack st' s.
Proof. reflexivity. Qed.

Lemma bind_eq {A B} (m : M A) (k : A -> M B) s a s1 :
  m s = Ok (a, s1) -> bind m k s = k a s1.
Proof. intros H. unfold bind. rewrite H. reflexivity. Qed.

(** *** The traversal on the shapes the properties are about *)

Lemma traverse_identifier x up s :
  traverse exec context (Identifier x) up s
    = onIdentifier exec context (mkNode (Identifier x) up) s.
Proof.
  simpl. unfold bind, enter, leave. simpl.
  destruct (onIdentifier _ _ _ _) as [[[] s']|]; reflexivity.
Qed.

Lemma traverse_literal v up s :
  traverse exec context (Literal v) up s
    = onLiteral context (mkNode (Literal v) up) s.
Proof.
  simpl. unfold bind, enter, leave. simpl.
  destruct (onLiteral _ _ _) as [[[] s']|]; reflexivity.
Qed.

Lemma traverse_declarator i e up s :
  let d := mkNode (VariableDeclarator i (Some e)) up in
  traverse exec context (VariableDeclarator i (Some e)) up s
    = bind (traverse exec context i (slot d 0))
           (fun _ => bind (traverse exec context e (slot d 1))
                          (fun _ => exitNode exec context))
           (pushed d s).
Proof.
  intros d. simpl. unfold bind, enter, leave. simpl. fold d.
  unfold pushNode, modify. fold (pushed d s).
  destruct (traverse exec context i (slot d 0) (pushed d s)) as [[[] s1]|];
    reflexivity.
Qed.

Lemma parameterChain_direct (top n : Node) :
  parent n = Some top -> tree.isParameter n top = true ->
  parameterChain top (self n) (ancestors n) = Ok true.
Proof.
  intros Hp Hpar. destruct n as [c up]. destruct up as [|[i q] up'];
    [discriminate Hp|]. injection Hp as <-. simpl in *.
  rewrite Hpar. simpl. rewrite same_refl. reflexivity.
Qed.

(** A leaf that passes every gate, directly below the node of the top frame,
    which is not a call: the top frame is marked. *)
Lemma infect_top (condition : Node -> M bool) (n top : Node) (b : bool)
      (rest : list Frame) (s : State) :
  exprStack s = mkFrame top b :: rest ->
  isCommentedSafe context n = Ok false ->
  parameterChain top (self n) (ancestors n) = Ok true ->
  condition n s = Ok (true, s) ->
  type (self top) <> "CallExpression" ->
  infectParentConditional context condition n s
    = Ok (tt, set_exprStack (mkFrame top true :: rest) s).
Proof.
  intros Hs Hsafe Hchain Hcond Htop.
  unfold infectParentConditional, bind, gets, lift. rewrite Hs, Hsafe.
  unfold canInfectXss, bind, gets, lift. rewrite Hs. simpl node.
  rewrite Hchain. simpl. rewrite Hcond.
  unfold getXssCandidateParent, bind, gets. rewrite Hs. simpl.
  destruct (self top);
    try (unfold ret, infect, modify; rewrite Hs; reflexivity).
  exfalso. apply Htop. reflexivity.
Qed.

Lemma pop_top f rest s :
  exprStack s = f :: rest -> pop s = Ok (f, set_exprStack rest s).
Proof. intros H. unfold pop, bind, gets, modify, ret. rewrite H. reflexivity. Qed.

(** The exit handler on the frame of a declarator with an initializer. *)
Lemma exitNode_declarator i e up (b : bool) rest s :
  let d := mkNode (VariableDeclarator i (Some e)) up in
  exprStack s = mkFrame d b :: rest ->
  exitNode exec context s =
    if b || isHtmlVariable exec context (at_id d i) then
      bind (checkHtmlVariable exec context (at_id d i))
           (fun _ => checkForXss exec context (at_init d e) d)
           (set_exprStack rest s)
    else Ok (tt, set_exprStack rest s).
Proof.
  intros d Hs. unfold exitNode.
  rewrite (bind_eq _ _ _ _ _ (pop_top _ _ _ Hs)).
  assert (Hcand : isCandidate exec context (mkFrame d b) (set_exprStack rest s)
                  = Ok (b || isHtmlVariable exec context (at_id d i),
                        set_exprStack rest s)).
  { unfold isCandidate. destruct b; [reflexivity|]. simpl.
    destruct up; reflexivity. }
  rewrite (bind_eq _ _ _ _ _ Hcand).
  destruct (b || isHtmlVariable exec context (at_id d i)); [|reflexivity].
  cbn [negb node].
  assert (Hsafe : isCommentedSafe context d = Ok false).
  { apply isCommentedSafe_not_commentable. reflexivity. }
  unfold bind at 1. unfold lift. rewrite Hsafe. reflexivity.
Qed.

Lemma checkHtmlVariable_identifier (n : Node) (x : string) (c : bool) s :
  self n = Identifier x ->
  isCommentedSafe context n = Ok c ->
  checkHtmlVariable exec context n s =
    if c || isHtmlVariable exec context n then Ok (tt, s)
    else Ok (tt, add_report (nonHtmlVariableReport context n) s).
Proof.
  intros Hn Hc. unfold checkHtmlVariable, isXssSafe, bind, lift.
  rewrite Hc. destruct c; [reflexivity|]. rewrite Hn. unfold ret. simpl.
  destruct (isHtmlVariable exec context n); reflexivity.
Qed.

Lemma checkForXss_literal (n target : Node) (v : literal) (c : bool) s :
  self n = Literal v ->
  type (self target) <> "CallExpression" ->
  isCommentedSafe context n = Ok c ->
  checkForXss exec context n target s = Ok (tt, s).
Proof.
  intros Hn Ht Hc. unfold checkForXss. rewrite Hn.
  assert (Hget : Rules.get target s = Ok (emptyPolicy, s)).
  { unfold Rules.get. destruct (self target); try reflexivity.
    exfalso. apply Ht. reflexivity. }
  rewrite (bind_eq _ _ _ _ _ Hget).
  destruct n as [c0 up0]. simpl in Hn. subst c0. simpl.
  unfold bind, ret. simpl. unfold checkDescendant, bind, isXssSafe, lift.
  rewrite Hc. destruct c; reflexivity.
Qed.

(** C4, as the code has it.  For a declarator [var x = "..."] whose
    initializer is a string literal containing [<] followed by a lowercase
    letter: if the name does not match the HTML-variable pattern and neither
    the declared identifier nor the literal carries a safe comment, the visit
    of the declarator makes exactly one report, the non-HTML variable finding
    located at the declared identifier, and no finding for the literal; if
    the name matches the pattern the visit makes no report at all.  In both
    cases the sink stack is back to what it was. *)
Theorem C4_declarator_with_html_literal
        (x v : string) (up : Ancestors) (s : State) :
  let d := mkNode (VariableDeclarator (Identifier x)
                                      (Some (Literal (StringValue v)))) up in
  let ident := at_id d (Identifier x) in
  let lit := at_init d (Literal (StringValue v)) in
  (exists a b c, v = a +:+ String "<" (String c b) /\ isLowerAlpha c = true) ->
  (isHtmlVariable exec context ident = false ->
   nodeHasSafeComment context ident = false ->
   nodeHasSafeComment context lit = false ->
   traverse exec context (self d) up s
     = Ok (tt, add_report (nonHtmlVariableReport context ident) s)) /\
  (isHtmlVariable exec context ident = true ->
   traverse exec context (self d) up s = Ok (tt, s)).
Proof.
  intros d ident lit [a [b [c [-> Hc]]]].
  pose proof (htmlTagExec_tag a b c Hc) as Htag.
  assert (Hsafe_i : isCommentedSafe context ident
                    = Ok (nodeHasSafeComment context ident)).
  { apply (isCommentedSafe_own_comment ident d); reflexivity. }
  assert (Hsafe_l : isCommentedSafe context lit
                    = Ok (nodeHasSafeComment context lit)).
  { apply (isCommentedSafe_own_comment lit d); reflexivity. }
  assert (Hsafe_d : isCommentedSafe context d = Ok false).
  { apply isCommentedSafe_not_commentable. reflexivity. }
  assert (Hpar_i : tree.isParameter ident d = false).
  { unfold tree.isParameter. simpl. apply same_child. }
  assert (Hpar_l : tree.isParameter lit d = true).
  { unfold tree.isParameter. simpl. apply same_refl. }
  assert (Hbroken : BrokenChain d ident).
  { apply broken_here with (p := d); [reflexivity|exact Hpar_i]. }
  assert (Hident : forall st,
             exprStack st <> [] -> (exists b, exprStack st = mkFrame d b :: exprStack s) ->
             traverse exec context (Identifier x) (slot d 0) st = Ok (tt, st)).
  { intros st _ [b0 Hst]. rewrite traverse_identifier. unfold onIdentifier.
    rewrite (infect_broken context _ ident st d b0 _ Hst Hbroken).
    rewrite Hsafe_i. reflexivity. }
  change (self d) with (VariableDeclarator (Identifier x)
           (Some (Literal (StringValue (a +:+ String "<" (String c b)))))).
  rewrite traverse_declarator. cbv zeta. fold d.
  rewrite (bind_eq _ _ _ tt (pushed d s));
    [|apply Hident; [discriminate|exists false; reflexivity]].
  split.
  - intros Hname Hci Hcl. rewrite Hci in Hsafe_i. rewrite Hcl in Hsafe_l.
    rewrite (bind_eq _ _ _ tt (set_exprStack (mkFrame d true :: exprStack s) s)).
    + (* the exit of the declarator *)
      erewrite (exitNode_declarator _ _ up true (exprStack s)); [|reflexivity].
      simpl orb. cbv iota. rewrite set_exprStack_twice, set_exprStack_same.
      fold d. fold ident. fold lit.
      rewrite (bind_eq _ _ _ tt (add_report (nonHtmlVariableReport context ident) s)).
      * eapply (checkForXss_literal lit d _ false); [reflexivity|discriminate|exact Hsafe_l].
      * rewrite (checkHtmlVariable_identifier ident x false); [|reflexivity|exact Hsafe_i].
        rewrite Hname. reflexivity.
    + (* the literal marks the frame of the declarator *)
      rewrite traverse_literal. unfold onLiteral.
      rewrite (infect_top _ lit d false (exprStack s)); try reflexivity.
      * exact Hsafe_l.
      * apply parameterChain_direct; [reflexivity|exact Hpar_l].
      * unfold containsHtml, bind, lift. simpl. fold d. fold lit.
        rewrite Hsafe_l. simpl. rewrite Htag. reflexivity.
      * discriminate.
  - intros Hname.
    assert (Hlit : exists flag,
               traverse exec context (Literal (StringValue (a +:+ String "<" (String c b))))
                        (slot d 1) (pushed d s)
               = Ok (tt, set_exprStack (mkFrame d flag :: exprStack s) s)).
    { rewrite traverse_literal. unfold onLiteral. fold lit.
      destruct (nodeHasSafeComment context lit) eqn:Hcl.
      - exists false. rewrite infect_commented; [reflexivity|exact Hsafe_l].
      - exists true.
        rewrite (infect_top _ lit d false (exprStack s)); try reflexivity.
        + exact Hsafe_l.
        + apply parameterChain_direct; [reflexivity|exact Hpar_l].
        + unfold containsHtml, bind, lift. simpl. fold d. fold lit.
          rewrite Hsafe_l. simpl. rewrite Htag. reflexivity.
        + discriminate. }
    destruct Hlit as [flag Hlit].
    rewrite (bind_eq _ _ _ _ _ Hlit).
    erewrite (exitNode_declarator _ _ up flag (exprStack s)); [|reflexivity].
    fold d. fold ident. fold lit. rewrite Hname, orb_true_r.
    rewrite set_exprStack_twice, set_exprStack_same.
    rewrite (bind_eq _ _ _ tt s).
    + eapply (checkForXss_literal lit d); [reflexivity|discriminate|exact Hsafe_l].
    + erewrite (checkHtmlVariable_identifier ident x); [|reflexivity|exact Hsafe_i].
      rewrite Hname, orb_true_r. reflexivity.
Qed.

(** *** A declarator initialised by an encoding call *)

Lemma isHtmlOutputFunction_eq (func : Node) s :
  isHtmlOutputFunction exec context func s
    = Ok (htmlOutput (resolve s (self func))
          || re.any exec (tree.getFullItemName (self func))
                    (htmlFunctionRulesRegex context),
          remember s (self func)).
Proof.
  unfold isHtmlOutputFunction, bind, Rules.getFunctionRules.
  rewrite getWithCache_eq. reflexivity.
Qed.

Lemma isXssSafe_eq (n : Node) s :
  isXssSafe exec context n s =
    match isCommentedSafe context n with
    | TypeError => TypeError
    | Ok true => Ok (true, s)
    | Ok false =>
        match self n with
        | Literal _ | FunctionExpression _ _ _ => Ok (true, s)
        | Identifier _ | MemberExpression _ _ _ =>
            Ok (isHtmlVariable exec context n, s)
        | CallExpression c _ =>
            isHtmlOutputFunction exec context (at_callee n c) s
        | _ => Ok (false, s)
        end
    end.
Proof.
  unfold isXssSafe, bind, lift.
  destruct (isCommentedSafe context n) as [[|]|]; try reflexivity.
  destruct (self n); reflexivity.
Qed.

Lemma checkDescendant_safe (n : Node) s s' :
  isXssSafe exec context n s = Ok (true, s') ->
  checkDescendant exec context n s = Ok (tt, s').
Proof. intros H. unfold checkDescendant, bind. rewrite H. reflexivity. Qed.

Lemma checkForXss_encoding_call (n target : Node) c l s :
  self n = CallExpression c l ->
  (exists p, parent n = Some p /\ commentable (self p) = false) ->
  type (self target) <> "CallExpression" ->
  re.any exec (tree.getFullItemName c) (htmlFunctionRulesRegex context) = true ->
  passthrough (resolve s (self n)) = None ->
  exists s', checkForXss exec context n target s = Ok (tt, s') /\ onlyCache s s'.
Proof.
  intros Hn [p [Hp Hpc]] Ht Hname Hpt. unfold checkForXss. rewrite Hn.
  assert (Hget : Rules.get target s = Ok (emptyPolicy, s)).
  { unfold Rules.get. destruct (self target); try reflexivity.
    exfalso. apply Ht. reflexivity. }
  rewrite (bind_eq _ _ _ _ _ Hget).
  assert (Hsafe : isCommentedSafe context n
                  = Ok (nodeHasSafeComment context n)).
  { apply (isCommentedSafe_own_comment n p Hp); [rewrite Hn; reflexivity|exact Hpc]. }
  assert (Hx : exists s', isXssSafe exec context n (remember s (self n)) = Ok (true, s')
                          /\ onlyCache (remember s (self n)) s').
  { rewrite isXssSafe_eq, Hsafe.
    destruct (nodeHasSafeComment context n).
    - eexists. split; [reflexivity|apply onlyCache_refl].
    - rewrite Hn. rewrite isHtmlOutputFunction_eq. simpl self.
      rewrite Hname, orb_true_r. eexists. split; [reflexivity|].
      apply onlyCache_remember. }
  destruct Hx as [s' [Hx Hc]].
  destruct n as [c0 up0]. simpl in Hn. subst c0. simpl self in *. simpl ancestors.
  rewrite (bind_eq _ _ _ [mkNode (CallExpression c l) up0]
                   (remember s (CallExpression c l))).
  2:{ rewrite getDescendants_call. cbv zeta. simpl self. rewrite Hpt. reflexivity. }
  simpl. rewrite (bind_eq _ _ _ tt s'); [|apply checkDescendant_safe; exact Hx].
  exists s'. split; [reflexivity|].
  eapply onlyCache_trans; [apply onlyCache_remember|exact Hc].
Qed.

Lemma traverse_assignment l r up s :
  let d := mkNode (AssignmentExpression l r) up in
  traverse exec context (AssignmentExpression l r) up s
    = bind (traverse exec context l (slot d 0))
           (fun _ => bind (traverse exec context r (slot d 1))
                          (fun _ => exitNode exec context))
           (pushed d s).
Proof.
  intros d. simpl. unfold bind, enter, leave. simpl. fold d.
  unfold pushNode, modify. fold (pushed d s).
  destruct (traverse exec context l (slot d 0) (pushed d s)) as [[[] s1]|];
    reflexivity.
Qed.

(** The exit handler on the frame of an assignment. *)
Lemma exitNode_assignment l r up (b : bool) rest s :
  let d := mkNode (AssignmentExpression l r) up in
  exprStack s = mkFrame d b :: rest ->
  exitNode exec context s =
    if b || isHtmlVariable exec context (at_left d l) then
      bind (checkHtmlVariable exec context (at_left d l))
           (fun _ => checkForXss exec context (at_right d r) d)
           (set_exprStack rest s)
    else Ok (tt, set_exprStack rest s).
Proof.
  intros d Hs. unfold exitNode.
  rewrite (bind_eq _ _ _ _ _ (pop_top _ _ _ Hs)).
  assert (Hcand : isCandidate exec context (mkFrame d b) (set_exprStack rest s)
                  = Ok (b || isHtmlVariable exec context (at_left d l),
                        set_exprStack rest s)).
  { unfold isCandidate. destruct b; [reflexivity|]. simpl.
    destruct up; reflexivity. }
  rewrite (bind_eq _ _ _ _ _ Hcand).
  destruct (b || isHtmlVariable exec context (at_left d l)); [|reflexivity].
  cbn [negb node].
  assert (Hsafe : isCommentedSafe context d = Ok false).
  { apply isCommentedSafe_not_commentable. reflexivity. }
  unfold bind at 1. unfold lift. rewrite Hsafe. reflexivity.
Qed.

(** The validation of a sink [h = encode(x)] or [var h = encode(x)] once its
    frame is on top of the stack. *)
Lemma exitNode_encoded (h : string) (c : BaseNode) (l : list BaseNode)
      (sink : BaseNode) (up : Ancestors) (s : State) (b : bool)
      (rest : list Frame) :
  let call := CallExpression c l in
  let d := mkNode sink up in
  storesInto h call sink ->
  isHtmlVariable exec context (child d 0 (Identifier h)) = true ->
  re.any exec (tree.getFullItemName c) (htmlFunctionRulesRegex context) = true ->
  exprStack s = mkFrame d b :: rest ->
  passthrough (resolve s call) = None ->
  exists s', exitNode exec context s = Ok (tt, s') /\
             exprStack s' = rest /\ reports s' = reports s /\
             rules s' = rules s.
Proof.
  intros call d Hsink Hvar Hname Hs Hpt.
  assert (Hsafe_i : isCommentedSafe context (child d 0 (Identifier h))
                    = Ok (nodeHasSafeComment context (child d 0 (Identifier h)))).
  { apply (isCommentedSafe_own_comment _ d); [reflexivity|reflexivity|].
    destruct Hsink as [E|E]; unfold d; simpl; rewrite E; reflexivity. }
  assert (Hexit : exitNode exec context s
                  = bind (checkHtmlVariable exec context (child d 0 (Identifier h)))
                         (fun _ => checkForXss exec context (child d 1 call) d)
                         (set_exprStack rest s)).
  { destruct Hsink as [E|E]; subst sink.
    - erewrite (exitNode_declarator _ _ up b rest); [|exact Hs].
      fold d. unfold at_id, at_init. rewrite Hvar, orb_true_r. reflexivity.
    - erewrite (exitNode_assignment _ _ up b rest); [|exact Hs].
      fold d. unfold at_left, at_right. rewrite Hvar, orb_true_r. reflexivity. }
  rewrite Hexit.
  rewrite (bind_eq _ _ _ tt (set_exprStack rest s)).
  2:{ erewrite checkHtmlVariable_identifier; [|reflexivity|exact Hsafe_i].
      rewrite Hvar, orb_true_r. reflexivity. }
  destruct (checkForXss_encoding_call (child d 1 call) d c l
              (set_exprStack rest s)) as [s' [E [H1 [H2 H3]]]];
    try reflexivity.
  - exists d. split; [reflexivity|].
    destruct Hsink as [E|E]; unfold d; simpl; rewrite E; reflexivity.
  - destruct Hsink as [E|E]; unfold d; simpl; rewrite E; discriminate.
  - exact Hname.
  - exact Hpt.
  - exists s'. repeat split; assumption.
Qed.

(** C3, as the code has it.  For a sink [var h = encode(x)] or
    [h = encode(x)] whose variable name matches the HTML-variable pattern and
    whose right-hand side is a call with a callee name matching the
    HTML-output pattern and a policy that is not a passthrough, the
    validation of the sink's own frame makes no report, whatever the
    arguments are; so every report of the sink's visit is one made while the
    call itself was visited (for instance "HTML passed in to function" for
    the call's own frame). *)
Theorem C3_encoded_initializer_is_not_reported
        (h : string) (c : BaseNode) (l : list BaseNode)
        (sink : BaseNode) (up : Ancestors) :
  let call := CallExpression c l in
  let d := mkNode sink up in
  storesInto h call sink ->
  isHtmlVariable exec context (child d 0 (Identifier h)) = true ->
  re.any exec (tree.getFullItemName c) (htmlFunctionRulesRegex context) = true ->
  (forall (s : State) (b : bool) (rest : list Frame),
      exprStack s = mkFrame d b :: rest ->
      passthrough (resolve s call) = None ->
      exists s', exitNode exec context s = Ok (tt, s') /\
                 exprStack s' = rest /\ reports s' = reports s /\
                 rules s' = rules s) /\
  (forall (s s1 : State),
      traverse exec context call (slot d 1) (pushed d s) = Ok (tt, s1) ->
      passthrough (resolve s1 call) = None ->
      exists s', traverse exec context sink up s = Ok (tt, s') /\
                 shape s' = shape s /\ reports s' = reports s1 /\
                 rules s' = rules s1).
Proof.
  intros call d Hsink Hvar Hname.
  split.
  { intros s b rest. apply (exitNode_encoded h c l sink up s b rest Hsink Hvar Hname). }
  intros s s1 Htr Hpt.
  assert (Hs1 : exists b rest, exprStack s1 = mkFrame d b :: rest /\
                               map node rest = shape s).
  { pose proof (shape_traverse exec context call _ _ _ _ Htr) as Hsh.
    unfold sameShape, shape in Hsh. simpl in Hsh.
    destruct (exprStack s1) as [|[fn fb] rest]; [discriminate Hsh|].
    simpl in Hsh. injection Hsh as -> Hrest. exists fb, rest. split; [reflexivity|exact Hrest]. }
  destruct Hs1 as [b [rest [Hs1 Hrest]]].
  assert (Hbroken : BrokenChain d (child d 0 (Identifier h))).
  { apply broken_here with (p := d); [reflexivity|].
    unfold tree.isParameter.
    destruct Hsink as [E|E]; unfold d; simpl; rewrite E; simpl; apply same_child. }
  assert (Hsafe_i : isCommentedSafe context (child d 0 (Identifier h))
                    = Ok (nodeHasSafeComment context (child d 0 (Identifier h)))).
  { apply (isCommentedSafe_own_comment _ d); [reflexivity|reflexivity|].
    destruct Hsink as [E|E]; unfold d; simpl; rewrite E; reflexivity. }
  assert (Hid : traverse exec context (Identifier h) (slot d 0) (pushed d s)
                = Ok (tt, pushed d s)).
  { rewrite traverse_identifier. unfold onIdentifier.
    rewrite (infect_broken context _ _ (pushed d s) d false (exprStack s)
               eq_refl Hbroken).
    change (mkNode (Identifier h) (slot d 0)) with (child d 0 (Identifier h)).
    rewrite Hsafe_i. reflexivity. }
  assert (Htrav : traverse exec context sink up s
                  = bind (traverse exec context (Identifier h) (slot d 0))
                         (fun _ => bind (traverse exec context call (slot d 1))
                                        (fun _ => exitNode exec context))
                         (pushed d s)).
  { destruct Hsink as [E|E]; unfold d; rewrite E.
    - apply traverse_declarator.
    - apply traverse_assignment. }
  rewrite Htrav. rewrite (bind_eq _ _ _ _ _ Hid). rewrite (bind_eq _ _ _ _ _ Htr).
  destruct (exitNode_encoded h c l sink up s1 b rest Hsink Hvar Hname
              Hs1 Hpt) as [s' [E [H1 [H2 H3]]]].
  exists s'. repeat split; try assumption.
  unfold shape at 1. rewrite H1. exact Hrest.
Qed.
End Declarators.

(** [htmlMsg = unsafeValue.join("")] under the default options: the
    terminals of the right-hand side are the receiver and the argument, and
    the one finding of the run is located at the receiver. *)
Lemma C5_passthrough_call_is_not_a_terminal_witness :
  let join := MemberExpression (Identifier "unsafeValue") (Identifier "join") false in
  let call := CallExpression join [Literal (StringValue "")] in
  let asg := root (AssignmentExpression (Identifier "htmlMsg") call) in
  let rhs := at_right asg call in
  Forall (fun t => inside rhs t /\ same t rhs = false)
         [at_object (at_callee rhs join) (Identifier "unsafeValue");
          child rhs 1 (Literal (StringValue ""))] /\
  Example.summary
    (lint Example.literalExec Example.plain
          (Other Program [Other ExpressionStatement [self asg]]))
    = Some [([0; 0; 1; 0; 0],
             "Unencoded input '{{ identifier }}' used in HTML context",
             "unsafeValue")].
Proof.
  intros join call asg rhs. split.
  - apply (proj1 (proj2 (C5_passthrough_call_is_not_a_terminal
                           Example.literalExec Example.plain
                           join [Literal (StringValue "")] (ancestors rhs)
                           (mkPassthrough true true)))
                 false (initialState Example.plain) _
                 (remember (initialState Example.plain) call));
      reflexivity.
  - reflexivity.
Defined.

(** [var msg = "<b>hi</b>";] under the default options. *)
Lemma C4_declarator_with_html_literal_witness :
  let decl := VariableDeclarator (Identifier "msg")
                                 (Some (Literal (StringValue "<b>hi</b>"))) in
  let s := initialState Example.plain in
  traverse Example.literalExec Example.plain decl [] s
    = Ok (tt, add_report
                (nonHtmlVariableReport Example.plain
                   (at_id (root decl) (Identifier "msg"))) s).
Proof.
  intros decl s.
  apply (proj1 (C4_declarator_with_html_literal
                  Example.literalExec Example.plain "msg" "<b>hi</b>" [] s
                  (ex_intro _ "" (ex_intro _ ">hi</b>" (ex_intro _ "b"%char
                     (conj eq_refl eq_refl))))));
    reflexivity.
Defined.

(** C4 as the specification words it fails: in
    [var msg = /*safe*/ "<b>hi</b>";] the name [msg] does not match the
    HTML-variable pattern and the literal contains [<b], yet the run makes no
    report, because the commented literal does not mark the declarator. *)
Lemma C4_counterexample :
  let lit := Literal (StringValue "<b>hi</b>") in
  let decl := VariableDeclarator (Identifier "msg") (Some lit) in
  let program := Other Program [Other VariableDeclaration [decl]] in
  isHtmlVariable Example.literalExec Example.safeLiterals
                 (at_id (root decl) (Identifier "msg")) = false /\
  literalHasHtmlTag (StringValue "<b>hi</b>") = true /\
  lint Example.literalExec Example.safeLiterals program = Ok [].
Proof. repeat split. Qed.

(** [var html = encodeAsHtml(x);] at the exit of the declarator. *)
Lemma C3_encoded_initializer_is_not_reported_witness :
  let call := CallExpression (Identifier "encodeAsHtml") [Identifier "x"] in
  let d := root (VariableDeclarator (Identifier "html") (Some call)) in
  let s := mkState [mkFrame d false] (functionRules Example.plain) ∅ [] in
  exists s', exitNode Example.literalExec Example.plain s = Ok (tt, s') /\
             exprStack s' = [] /\ reports s' = [] /\ rules s' = rules s.
Proof.
  intros call d s.
  apply (proj1 (C3_encoded_initializer_is_not_reported
                  Example.literalExec Example.plain "html"
                  (Identifier "encodeAsHtml") [Identifier "x"] (self d) []
                  (or_introl eq_refl) eq_refl eq_refl) s false []);
    reflexivity.
Defined.

(** C3 as the specification words it fails: in
    [var html = encodeAsHtml("<b>");] the callee matches the HTML-output
    pattern [AsHtml] and the variable matches the HTML-variable pattern, yet
    the run makes one report: the literal argument marks the frame of the
    call, and [encodeAsHtml] has no [htmlInput] policy. *)
Lemma C3_counterexample :
  let call := CallExpression (Identifier "encodeAsHtml")
                             [Literal (StringValue "<b>")] in
  let decl := VariableDeclarator (Identifier "html") (Some call) in
  let program := Other Program [Other VariableDeclaration [decl]] in
  isHtmlVariable Example.literalExec Example.plain
                 (at_id (root decl) (Identifier "html")) = true /\
  re.any Example.literalExec (tree.getFullItemName (Identifier "encodeAsHtml"))
         (htmlFunctionRulesRegex Example.plain) = true /\
  Example.summary (lint Example.literalExec Example.plain program)
    = Some [([0; 1; 0; 0], "HTML passed in to function '{{ identifier }}'",
             "encodeAsHtml")].
Proof. repeat split. Qed.

(** *** Runs of the rule never write the rule table *)

Lemma onlyCache_sameRules s s' : onlyCache s s' -> sameRules s s'.
Proof. intros [_ [H _]]. exact H. Qed.

Lemma respects_cache_rules {A} (m : M A) :
  respects onlyCache m -> respects sameRules m.
Proof. apply respects_weaken. apply onlyCache_sameRules. Qed.

Lemma respects_reports_rules P {A} (m : M A) :
  respects (reportsAt P) m -> respects sameRules m.
Proof. apply respects_weaken. apply reportsAt_sameRules. Qed.

Section Runs.
Variable exec : RegExp -> string -> bool.
Variable context : RuleContext.

Ltac respects_known :=
  first
    [ apply respects_cache_rules;
      first [ apply respects_isXssSafe | apply respects_usesHtml
            | apply respects_functionAcceptsHtml
            | apply respects_isHtmlOutputFunction
            | apply respects_getXssCandidateParent
            | apply respects_canInfectXss
            | apply respects_candidateLoop
            | apply respects_getDescendants
            | apply respects_Rules_get
            | apply respects_getFunctionRules ]
    | eapply respects_reports_rules; apply respects_checkForXss
    | apply (respects_forEach_ _ sameRules_refl sameRules_trans); intros ].

Ltac respects_all :=
  repeat first
    [ respects_known
    | respects_step sameRules sameRules_refl sameRules_trans
    | apply respects_modify; intro; reflexivity ].

Lemma respects_exitNode : respects sameRules (exitNode exec context).
Proof.
  unfold exitNode, pop, isCandidate, checkHtmlVariable, checkHtmlFunction,
    checkFunctionAcceptsHtml, report.
  respects_all.
Qed.

Lemma respects_markParentXSS : respects sameRules (markParentXSS exec context).
Proof.
  unfold markParentXSS, pop, isCandidate, infect. respects_all.
Qed.

Lemma respects_infectParentConditional condition n :
  (forall x, respects sameRules (condition x)) ->
  respects sameRules (infectParentConditional context condition n).
Proof.
  intros Hc. unfold infectParentConditional, infect.
  repeat first [ apply Hc | respects_known
               | respects_step sameRules sameRules_refl sameRules_trans
               | apply respects_modify; intro; reflexivity ].
Qed.

Lemma respects_enter n : respects sameRules (enter exec context n).
Proof.
  unfold enter, onCallExpression, onLiteral, onIdentifier, pushNode.
  destruct (self n);
    repeat first
      [ apply respects_infectParentConditional; intros x;
        unfold returnsHtml, containsHtml, namesHtml
      | respects_known
      | respects_step sameRules sameRules_refl sameRules_trans
      | apply respects_modify; intro; reflexivity ].
Qed.

Lemma respects_leave n : respects sameRules (leave exec context n).
Proof.
  unfold leave.
  destruct (self n);
    first [ apply respects_exitNode | apply respects_markParentXSS
          | apply (respects_ret _ sameRules_refl) ].
Qed.

Lemma respects_traverseAll (this : Node) (l : list BaseNode) :
  (forall c, In c l -> forall up, respects sameRules (traverse exec context c up)) ->
  forall i, respects sameRules (traverseAll (traverse exec context) this l i).
Proof.
  induction l as [|c l IH]; intros H i; simpl.
  - apply (respects_ret _ sameRules_refl).
  - apply (respects_bind _ sameRules_trans).
    + apply H. left. reflexivity.
    + intros _. apply IH. intros c' Hc'. apply H. right. exact Hc'.
Qed.

Lemma respects_traverse (n : BaseNode) :
  forall up, respects sameRules (traverse exec context n up).
Proof.
  induction n; intros up; simpl;
    (apply (respects_bind _ sameRules_trans); [apply respects_enter|intros _]);
    (apply (respects_bind _ sameRules_trans); [|intros _; apply respects_leave]);
    repeat first
      [ apply (respects_ret _ sameRules_refl)
      | match goal with
        | H : forall up, respects sameRules (traverse exec context ?c up)
          |- respects sameRules (traverse exec context ?c _) => apply H
        | H : list_all BaseNode _ ?l
          |- respects sameRules (traverseAll _ _ ?l _) =>
            apply respects_traverseAll; intros c Hc; exact (list_all_In _ _ H c Hc)
        | H : option_all BaseNode _ ?o
          |- respects sameRules (traverseOption _ _ ?o _) =>
            destruct H; simpl
        end
      | apply (respects_bind _ sameRules_trans); [|intros _] ];
    try assumption.
Qed.

(** C8.  Running the analysis twice on the same tree, each run a fresh
    instance of the rule, produces the same reports in the same order: the
    only object the two runs share, the rule table, is never written, and a
    run that fails fails both times. *)
Theorem C8_second_run_reports_the_same (program : BaseNode) :
  lintTwice exec context program =
    match lint exec context program with
    | Ok found => Ok (found, found)
    | TypeError => TypeError
    end.
Proof.
  unfold lintTwice, lint, initialState.
  destruct (traverse exec context program [] (instantiate (functionRules context)))
    as [[[] s1]|] eqn:E; [|reflexivity].
  pose proof (respects_traverse program [] _ _ _ E) as Hrules.
  unfold sameRules in Hrules. simpl in Hrules. rewrite Hrules, E. reflexivity.
Qed.
End Runs.

(* ------------------------------------------------------------------------- *)
(** ** Further properties of the code                                          *)
(* ------------------------------------------------------------------------- *)

(** *** Naming rules (re.ts) *)

Lemma split_slash_noSlash p : noSlash p = true -> re.split_slash p = [p].
Proof.
  induction p as [|c p IH]; simpl; [reflexivity|].
  intros H. apply andb_true_iff in H. destruct H as [Hc Hp].
  apply negb_true_iff in Hc. rewrite Hc, (IH Hp). reflexivity.
Qed.

Lemma split_slash_app p rest :
  noSlash p = true ->
  re.split_slash (p +:+ "/" +:+ rest) = p :: re.split_slash rest.
Proof.
  induction p as [|c p IH]; simpl; [reflexivity|].
  intros H. apply andb_true_iff in H. destruct H as [Hc Hp].
  apply negb_true_iff in Hc. rewrite Hc.
  change (String.append p (String "/" rest)) with (p +:+ "/" +:+ rest).
  rewrite (IH Hp). reflexivity.
Qed.

(** X1.  [toRegexp] reads a naming rule as a pattern and flags separated by
    the first slash: a rule without a slash is a pattern without flags, the
    text between the first and the second slash is the flags, and whatever
    follows a second slash is dropped. *)
Theorem X1_toRegexp_pattern_and_flags (p f rest : string) :
  noSlash p = true -> noSlash f = true ->
  re.toRegexp p = mkRegExp p None /\
  re.toRegexp (p +:+ "/" +:+ f) = mkRegExp p (Some f) /\
  re.toRegexp (p +:+ "/" +:+ f +:+ "/" +:+ rest) = mkRegExp p (Some f).
Proof.
  intros Hp Hf. unfold re.toRegexp. repeat split.
  - rewrite (split_slash_noSlash p Hp). reflexivity.
  - rewrite (split_slash_app p f Hp), (split_slash_noSlash f Hf). reflexivity.
  - rewrite (split_slash_app p _ Hp), (split_slash_app f rest Hf). reflexivity.
Qed.

(** The two default rules, and a rule with a second slash. *)
Lemma X1_toRegexp_pattern_and_flags_witness :
  re.toRegexp "AsHtml" = mkRegExp "AsHtml" None /\
  re.toRegexp "html/i" = mkRegExp "html" (Some "i") /\
  re.toRegexp "html/i/g" = mkRegExp "html" (Some "i").
Proof.
  destruct (X1_toRegexp_pattern_and_flags "html" "i" "g" eq_refl eq_refl)
    as [_ [H2 H3]].
  destruct (X1_toRegexp_pattern_and_flags "AsHtml" "" "" eq_refl eq_refl)
    as [H1 _].
  exact (conj H1 (conj H2 H3)).
Defined.

(** *** Names of member chains (tree.ts) *)

Lemma chain_snoc base ps p :
  chain base (ps ++ [p]) = MemberExpression (chain base ps) (Identifier p) false.
Proof. unfold chain. rewrite fold_left_app. reflexivity. Qed.

Lemma suffixes_snoc {A} (l : list A) (x : A) :
  suffixes (l ++ [x]) = map (fun s => s ++ [x]) (suffixes l) ++ [[x]].
Proof.
  induction l as [|a l IH]; simpl; [reflexivity|]. rewrite IH. reflexivity.
Qed.

Lemma join_names sep (l : list string) :
  tree.join sep (map Some l) = String.concat sep l.
Proof.
  unfold tree.join. rewrite map_map. rewrite map_id. reflexivity.
Qed.

Lemma nameStack_chain (base : BaseNode) ps :
  tree.nameStack (chain base ps) = map Some (rev ps) ++ tree.nameStack base.
Proof.
  induction ps as [|p ps IH] using rev_ind; [reflexivity|].
  rewrite chain_snoc, rev_app_distr. simpl. rewrite IH. reflexivity.
Qed.

Lemma unwrapCall_chain base ps :
  tree.unwrapCall base = base -> tree.unwrapCall (chain base ps) = chain base ps.
Proof.
  intros H. destruct ps as [|p ps _] using rev_ind; [exact H|].
  rewrite chain_snoc. reflexivity.
Qed.

Lemma ruleNamesLoop_chain (base : BaseNode) ps :
  forall mi names,
    tree.ruleNamesLoop (chain base ps) mi names
    = tree.ruleNamesLoop base (ps ++ mi)
        (map (fun suf => "." +:+ String.concat "." (suf ++ mi)) (suffixes ps)
         ++ names).
Proof.
  induction ps as [|p ps IH] using rev_ind; intros mi names; [reflexivity|].
  rewrite chain_snoc. simpl. rewrite IH, suffixes_snoc, map_app, map_map.
  simpl. rewrite <- !app_assoc. simpl.
  f_equal. f_equal.
  apply map_ext. intros suf. rewrite <- app_assoc. reflexivity.
Qed.

(** X3.  For a chain of non-computed member accesses of any length over an
    identifier, [a.p1...pn], the full item name is the dotted text and the
    rule names are the dotted text followed by every dotted suffix
    [.pi...pn], the longest first; a call of the chain has the names of the
    chain.  Over [this] the full item name leaves [this] out and only the
    dotted suffixes are rule names. *)
Theorem X3_names_of_a_member_chain (a : string) (ps : list string)
        (args : list BaseNode) :
  let dots := map (fun suf => "." +:+ String.concat "." suf) (suffixes ps) in
  (let n := chain (Identifier a) ps in
   tree.getFullItemName n = String.concat "." (a :: ps) /\
   tree.getRuleNames n = String.concat "." (a :: ps) :: dots /\
   tree.getFullItemName (CallExpression n args) = tree.getFullItemName n /\
   tree.getRuleNames (CallExpression n args) = tree.getRuleNames n) /\
  (let n := chain ThisExpression ps in
   tree.getFullItemName n = String.concat "." ps /\
   tree.getRuleNames n = dots).
Proof.
  intros dots. split.
  - intros n.
    assert (Hu : tree.unwrapCall n = n) by (apply unwrapCall_chain; reflexivity).
    assert (Hfull : tree.getFullItemName n = String.concat "." (a :: ps)).
    { unfold tree.getFullItemName. rewrite Hu. unfold n.
      rewrite nameStack_chain. simpl. rewrite rev_app_distr. simpl.
      rewrite <- map_rev, rev_involutive.
      apply (join_names "." (a :: ps)). }
    assert (Hnames : tree.getRuleNames n = String.concat "." (a :: ps) :: dots).
    { unfold tree.getRuleNames. rewrite Hu. unfold n.
      rewrite ruleNamesLoop_chain. simpl. rewrite !app_nil_r.
      f_equal. unfold dots. apply map_ext. intros suf.
      rewrite app_nil_r. reflexivity. }
    split; [exact Hfull|]. split; [exact Hnames|]. split.
    + unfold tree.getFullItemName. rewrite Hu. reflexivity.
    + unfold tree.getRuleNames. rewrite Hu. reflexivity.
  - intros n.
    assert (Hu : tree.unwrapCall n = n) by (apply unwrapCall_chain; reflexivity).
    split.
    + unfold tree.getFullItemName. rewrite Hu. unfold n.
      rewrite nameStack_chain. simpl. rewrite app_nil_r.
      rewrite <- map_rev, rev_involutive. apply join_names.
    + unfold tree.getRuleNames. rewrite Hu. unfold n.
      rewrite ruleNamesLoop_chain. simpl. rewrite !app_nil_r.
      unfold dots. apply map_ext. intros suf.
      rewrite app_nil_r. reflexivity.
Qed.

(** *** The rule cache (Rules.ts) *)

Lemma remember_grows s n : cache s ⊆ cache (remember s n).
Proof.
  unfold remember. destruct (cache s !! tree.getFullItemName n) eqn:E;
    [reflexivity|].
  simpl. apply insert_subseteq. exact E.
Qed.

(** X4.  A lookup never fails and leaves its answer in the cache under the
    full item name: the same lookup made again returns the same policy and
    changes nothing.  No entry that was cached before is changed or removed,
    and only the entry of that one name can be new. *)
Theorem X4_lookup_is_cached (n : BaseNode) (s : State) :
  let key := tree.getFullItemName n in
  let r := resolve s n in
  let s' := remember s n in
  Rules._getWithCache n s = Ok (r, s') /\
  Rules._getWithCache n s' = Ok (r, s') /\
  cache s' !! key = Some r /\
  cache s ⊆ cache s' /\
  (forall k, k <> key -> cache s' !! k = cache s !! k).
Proof.
  intros key r s'.
  assert (Hkey : cache s' !! key = Some r).
  { unfold s', r, remember, resolve. fold key.
    destruct (cache s !! key) eqn:E; simpl.
    - exact E.
    - apply lookup_insert_eq. }
  split; [apply getWithCache_eq|]. split.
  - rewrite getWithCache_eq. unfold remember, resolve. fold key.
    rewrite Hkey. reflexivity.
  - split; [exact Hkey|]. split; [apply remember_grows|].
    intros k Hk. unfold s', remember. fold key.
    destruct (cache s !! key) eqn:E; simpl; [reflexivity|].
    apply lookup_insert_ne. congruence.
Qed.

(** *** Value-carrying positions (tree.ts, [isParameter]) *)

Ltac by_cases :=
  repeat match goal with
         | |- context [(?a <=? ?b)%nat] => destruct (Nat.leb_spec a b)
         | |- context [(?a <? ?b)%nat] => destruct (Nat.ltb_spec a b)
         end;
  simpl; first [reflexivity | lia].

Lemma existsb_locate (p : Node) (i : nat) (c : BaseNode) (l : list BaseNode) :
  forall k, existsb (fun a => same a (child p i c)) (locate p k l)
            = ((k <=? i) && (i <? k + List.length l))%nat.
Proof.
  induction l as [|x l IH]; intros k; cbn [existsb locate List.length].
  - by_cases.
  - rewrite IH, same_child.
    destruct (decide (k = i)) as [->|Hne].
    + rewrite bool_decide_eq_true_2 by reflexivity.
      rewrite Nat.leb_refl. symmetry. apply Nat.ltb_lt. lia.
    + rewrite bool_decide_eq_false_2 by exact Hne. rewrite orb_false_l.
      by_cases.
Qed.

Lemma same_child_eqb (p : Node) (i j : nat) (a b : BaseNode) :
  same (child p i a) (child p j b) = (i =? j)%nat.
Proof.
  rewrite same_child. destruct (Nat.eqb_spec i j).
  - apply bool_decide_eq_true_2. assumption.
  - apply bool_decide_eq_false_2. assumption.
Qed.

(** X5.  Which child of a parent [isParameter] accepts, by the slot the
    child sits in: of a call every argument and never the callee; of an
    assignment and of a property the second child only; of a declarator the
    initializer; every element of an array; no child of a function
    expression; the two branches of a conditional but not its test; of an
    arrow function the body only; every child of any other parent. *)
Theorem X5_isParameter_by_position (p : Node) (i : nat) (c : BaseNode) :
  tree.isParameter (child p i c) p =
    match self p with
    | CallExpression _ arguments => ((1 <=? i) && (i <=? List.length arguments))%nat
    | AssignmentExpression _ _ | Property _ _ => (i =? 1)%nat
    | VariableDeclarator _ init =>
        match init with Some _ => (i =? 1)%nat | None => false end
    | ArrayExpression elements => (i <? List.length elements)%nat
    | FunctionExpression _ _ _ => false
    | ConditionalExpression _ _ _ => ((i =? 2) || (i =? 1))%nat
    | ArrowFunctionExpression params _ => (i =? List.length params)%nat
    | _ => true
    end.
Proof.
  unfold tree.isParameter.
  destruct (self p) eqn:E; try reflexivity.
  - unfold at_arguments. rewrite existsb_locate. reflexivity.
  - unfold at_elements. rewrite existsb_locate. simpl. reflexivity.
  - unfold at_value. rewrite same_child_eqb. apply Nat.eqb_sym.
  - unfold at_arrow_body. rewrite same_child_eqb. reflexivity.
  - unfold at_right. rewrite same_child_eqb. apply Nat.eqb_sym.
  - unfold at_alternate, at_consequent. rewrite !same_child_eqb. reflexivity.
  - destruct init; [|reflexivity].
    unfold at_init. rewrite same_child_eqb. apply Nat.eqb_sym.
Qed.

(** *** The enclosing function (tree.ts, [getParentFunctionIdentifier]) *)

Lemma closestFunction_skip (n p : BaseNode) (k : nat) (up : Ancestors) :
  isFunction n = false ->
  tree.closestFunction n ((k, p) :: up) = tree.closestFunction p up.
Proof. destruct n; simpl; intros H; try discriminate H; reflexivity. Qed.

Lemma closestFunction_through (n : BaseNode) (pre : Ancestors) :
  forall (k : nat) (f : BaseNode) (up : Ancestors),
    isFunction n = false ->
    Forall (fun e => isFunction (snd e) = false) pre ->
    tree.closestFunction n (pre ++ (k, f) :: up) = tree.closestFunction f up.
Proof.
  revert n. induction pre as [|[j q] pre IH]; intros n k f up Hn Hpre;
    cbn [app].
  - apply closestFunction_skip. exact Hn.
  - rewrite closestFunction_skip by exact Hn.
    inversion Hpre as [|? ? Hq Hrest]; subst. apply IH; assumption.
Qed.

Lemma closestFunction_none (n : BaseNode) (up : Ancestors) :
  isFunction n = false ->
  Forall (fun e => isFunction (snd e) = false) up ->
  tree.closestFunction n up = None.
Proof.
  revert n. induction up as [|[j q] up IH]; intros n Hn Hup.
  - destruct n; try discriminate Hn; reflexivity.
  - rewrite closestFunction_skip by exact Hn.
    inversion Hup as [|? ? Hq Hrest]; subst. apply IH; assumption.
Qed.

(** X6.  The identifier [getParentFunctionIdentifier] finds for a node is
    that of the innermost function around it, at whatever depth the node
    sits in that function, and null outside of every function.  A function
    with a name of its own is known by that name even when it is assigned to
    a variable; a function without one is known by the variable it
    initializes or is assigned to, and has no identifier elsewhere. *)
Theorem X6_parent_function_identifier :
  (forall (n : Node) (pre : Ancestors) (k : nat) (f : BaseNode) (up : Ancestors),
      isFunction (self n) = false ->
      Forall (fun e => isFunction (snd e) = false) pre ->
      ancestors n = pre ++ (k, f) :: up ->
      isFunction f = true ->
      tree.getParentFunctionIdentifier n
        = tree.getParentFunctionIdentifier (mkNode f up)) /\
  (forall n : Node,
      isFunction (self n) = false ->
      Forall (fun e => isFunction (snd e) = false) (ancestors n) ->
      tree.getParentFunctionIdentifier n = None) /\
  (forall (f : Node) (i : BaseNode) ps b,
      self f = FunctionExpression (Some i) ps b \/
      self f = FunctionDeclaration (Some i) ps b ->
      tree.getParentFunctionIdentifier f = Some (at_id f i)) /\
  (forall (f : Node),
      (exists ps b, self f = FunctionExpression None ps b \/
                    self f = FunctionDeclaration None ps b \/
                    self f = ArrowFunctionExpression ps b) ->
      tree.getParentFunctionIdentifier f =
        match parent f with
        | Some p =>
            match self p with
            | VariableDeclarator i _ => Some (at_id p i)
            | AssignmentExpression l _ => Some (at_left p l)
            | _ => None
            end
        | None => None
        end).
Proof.
  split; [|split; [|split]].
  - intros n pre k f up Hn Hpre Hup Hf.
    unfold tree.getParentFunctionIdentifier. simpl. rewrite Hup.
    rewrite closestFunction_through by assumption.
    destruct f; try discriminate Hf; reflexivity.
  - intros n Hn Hup. unfold tree.getParentFunctionIdentifier.
    rewrite closestFunction_none by assumption. reflexivity.
  - intros [f up] i ps b [E|E]; simpl in E; subst f;
      destruct up as [|[]]; reflexivity.
  - intros [f up] [ps [b [E|[E|E]]]]; simpl in E; subst f;
      destruct up as [|[]]; reflexivity.
Qed.

(** *** The two patterns of the rule file *)

Lemma htmlTagExec_hasTag (s : string) : htmlTagExec s = true -> hasTag s.
Proof.
  induction s as [|c s IH]; simpl; [discriminate|].
  intros H. apply orb_true_iff in H. destruct H as [H|H].
  - apply andb_true_iff in H. destruct H as [Hc H].
    apply Ascii.eqb_eq in Hc. subst c.
    destruct s as [|d s]; [discriminate|].
    apply orb_true_iff in H. destruct H as [H|H].
    + exists "", s, d. split; [exact H|]. left. reflexivity.
    + apply andb_true_iff in H. destruct H as [Hd H].
      apply Ascii.eqb_eq in Hd. subst d.
      destruct s as [|e s]; [discriminate|].
      exists "", s, e. split; [exact H|]. right. reflexivity.
  - destruct (IH H) as [pre [post [d [Hd [E|E]]]]]; subst s;
      exists (String c pre), post, d; (split; [exact Hd|]);
      [left|right]; reflexivity.
Qed.

Lemma hasTag_htmlTagExec (s : string) : hasTag s -> htmlTagExec s = true.
Proof.
  intros [pre [post [c [Hc [E|E]]]]]; subst s.
  - apply htmlTagExec_tag. exact Hc.
  - apply htmlTagExec_app. simpl. rewrite Hc. simpl.
    rewrite ?orb_true_r. reflexivity.
Qed.

(** X7.  The test of the literal handler holds of a text exactly when the
    text has a [<], or a [</], directly followed by a lowercase letter; tags
    written in capitals do not count.  Only string literals can pass it. *)
Theorem X7_literal_html_test (s : string) :
  (htmlTagExec s = true <-> hasTag s) /\
  (forall v, literalHasHtmlTag v = true ->
             exists text, v = StringValue text /\ hasTag text).
Proof.
  split.
  - split; [apply htmlTagExec_hasTag|apply hasTag_htmlTagExec].
  - intros v H. destruct v; try discriminate H.
    eexists. split; [reflexivity|]. apply htmlTagExec_hasTag. exact H.
Qed.

Lemma skipSpaces_app (w s : string) :
  allSpaces w = true -> skipSpaces (w +:+ s) = skipSpaces s.
Proof.
  induction w as [|c w IH]; simpl; [reflexivity|].
  intros H. apply andb_true_iff in H. destruct H as [Hc Hw].
  rewrite Hc. apply IH. exact Hw.
Qed.

Lemma skipSpaces_split (s : string) :
  exists w, s = w +:+ skipSpaces s /\ allSpaces w = true.
Proof.
  induction s as [|c s [w [E Hw]]]; simpl.
  - exists "". split; reflexivity.
  - destruct (isSpace c) eqn:Hc.
    + exists (String c w). simpl. rewrite Hc, Hw. split; [|reflexivity].
      change (String c s = String c (w +:+ skipSpaces s)). f_equal. exact E.
    + exists "". split; reflexivity.
Qed.

Lemma isSpace_not_letter (c : ascii) (x : ascii) :
  isSpace c = true -> isLowerAlpha x = true -> toLower c <> x.
Proof.
  unfold isSpace, isLowerAlpha, toLower. intros Hs Hx E.
  destruct (Nat.leb_spec 65 (nat_of_ascii c)) as [H65|H65]; simpl in E.
  - apply orb_true_iff in Hs. destruct Hs as [Hs|Hs].
    + apply andb_true_iff in Hs. destruct Hs as [_ Hs].
      apply Nat.leb_le in Hs. lia.
    + apply Nat.eqb_eq in Hs. lia.
  - subst x. apply andb_true_iff in Hx. destruct Hx as [Hx _].
    apply Nat.leb_le in Hx. lia.
Qed.

Lemma skipSpaces_word (word rest : string) :
  Example.lowerString word = "safe" ->
  skipSpaces (word +:+ rest) = word +:+ rest.
Proof.
  intros H. destruct word as [|a word]; [discriminate H|].
  simpl in H. injection H as Ha _. simpl.
  destruct (isSpace a) eqn:Hs; [|reflexivity].
  exfalso. apply (isSpace_not_letter a "s" Hs eq_refl). exact Ha.
Qed.

Lemma safeCommentExec_saysSafe (s : string) :
  safeCommentExec s = true -> saysSafe s.
Proof.
  unfold safeCommentExec. intros H.
  destruct (skipSpaces_split s) as [w [E Hw]].
  destruct (skipSpaces s) as [|a [|b [|c [|d rest]]]]; try discriminate H.
  repeat (apply andb_true_iff in H; destruct H as [H ?]).
  exists w, (String a (String b (String c (String d "")))), rest.
  split; [exact E|]. split; [exact Hw|]. split; [assumption|].
  repeat match goal with
         | Hx : Ascii.eqb _ _ = true |- _ => apply Ascii.eqb_eq in Hx
         end.
  cbn [Example.lowerString]. congruence.
Qed.

Lemma saysSafe_safeCommentExec (s : string) :
  saysSafe s -> safeCommentExec s = true.
Proof.
  intros [before [word [after [E [Hb [Ha Hw]]]]]]. subst s.
  unfold safeCommentExec. rewrite (skipSpaces_app before _ Hb).
  rewrite (skipSpaces_word word after Hw).
  destruct word as [|a [|b [|c [|d [|e word]]]]]; try discriminate Hw.
  cbn [Example.lowerString] in Hw. injection Hw as H1 H2 H3 H4.
  change (String a (String b (String c (String d ""))) +:+ after)
    with (String a (String b (String c (String d after)))).
  cbv beta iota. rewrite H1, H2, H3, H4. exact Ha.
Qed.

Section Comments.
Variable context : RuleContext.

(** The equation of the loop of [isCommentedSafe]. *)
Lemma isCommentedSafe_eq (n : Node) :
  isCommentedSafe context n =
    (if commentable (self n) then
       if nodeHasSafeComment context n then Ok true
       else match getCommentParent context n with
            | TypeError => TypeError
            | Ok None => Ok false
            | Ok (Some p) => isCommentedSafe context p
            end
     else Ok false).
Proof.
  unfold isCommentedSafe at 1. cbn [isCommentedSafeLoop].
  destruct (commentable (self n)); [|reflexivity].
  destruct (nodeHasSafeComment context n); [reflexivity|].
  destruct (getCommentParent context n) as [[p|]|] eqn:E; try reflexivity.
  - apply isCommentedSafeLoop_enough.
    apply (getCommentParent_depth context). exact E.
  - destruct (List.length (ancestors n)); reflexivity.
Qed.

(** X8.  On comments written in ASCII, a comment marks a node safe exactly
    when its whole text is the word [safe], in any casing, with nothing but
    white space around it; a node has a safe comment exactly when one of its
    leading comments is of that form.  A comment that says more than the
    word is not one. *)
Theorem X8_safe_comment_is_the_word_safe (n : Node) :
  Forall (fun text => asciiText text = true) (leadingComments context n) ->
  (forall text, In text (leadingComments context n) ->
                (safeCommentExec text = true <-> saysSafe text)) /\
  (nodeHasSafeComment context n = true <->
   exists text, In text (leadingComments context n) /\ saysSafe text).
Proof.
  intros _.
  assert (H : forall text, safeCommentExec text = true <-> saysSafe text).
  { intros text.
    split; [apply safeCommentExec_saysSafe|apply saysSafe_safeCommentExec]. }
  split; [intros text _; apply H|].
  unfold nodeHasSafeComment. rewrite existsb_exists.
  split; intros [text [Hin Ht]]; exists text; (split; [exact Hin|]); apply H;
    exact Ht.
Qed.

(** X9.  The walk of [isCommentedSafe] ends for every node and obeys the
    equation of its loop: a node of another kind than the six it accepts is
    not commented safe; otherwise its own safe comment decides, and without
    one the answer is that of the comment parent.  A safe comment on a call
    does not reach the callee or the arguments of the call, and the left
    operand of a binary expression inherits from the expression. *)
Theorem X9_safe_comment_walk (n : Node) :
  isCommentedSafe context n =
    (if commentable (self n) then
       if nodeHasSafeComment context n then Ok true
       else match getCommentParent context n with
            | TypeError => TypeError
            | Ok None => Ok false
            | Ok (Some p) => isCommentedSafe context p
            end
     else Ok false) /\
  (forall p c l,
      parent n = Some p -> self p = CallExpression c l ->
      isCommentedSafe context n
        = Ok (commentable (self n) && nodeHasSafeComment context n)) /\
  (forall p l r,
      parent n = Some p -> self p = BinaryExpression l r ->
      same n (at_left p l) = true ->
      commentable (self n) = true ->
      isCommentedSafe context n
        = if nodeHasSafeComment context n then Ok true
          else isCommentedSafe context p).
Proof.
  pose proof (isCommentedSafe_eq n) as Heq.
  split; [exact Heq|]. split.
  - intros p c l Hp Hc. rewrite Heq.
    destruct (commentable (self n)); [|reflexivity].
    destruct (nodeHasSafeComment context n); [reflexivity|].
    unfold getCommentParent. rewrite Hp, Hc. reflexivity.
  - intros p l r Hp Hb Hleft Hn. rewrite Heq, Hn.
    destruct (nodeHasSafeComment context n); [reflexivity|].
    unfold getCommentParent. rewrite Hp, Hb, Hleft. reflexivity.
Qed.
End Comments.

(** A literal with a comment in front of it that says [safe]. *)
Lemma X8_safe_comment_is_the_word_safe_witness :
  let lit := root (Literal (StringValue "<b>")) in
  exists text, In text (leadingComments Example.safeLiterals lit) /\
               saysSafe text.
Proof.
  intros lit.
  refine (proj1 (proj2 (X8_safe_comment_is_the_word_safe
                          Example.safeLiterals lit _)) eq_refl).
  repeat constructor.
Defined.

(** *** Sink validation: what is not examined, and what fails *)

Lemma bind_throw {A B} (m : M A) (s : State) :
  bind m (fun _ => @throw B) s = TypeError.
Proof. unfold bind, throw. destruct (m s) as [[a s1]|]; reflexivity. Qed.

Lemma forEach__quiet {A} (f : A -> M unit) (l : list A) (s : State) :
  (forall x s0, In x l -> f x s0 = Ok (tt, s0)) ->
  forEach_ f l s = Ok (tt, s).
Proof.
  induction l as [|x l IH]; intros H; simpl; [reflexivity|].
  unfold bind. rewrite (H x s (or_introl eq_refl)).
  apply IH. intros y s0 Hy. apply H. right. exact Hy.
Qed.

Section Validation.
Variable exec : RegExp -> string -> bool.
Variable context : RuleContext.

Lemma getDescendants_unexamined n up ch rec s :
  unexamined n = true -> getDescendants n up ch rec s = Ok (ch, s).
Proof. destruct n; intros H; try discriminate H; reflexivity. Qed.

Lemma checkForXss_at_call (n target : Node) c l (s : State) :
  self target = CallExpression c l ->
  skipped (self n) = false ->
  checkForXss exec context n target s =
    match getDescendants (self n) (ancestors n) [] false
                         (remember s (self target)) with
    | Ok (nodes, s1) =>
        forEach_
          (fun childNode =>
             match safe (resolve s (self target)) with
             | Some SafeAll => ret tt
             | Some (SafeNames l) =>
                 if includes l (tree.getNodeName childNode) then ret tt
                 else checkDescendant exec context childNode
             | None => checkDescendant exec context childNode
             end) nodes s1
    | TypeError => TypeError
    end.
Proof.
  intros Et Hn. unfold checkForXss.
  destruct (self n) eqn:En; try discriminate Hn;
    unfold bind at 1; rewrite (Rules_get_call target _ _ s Et);
    unfold bind;
    destruct (getDescendants _ _ _ _ _) as [[nodes s1]|]; reflexivity.
Qed.

(** X10.  Terminal extraction returns nothing for a node of a kind it has no
    branch for (a logical expression, a template literal, an arrow function,
    an await or yield expression, a class, and every other kind outside its
    list), so validating such a value reports nothing: only the lookup of the
    target's rules is made.  A function expression or an object literal is
    not even looked up. *)
Theorem X10_unexamined_kinds_are_never_reported (n target : Node) (s : State) :
  (forall ch rec,
      unexamined (self n) = true ->
      getDescendants (self n) (ancestors n) ch rec s = Ok (ch, s)) /\
  (unexamined (self n) = true ->
   checkForXss exec context n target s = Ok (tt, lookedUp target s)) /\
  (skipped (self n) = true ->
   checkForXss exec context n target s = Ok (tt, s)).
Proof.
  split; [|split].
  - intros ch rec H. apply getDescendants_unexamined. exact H.
  - intros H. unfold checkForXss.
    destruct (Rules_get_eq target s) as [r Hr].
    destruct (self n) eqn:E; try discriminate H;
      rewrite (bind_eq _ _ _ _ _ Hr); reflexivity.
  - intros H. unfold checkForXss.
    destruct (self n); try discriminate H; reflexivity.
Qed.

(** X11.  When the policy of the call that receives a value says
    [safe: true], validating the value reports nothing, whatever its
    terminals are; when it lists safe names, nothing is reported if every
    terminal has a listed name.  What remains of the validation is the
    extraction of the terminals, with its lookups and its failures. *)
Theorem X11_safe_policy_silences_the_call
        (n target : Node) (c : BaseNode) (l : list BaseNode) (s : State) :
  self target = CallExpression c l ->
  skipped (self n) = false ->
  (safe (resolve s (self target)) = Some SafeAll ->
   checkForXss exec context n target s =
     match getDescendants (self n) (ancestors n) [] false
                          (remember s (self target)) with
     | Ok (_, s1) => Ok (tt, s1)
     | TypeError => TypeError
     end) /\
  (forall names nodes s1,
      safe (resolve s (self target)) = Some (SafeNames names) ->
      getDescendants (self n) (ancestors n) [] false (remember s (self target))
        = Ok (nodes, s1) ->
      Forall (fun t => includes names (tree.getNodeName t) = true) nodes ->
      checkForXss exec context n target s = Ok (tt, s1)).
Proof.
  intros Ht Hn.
  pose proof (checkForXss_at_call n target c l s Ht Hn) as E. split.
  - intros Hsafe. rewrite E, Hsafe.
    destruct (getDescendants _ _ _ _ _) as [[nodes s1]|]; [|reflexivity].
    apply forEach__quiet. reflexivity.
  - intros names nodes s1 Hsafe Hd Hall. rewrite E, Hd, Hsafe.
    apply forEach__quiet. intros x s0 Hx.
    rewrite Forall_forall in Hall. rewrite (Hall x); [reflexivity|].
    apply list_elem_of_In. exact Hx.
Qed.

(** X12.  A policy that passes the object through presupposes a receiver.
    On a call whose callee is not a member expression the extraction reads
    [callee.object], finds nothing, and fails with a TypeError; so does the
    validation of such a call as the input of a sink. *)
Theorem X12_object_passthrough_needs_a_receiver
        (c : BaseNode) (l : list BaseNode) (up : Ancestors) (pt : Passthrough) :
  let call := mkNode (CallExpression c l) up in
  isMember c = false ->
  obj pt = true ->
  (forall ch rec s,
      passthrough (resolve s (self call)) = Some pt ->
      getDescendants (self call) up ch rec s = TypeError) /\
  (forall target s,
      passthrough (resolve (lookedUp target s) (self call)) = Some pt ->
      checkForXss exec context call target s = TypeError).
Proof.
  intros call Hc Hobj.
  assert (Hd : forall ch rec s,
             passthrough (resolve s (self call)) = Some pt ->
             getDescendants (self call) up ch rec s = TypeError).
  { intros ch rec s Hpt. simpl self in *. rewrite getDescendants_call.
    cbv zeta. simpl self. rewrite Hpt, Hobj.
    destruct c; try discriminate Hc; reflexivity. }
  split; [exact Hd|].
  intros target s Hpt.
  destruct (Rules_get_eq target s) as [r Hr].
  unfold checkForXss. cbn [self ancestors call].
  rewrite (bind_eq _ _ _ _ _ Hr). unfold bind.
  pose proof (Hd [] false _ Hpt) as E. cbn [self call] in E.
  rewrite E. reflexivity.
Qed.

(** X13.  A [return;] without a value, inside a function whose identifier
    matches the HTML-function naming rules, makes the rule fail: the exit
    handler validates the missing argument and reads [type] of null.  The
    visit of such a statement ends in a TypeError from every state. *)
Theorem X13_empty_return_in_html_function (up : Ancestors) (func : Node)
        (s : State) :
  let this := mkNode (ReturnStatement None) up in
  tree.getParentFunctionIdentifier this = Some func ->
  isHtmlFunction exec context func = true ->
  traverse exec context (ReturnStatement None) up s = TypeError.
Proof.
  intros this Hf Hname.
  assert (E : traverse exec context (ReturnStatement None) up s
              = exitNode exec context (pushed this s)) by reflexivity.
  rewrite E. unfold exitNode.
  rewrite (bind_eq _ _ _ _ _
             (pop_top (mkFrame this false) (exprStack s) (pushed this s) eq_refl)).
  unfold isCandidate. cbn [xss node].
  assert (Hu : forall s0, usesHtml exec context (self this) (ancestors this) s0
                          = Ok (true, s0)).
  { intros s0. unfold this in *. cbn [self ancestors].
    destruct up as [|[i p] up']; cbn [usesHtml]; rewrite Hf, Hname;
      reflexivity. }
  rewrite (bind_eq _ _ _ _ _ (Hu _)). cbn [negb].
  erewrite (bind_eq (lift (isCommentedSafe context this)) _ _ false);
    [|unfold lift; rewrite isCommentedSafe_not_commentable; reflexivity].
  cbn [self this]. rewrite Hf. apply bind_throw.
Qed.
End Validation.

(** [render(<b> + x)] where the options give [render] the policy
    [{ htmlInput: true, safe: true }]. *)
Lemma X11_safe_policy_silences_the_call_witness :
  let trusted := mkPolicy None true false (Some SafeAll) in
  let ctx := Example.withFunctions (<["render" := trusted]> ∅) in
  let arg := BinaryExpression (Literal (StringValue "<b>")) (Identifier "x") in
  let call := root (CallExpression (Identifier "render") [arg]) in
  checkForXss Example.literalExec ctx (child call 1 arg) call (initialState ctx)
    = Ok (tt, remember (initialState ctx) (self call)).
Proof.
  intros trusted ctx arg call.
  apply (proj1 (X11_safe_policy_silences_the_call
                  Example.literalExec ctx (child call 1 arg) call
                  (Identifier "render") [arg] (initialState ctx)
                  eq_refl eq_refl)).
  reflexivity.
Defined.

(** [html = wrap(x)] where the options give [wrap] the policy
    [{ passthrough: { obj: true } }]: the validation of the right side, and
    with it the run, fails. *)
Lemma X12_object_passthrough_needs_a_receiver_witness :
  let wraps := mkPolicy (Some (mkPassthrough true false)) false false None in
  let ctx := Example.withFunctions (<["wrap" := wraps]> ∅) in
  let call := CallExpression (Identifier "wrap") [Identifier "x"] in
  let asg := root (AssignmentExpression (Identifier "html") call) in
  checkForXss Example.literalExec ctx (at_right asg call) asg (initialState ctx)
    = TypeError /\
  lint Example.literalExec ctx
       (Other Program [Other ExpressionStatement [self asg]]) = TypeError.
Proof.
  intros wraps ctx call asg. split; [|reflexivity].
  apply (proj2 (X12_object_passthrough_needs_a_receiver
                  Example.literalExec ctx (Identifier "wrap") [Identifier "x"]
                  (ancestors (at_right asg call)) (mkPassthrough true false)
                  eq_refl eq_refl)).
  reflexivity.
Defined.

(** [function renderAsHtml() { return; }] under the default options: the
    visit of the return statement, and with it the run, fails. *)
Lemma X13_empty_return_in_html_function_witness :
  let ret := ReturnStatement None in
  let body := Other BlockStatement [ret] in
  let f := FunctionDeclaration (Some (Identifier "renderAsHtml")) [] body in
  let program := Other Program [f] in
  traverse Example.literalExec Example.plain ret
           [(0, body); (1, f); (0, program)] (initialState Example.plain)
    = TypeError /\
  lint Example.literalExec Example.plain program = TypeError.
Proof.
  intros ret body f program. split; [|reflexivity].
  apply (X13_empty_return_in_html_function Example.literalExec Example.plain
           [(0, body); (1, f); (0, program)]
           (at_id (mkNode f [(0, program)]) (Identifier "renderAsHtml")));
    reflexivity.
Defined.

(** *** What every part of a run preserves *)

Section Frame.
Variable exec : RegExp -> string -> bool.
Variable context : RuleContext.
Variable R : State -> State -> Prop.
Hypothesis R_refl : forall s, R s s.
Hypothesis R_trans : forall a b c, R a b -> R b c -> R a c.
Hypothesis R_lookup : forall n s, R s (remember s n).
Hypothesis R_stack : forall st s, R s (set_exprStack st s).
Hypothesis R_report : forall r s, R s (add_report r s).

Lemma frame_getWithCache n : respects R (Rules._getWithCache n).
Proof.
  intros s a s' H. rewrite getWithCache_eq in H. injection H as _ <-.
  apply R_lookup.
Qed.

Lemma frame_getFunctionRules n : respects R (Rules.getFunctionRules n).
Proof. apply frame_getWithCache. Qed.

Lemma frame_Rules_get n : respects R (Rules.get n).
Proof.
  unfold Rules.get. destruct (self n); try apply (respects_ret _ R_refl).
  apply frame_getFunctionRules.
Qed.

Ltac from_respects E :=
  match type of E with
  | ?m ?s = Ok (?a, ?s') =>
      let Hr := fresh in
      assert (Hr : respects R m); [clear E|exact (Hr _ _ _ E)]
  end.

Ltac use_framed :=
  match goal with
  | H : framed _ ?o /\ _ |- framed _ ?o => exact (proj1 H)
  | H : _ /\ framed _ ?o |- framed _ ?o => exact (proj2 H)
  | H : framed _ ?o /\ _ |- respects _ (getDescendants ?o _ _ _) => apply (proj1 H)
  | H : _ /\ framed _ ?o |- respects _ (getDescendants ?o _ _ _) => apply (proj2 H)
  | H : list_all BaseNode _ ?l, He : In ?e ?l
    |- respects _ (getDescendants ?e _ _ _) =>
      apply (proj1 (list_all_In _ _ H e He))
  end.

Lemma frame_getDescendants_strong (n : BaseNode) :
  framed R n /\
  match n with MemberExpression o _ _ => framed R o | _ => True end.
Proof.
  induction n; (split; [|try exact I; try use_framed]).
  all: try (intros up ch rec s l s' E; cbn in E; injection E as _ <-;
            apply R_refl).
  - (* call *)
    intros up ch rec s l s' E. rewrite getDescendants_call in E.
    cbv zeta in E. simpl self in E.
    destruct (passthrough _) as [pt|].
    2:{ injection E as _ <-. apply R_lookup. }
    eapply R_trans; [apply R_lookup|].
    from_respects E. apply (respects_bind R R_trans).
    + destruct (obj pt); [|apply (respects_ret _ R_refl)].
      destruct n; try apply respects_throw. use_framed.
    + intros ch'. destruct (args pt); [|apply (respects_ret _ R_refl)].
      apply (respects_forEach R R_refl R_trans). intros e He i acc. use_framed.
  - (* array *)
    intros up ch rec. unfold respects. intros s l s' E.
    rewrite getDescendants_array in E. cbv zeta in E. destruct rec.
    + injection E as _ <-. apply R_refl.
    + from_respects E. apply (respects_forEach R R_refl R_trans).
      intros e He i acc. use_framed.
  - (* binary *)
    intros up ch rec s l s' E. rewrite getDescendants_binary in E.
    cbv zeta in E. from_respects E.
    apply (respects_bind R R_trans); [use_framed|].
    intros ch'. use_framed.
  - (* assignment *)
    intros up ch rec s l s' E. rewrite getDescendants_assignment in E.
    from_respects E. use_framed.
  - (* conditional *)
    intros up ch rec s l s' E. rewrite getDescendants_conditional in E.
    cbv zeta in E. from_respects E.
    apply (respects_bind R R_trans); [use_framed|].
    intros ch'. use_framed.
Qed.

Lemma frame_getDescendants n up ch rec :
  respects R (getDescendants n up ch rec).
Proof. apply (proj1 (frame_getDescendants_strong n)). Qed.

Ltac frame_base :=
  first
    [ apply frame_getFunctionRules
    | apply frame_Rules_get
    | apply frame_getDescendants
    | respects_step R R_refl R_trans ].

Lemma frame_isHtmlOutputFunction func :
  respects R (isHtmlOutputFunction exec context func).
Proof. unfold isHtmlOutputFunction. repeat frame_base. Qed.

Lemma frame_functionAcceptsHtml func : respects R (functionAcceptsHtml func).
Proof. unfold functionAcceptsHtml. repeat frame_base. Qed.

Lemma frame_isXssSafe n : respects R (isXssSafe exec context n).
Proof.
  unfold isXssSafe. repeat frame_base; apply frame_isHtmlOutputFunction.
Qed.

Lemma frame_usesHtml n up : respects R (usesHtml exec context n up).
Proof.
  revert n. induction up as [|[i p] up IH]; intros n; destruct n; simpl;
    repeat frame_base; try apply frame_functionAcceptsHtml; apply IH.
Qed.

Lemma frame_candidateLoop n stack ptr : respects R (candidateLoop n stack ptr).
Proof.
  revert ptr. induction stack as [|f below IH]; intros ptr; simpl.
  - repeat frame_base.
  - repeat frame_base; apply IH.
Qed.

Lemma frame_getXssCandidateParent n : respects R (getXssCandidateParent n).
Proof.
  unfold getXssCandidateParent. repeat frame_base. apply frame_candidateLoop.
Qed.

Lemma frame_canInfectXss n : respects R (canInfectXss n).
Proof. unfold canInfectXss. repeat frame_base. Qed.

Ltac frame_all :=
  repeat first
    [ apply frame_isXssSafe | apply frame_usesHtml
    | apply frame_functionAcceptsHtml | apply frame_isHtmlOutputFunction
    | apply frame_getXssCandidateParent | apply frame_canInfectXss
    | frame_base
    | apply (respects_forEach_ R R_refl R_trans); intros
    | apply respects_modify; intro; cbv beta;
      first [ apply R_stack | apply R_report ] ].

Lemma frame_infectParentConditional condition n :
  (forall x, respects R (condition x)) ->
  respects R (infectParentConditional context condition n).
Proof.
  intros Hc. unfold infectParentConditional, infect.
  repeat first [ apply Hc | progress frame_all ].
Qed.

Lemma frame_conditions n :
  respects R (returnsHtml exec context n) /\
  respects R (containsHtml context n) /\
  respects R (namesHtml exec context n).
Proof. unfold returnsHtml, containsHtml, namesHtml. repeat split; frame_all. Qed.

Lemma frame_enter n : respects R (enter exec context n).
Proof.
  unfold enter, onCallExpression, onLiteral, onIdentifier, pushNode.
  destruct (self n);
    first
      [ apply (respects_ret _ R_refl)
      | apply respects_modify; intro; apply R_stack
      | apply frame_infectParentConditional; intros x; apply frame_conditions
      | apply (respects_bind _ R_trans);
        [ apply frame_infectParentConditional; intros x; apply frame_conditions
        | intros _; apply respects_modify; intro; apply R_stack ] ].
Qed.

Lemma frame_markParentXSS : respects R (markParentXSS exec context).
Proof. unfold markParentXSS, pop, isCandidate, infect. frame_all. Qed.

Lemma frame_checkDescendant t : respects R (checkDescendant exec context t).
Proof.
  unfold checkDescendant, report. frame_all.
  all: destruct (self t); repeat (cbv beta iota; frame_all).
Qed.

Lemma frame_checkForXss n target : respects R (checkForXss exec context n target).
Proof.
  unfold checkForXss. frame_all; apply frame_checkDescendant.
Qed.

Lemma frame_exitNode : respects R (exitNode exec context).
Proof.
  unfold exitNode, pop, isCandidate, checkHtmlVariable, checkHtmlFunction,
    checkFunctionAcceptsHtml, report.
  repeat first [ apply frame_checkForXss | progress frame_all ].
Qed.

Lemma frame_leave n : respects R (leave exec context n).
Proof.
  unfold leave.
  destruct (self n);
    first [ apply frame_exitNode | apply frame_markParentXSS
          | apply (respects_ret _ R_refl) ].
Qed.

Lemma frame_traverseAll (this : Node) (l : list BaseNode) :
  (forall c, In c l -> forall up, respects R (traverse exec context c up)) ->
  forall i, respects R (traverseAll (traverse exec context) this l i).
Proof.
  induction l as [|c l IH]; intros H i; simpl.
  - apply (respects_ret _ R_refl).
  - apply (respects_bind _ R_trans).
    + apply H. left. reflexivity.
    + intros _. apply IH. intros c' Hc'. apply H. right. exact Hc'.
Qed.

(** Whatever relation between states the three writes of the rule keep (a
    lookup that fills the cache, an assignment to the stack, a report), a
    whole visit keeps. *)
Lemma frame_traverse (n : BaseNode) :
  forall up, respects R (traverse exec context n up).
Proof.
  induction n; intros up; simpl;
    (apply (respects_bind _ R_trans); [apply frame_enter|intros _]);
    (apply (respects_bind _ R_trans); [|intros _; apply frame_leave]);
    repeat first
      [ apply (respects_ret _ R_refl)
      | match goal with
        | H : forall up, respects R (traverse exec context ?c up)
          |- respects R (traverse exec context ?c _) => apply H
        | H : list_all BaseNode _ ?l
          |- respects R (traverseAll _ _ ?l _) =>
            apply frame_traverseAll; intros c Hc; exact (list_all_In _ _ H c Hc)
        | H : option_all BaseNode _ ?o
          |- respects R (traverseOption _ _ ?o _) =>
            destruct H; simpl
        end
      | apply (respects_bind _ R_trans); [|intros _] ];
    try assumption.
Qed.
End Frame.

Lemma extends_refl s : extends s s.
Proof.
  split; [reflexivity|]. split; [reflexivity|].
  exists []. rewrite app_nil_r. reflexivity.
Qed.

Lemma extends_trans a b c : extends a b -> extends b c -> extends a c.
Proof.
  intros [H1 [H2 [n1 H3]]] [H4 [H5 [n2 H6]]].
  split; [congruence|]. split; [etrans; eassumption|].
  exists (n1 ++ n2). rewrite H6, H3, app_assoc. reflexivity.
Qed.

Lemma extends_remember n s : extends s (remember s n).
Proof.
  split; [|split; [apply remember_grows|]].
  - unfold remember. destruct (cache s !! _); reflexivity.
  - exists []. rewrite app_nil_r. unfold remember.
    destruct (cache s !! _); reflexivity.
Qed.

Lemma extends_stack st s : extends s (set_exprStack st s).
Proof.
  split; [reflexivity|]. split; [reflexivity|].
  exists []. rewrite app_nil_r. reflexivity.
Qed.

Lemma extends_report r s : extends s (add_report r s).
Proof.
  split; [reflexivity|]. split; [reflexivity|]. exists [r]. reflexivity.
Qed.

Lemma quiet_refl s : quiet s s.
Proof. split; reflexivity. Qed.

Lemma quiet_trans a b c : quiet a b -> quiet b c -> quiet a c.
Proof. unfold quiet. intros [] []. split; congruence. Qed.

Lemma quiet_remember n s : quiet s (remember s n).
Proof. unfold quiet, remember. destruct (cache s !! _); split; reflexivity. Qed.

Lemma quiet_stack st s : quiet s (set_exprStack st s).
Proof. split; reflexivity. Qed.

Section Visits.
Variable exec : RegExp -> string -> bool.
Variable context : RuleContext.

(** X14.  Frames are pushed and popped in step with the nesting of the tree:
    a visit that completes leaves on the stack the frames of the nodes that
    were there, in the same order, and a visit that starts on the empty
    stack ends on the empty stack. *)
Theorem X14_frames_are_balanced (n : BaseNode) (up : Ancestors) (s s' : State) :
  traverse exec context n up s = Ok (tt, s') ->
  map node (exprStack s') = map node (exprStack s) /\
  (exprStack s = [] -> exprStack s' = []).
Proof.
  intros H. apply shape_traverse in H. unfold sameShape, shape in H.
  split; [exact H|]. intros E. rewrite E in H.
  destruct (exprStack s'); [reflexivity|discriminate H].
Qed.

(** X15.  A visit only adds: it never writes the rule table, it never
    changes or removes a policy that is in the cache, and the reports made
    before it stay where they are, in front of the ones it makes. *)
Theorem X15_a_visit_only_adds (n : BaseNode) (up : Ancestors) (s s' : State) :
  traverse exec context n up s = Ok (tt, s') ->
  rules s' = rules s /\
  cache s ⊆ cache s' /\
  exists new, reports s' = reports s ++ new.
Proof.
  intros H.
  exact (frame_traverse exec context extends extends_refl extends_trans
           extends_remember extends_stack extends_report n up s tt s' H).
Qed.

(** X16.  Reports are made by [exitNode] only: no enter handler makes one
    (a literal, an identifier or a call can mark a frame, not report), and
    neither does the exit handler of an array or of any kind that is not
    validated. *)
Theorem X16_reports_are_made_on_exit_only (n : Node) (s s' : State) :
  (enter exec context n s = Ok (tt, s') -> reports s' = reports s) /\
  (isValidated (self n) = false ->
   leave exec context n s = Ok (tt, s') -> reports s' = reports s).
Proof.
  split.
  - intros H.
    exact (proj1 (frame_enter exec context quiet quiet_refl quiet_trans
                    quiet_remember quiet_stack n s tt s' H)).
  - intros Hk H. unfold leave in H.
    destruct (self n); try discriminate Hk;
      try (injection H as <-; reflexivity).
    exact (proj1 (frame_markParentXSS exec context quiet quiet_refl quiet_trans
                    quiet_remember quiet_stack s tt s' H)).
Qed.
End Visits.

(** [html = render("<b>")] under the default options. *)
Lemma X14_frames_are_balanced_witness :
  let call := CallExpression (Identifier "render") [Literal (StringValue "<b>")] in
  let asg := AssignmentExpression (Identifier "html") call in
  let program := Other Program [Other ExpressionStatement [asg]] in
  match traverse Example.literalExec Example.plain program []
                 (initialState Example.plain) with
  | Ok (_, s') => exprStack s' = []
  | TypeError => False
  end.
Proof.
  intros call asg program.
  destruct (traverse Example.literalExec Example.plain program []
                     (initialState Example.plain)) as [[[] s']|] eqn:E.
  - exact (proj2 (X14_frames_are_balanced _ _ _ _ _ _ E) eq_refl).
  - vm_compute in E. discriminate E.
Defined.

Lemma X15_a_visit_only_adds_witness :
  let call := CallExpression (Identifier "render") [Literal (StringValue "<b>")] in
  let asg := AssignmentExpression (Identifier "html") call in
  let program := Other Program [Other ExpressionStatement [asg]] in
  match traverse Example.literalExec Example.plain program []
                 (initialState Example.plain) with
  | Ok (_, s') =>
      rules s' = functionRules Example.plain /\
      (∅ : gmap string FunctionPolicy) ⊆ cache s' /\
      exists new, reports s' = [] ++ new
  | TypeError => False
  end.
Proof.
  intros call asg program.
  destruct (traverse Example.literalExec Example.plain program []
                     (initialState Example.plain)) as [[[] s']|] eqn:E.
  - exact (X15_a_visit_only_adds _ _ _ _ _ _ E).
  - vm_compute in E. discriminate E.
Defined.

(** *** Which frame a source marks *)

Lemma lookedUp_stack target s : exprStack (lookedUp target s) = exprStack s.
Proof.
  unfold lookedUp, remember.
  destruct (self target); try reflexivity.
  destruct (cache s !! _); reflexivity.
Qed.

Lemma candidateLoop_stops (n : Node) (f : Frame) (below : list Frame)
      above s s1 :
  AllTransparent n above s s1 ->
  stopsAt n f s1 ->
  forall ptr,
    candidateLoop n (above ++ f :: below) ptr s
      = Ok (Some (ptr + List.length above), lookedUp (node f) s1).
Proof.
  induction 1 as [s|g rest s s' c l pt Hc Hpt Ht Hrest IH]; intros Hstop ptr.
  - simpl. rewrite Nat.add_0_r. unfold stopsAt in Hstop. unfold lookedUp.
    destruct (self (node f)) eqn:Ef; try reflexivity.
    unfold bind. rewrite (Rules_get_call _ _ _ s Ef). rewrite Ef in *.
    destruct (passthrough _) as [pt|]; [|reflexivity].
    destruct Hstop as [Ht [flag Hb]]. unfold transparentFor in Ht.
    rewrite Hb in Ht.
    apply orb_false_iff in Ht. destruct Ht as [Hfull Ht]. rewrite Hfull.
    unfold leafIsCallee in Hb.
    destruct (getPathFromParent n "CallExpression") as [path|]; [|discriminate].
    unfold lift. destruct (isCalleeOf path) as [flag'|]; [|discriminate].
    injection Hb as ->. destruct flag; simpl; rewrite Ht; reflexivity.
  - simpl. rewrite Hc. unfold bind.
    rewrite (Rules_get_call _ c l s Hc). rewrite Hpt.
    replace (ptr + S (List.length rest)) with (S ptr + List.length rest) by lia.
    unfold transparentFor, leafIsCallee in Ht.
    destruct (obj pt && args pt) eqn:Efull; [apply IH; exact Hstop|].
    simpl in Ht.
    destruct (getPathFromParent n "CallExpression") as [path|];
      [|discriminate].
    unfold lift. destruct (isCalleeOf path) as [[|]|]; try discriminate;
      simpl; rewrite Ht; simpl; apply IH; exact Hstop.
Qed.

Lemma taint_app (above : list Frame) (f : Frame) (below : list Frame) :
  taint (List.length above) (above ++ f :: below)
    = above ++ mkFrame (node f) true :: below.
Proof.
  induction above as [|g above IH]; simpl; [reflexivity|].
  rewrite IH. reflexivity.
Qed.

Lemma isCall_type (n : BaseNode) :
  String.eqb (type n) "CallExpression" = true -> exists c l, n = CallExpression c l.
Proof.
  destruct n; try discriminate; eauto.
  destruct kind; discriminate.
Qed.

Lemma isCalleeOf_prefix (a b : Node) (l r : list Node) :
  isCalleeOf ((a :: b :: l) ++ r) = isCalleeOf (a :: b :: l).
Proof. reflexivity. Qed.

Lemma argument_not_callee (p : Node) (j : nat) (x c : BaseNode) (l : list BaseNode) :
  self p = CallExpression c l ->
  tree.isParameter (child p j x) p = true ->
  same (child p j x) (at_callee p c) = false.
Proof.
  intros Hp H. unfold tree.isParameter in H. rewrite Hp in H.
  unfold at_arguments in H. rewrite existsb_locate in H.
  apply andb_true_iff in H. destruct H as [H _]. apply Nat.leb_le in H.
  unfold at_callee. rewrite same_child. apply bool_decide_eq_false_2. lia.
Qed.

Lemma pathToParent_call (x : BaseNode) (up : Ancestors) :
  String.eqb (type x) "CallExpression" = true ->
  pathToParent x up "CallExpression" = Some [mkNode x up].
Proof. intros H. destruct up; simpl; rewrite H; reflexivity. Qed.

Lemma pathToParent_step (x : BaseNode) j p (up : Ancestors) :
  String.eqb (type x) "CallExpression" = false ->
  pathToParent x ((j, p) :: up) "CallExpression"
    = match pathToParent p up "CallExpression" with
      | Some path => Some (mkNode x ((j, p) :: up) :: path)
      | None => None
      end.
Proof. intros H. simpl. rewrite H. reflexivity. Qed.

Lemma leafIsCallee_call (x : BaseNode) (up : Ancestors) :
  String.eqb (type x) "CallExpression" = true ->
  leafIsCallee (mkNode x up) = Some false.
Proof.
  intros H. unfold leafIsCallee, getPathFromParent. cbn [self ancestors].
  rewrite (pathToParent_call x up H).
  destruct (isCall_type x H) as [c [l ->]]. reflexivity.
Qed.

Lemma pathToParent_head (x : BaseNode) (up : Ancestors) path :
  pathToParent x up "CallExpression" = Some path ->
  exists rest, path = mkNode x up :: rest /\
               (String.eqb (type x) "CallExpression" = false -> rest <> []).
Proof.
  destruct (String.eqb (type x) "CallExpression") eqn:E.
  - rewrite (pathToParent_call x up E). intros H. injection H as <-.
    exists []. split; [reflexivity|discriminate].
  - destruct up as [|[j p] up]; [simpl; rewrite E; discriminate|].
    rewrite (pathToParent_step x j p up E).
    destruct (pathToParent p up "CallExpression") as [path'|] eqn:E';
      [|discriminate].
    intros H. injection H as <-. exists path'. split; [reflexivity|].
    intros _ ->. destruct up as [|[k q] up]; simpl in E';
      destruct (String.eqb (type p) "CallExpression"); try discriminate;
      destruct (pathToParent _ _ _); discriminate.
Qed.

Lemma leafIsCallee_step (x : BaseNode) j p (up : Ancestors) :
  String.eqb (type x) "CallExpression" = false ->
  tree.isParameter (mkNode x ((j, p) :: up)) (mkNode p up) = true ->
  leafIsCallee (mkNode p up) = Some false ->
  leafIsCallee (mkNode x ((j, p) :: up)) = Some false.
Proof.
  intros Hx Hpar Hp. unfold leafIsCallee, getPathFromParent in *.
  cbn [self ancestors] in *. rewrite (pathToParent_step x j p up Hx).
  destruct (pathToParent p up "CallExpression") as [path|] eqn:E;
    [|discriminate].
  destruct (pathToParent_head p up path E) as [rest [-> Hrest]].
  destruct (String.eqb (type p) "CallExpression") eqn:Ep.
  - rewrite (pathToParent_call p up Ep) in E. injection E as E.
    assert (rest = []) by congruence. subst rest.
    destruct (isCall_type p Ep) as [c [l ->]].
    cbn [rev app isCalleeOf self].
    pose proof (argument_not_callee (mkNode (CallExpression c l) up) j x c l
                  eq_refl Hpar) as Hn.
    unfold child in Hn. cbn [self ancestors] in Hn. rewrite Hn. reflexivity.
  - specialize (Hrest eq_refl).
    cbn [rev] in *.
    destruct (rev rest ++ [mkNode p up]) as [|a [|b l]] eqn:El.
    + destruct (rev rest); discriminate.
    + destruct (rev rest) as [|r0 rr] eqn:Er.
      * apply (f_equal (@rev Node)) in Er. rewrite rev_involutive in Er.
        exfalso. apply Hrest. exact Er.
      * destruct rr; discriminate.
    + rewrite isCalleeOf_prefix. exact Hp.
Qed.

Lemma position_longer (pre : Ancestors) (e : nat * BaseNode) (up : Ancestors) :
  map fst (pre ++ e :: up) <> map fst up.
Proof.
  intros H. apply (f_equal (@List.length nat)) in H.
  rewrite !length_map, length_app in H. simpl in H. lia.
Qed.

(** A source that passed the parameter chain up to a call sits in an argument
    of its closest call: the chain passes through that call, and a callee is
    no parameter of its call. *)
Lemma parameterChain_argument_side (top : Node) (c : BaseNode) (l : list BaseNode) :
  self top = CallExpression c l ->
  forall pre i x,
    parameterChain top x (pre ++ slot top i) = Ok true ->
    leafIsCallee (mkNode x (pre ++ slot top i)) = Some false.
Proof.
  intros Htop pre. induction pre as [|[j p] pre IH]; intros i x H.
  - destruct (String.eqb (type x) "CallExpression") eqn:Ex;
      [apply leafIsCallee_call; exact Ex|].
    cbn [app] in *. unfold slot in *. cbn [parameterChain] in H.
    destruct (tree.isParameter _ _) eqn:Hpar; [|discriminate].
    apply (leafIsCallee_step x i (self top) (ancestors top) Ex Hpar).
    apply leafIsCallee_call. rewrite Htop. reflexivity.
  - destruct (String.eqb (type x) "CallExpression") eqn:Ex;
      [apply leafIsCallee_call; exact Ex|].
    cbn [app] in *. cbn [parameterChain] in H.
    destruct (tree.isParameter _ _) eqn:Hpar; [|discriminate].
    cbn [negb] in H.
    assert (Hs : same (mkNode p (pre ++ slot top i)) top = false).
    { unfold same, position. cbn [ancestors]. apply bool_decide_eq_false_2.
      unfold slot. apply position_longer. }
    rewrite Hs in H.
    apply (leafIsCallee_step x j p _ Ex Hpar). apply IH. exact H.
Qed.

Lemma ArgumentsPass_transparent (n : Node) (above : list Frame) (s s1 : State) :
  leafIsCallee n = Some false ->
  ArgumentsPass above s s1 -> AllTransparent n above s s1.
Proof.
  intros Hside. induction 1 as [s|f below s s' c l pt Hc Hpt Ha Hrest IH].
  - apply transparent_nil.
  - eapply transparent_cons; try eassumption.
    unfold transparentFor. rewrite Hside, Ha. apply orb_true_r.
Qed.

Lemma keepsArguments_stops (n : Node) (f : Frame) (s : State) :
  leafIsCallee n = Some false -> keepsArguments f s -> stopsAt n f s.
Proof.
  intros Hside H. unfold stopsAt, keepsArguments in *.
  destruct (self (node f)); try exact I.
  destruct (passthrough _) as [pt|]; [|exact I].
  split; [|eauto]. unfold transparentFor. rewrite Hside, H.
  rewrite andb_false_r. reflexivity.
Qed.

(** X17.  Which frame a source marks.  A source that passed the
    parameter-chain gate reaches every frame as an argument: the scan of
    [getXssCandidateParent] goes past the frames whose policy passes the
    arguments through and stops at the first frame that is not a call, has
    no passthrough policy, or passes only its object through.  That frame is
    the candidate, also when the source lies inside the object the frame
    passes through; the mark is set on it and on no other frame, and only the
    rule cache changes besides. *)
Theorem X17_first_opaque_frame_is_marked
        (n : Node) (top f : Frame) (above below : list Frame) (s s1 : State) :
  exprStack s = above ++ f :: below ->
  head (exprStack s) = Some top ->
  inside (node top) n ->
  canInfectXss n s = Ok (true, s) ->
  ArgumentsPass above s s1 ->
  keepsArguments f s1 ->
  getXssCandidateParent n s
    = Ok (Some (List.length above), lookedUp (node f) s1) /\
  bind (getXssCandidateParent n) infect s
    = Ok (tt, set_exprStack (above ++ mkFrame (node f) true :: below)
                            (lookedUp (node f) s1)).
Proof.
  intros Hs Htop [pre [i Hin]] Hcan Hpass Hkeep.
  assert (Hscan : AllTransparent n above s s1 /\ stopsAt n f s1).
  { destruct (self (node top)) eqn:Etop;
      try (destruct Hpass as [s|g rest s s' c l pt Hc];
           [ split; [apply transparent_nil|];
             rewrite Hs in Htop; injection Htop as <-;
             unfold stopsAt; rewrite Etop; exact I
           | rewrite Hs in Htop; injection Htop as <-; congruence ]).
    assert (Hside : leafIsCallee n = Some false).
    { unfold canInfectXss, bind, gets, lift in Hcan.
      destruct (exprStack s) as [|t rest] eqn:Es; [discriminate|].
      injection Htop as ->.
      destruct (parameterChain (node top) (self n) (ancestors n)) as [flag|] eqn:Ep;
        [|discriminate].
      injection Hcan as ->. rewrite Hin in Ep.
      pose proof (parameterChain_argument_side (node top) _ _ Etop pre i
                    (self n) Ep) as H.
      rewrite <- Hin in H. destruct n. exact H. }
    split; [apply ArgumentsPass_transparent|apply keepsArguments_stops];
      assumption. }
  destruct Hscan as [Ha Hstop].
  assert (E : getXssCandidateParent n s
              = Ok (Some (List.length above), lookedUp (node f) s1)).
  { unfold getXssCandidateParent, bind, gets. rewrite Hs.
    apply (candidateLoop_stops n f below above s s1 Ha Hstop 0). }
  split; [exact E|].
  rewrite (bind_eq _ _ _ _ _ E). unfold infect, modify.
  rewrite lookedUp_stack.
  destruct (AllTransparent_onlyCache _ _ _ _ Ha) as [Hst _].
  rewrite Hst, Hs, taint_app. reflexivity.
Qed.

Section Arrays.
Variable exec : RegExp -> string -> bool.
Variable context : RuleContext.

(** X18.  A marked array literal hands its mark on when it is left: its own
    frame is popped and the scan of [getXssCandidateParent] is run for the
    array.  The scan goes past the frames that are full passthroughs or pass
    through the side the array has in its closest enclosing call (the object
    when the array is the callee of that call or lies in it, the arguments
    otherwise; one side for every frame) and marks the frame it stops at.  No
    report is made. *)
Theorem X18_marked_array_marks_its_sink
        (arr : Node) (f : Frame) (above below : list Frame) (s s1 : State) :
  exprStack s = mkFrame arr true :: above ++ f :: below ->
  AllTransparent arr above (set_exprStack (above ++ f :: below) s) s1 ->
  stopsAt arr f s1 ->
  markParentXSS exec context s
    = Ok (tt, set_exprStack (above ++ mkFrame (node f) true :: below)
                            (lookedUp (node f) s1)).
Proof.
  intros Hs Ha Hstop. unfold markParentXSS.
  rewrite (bind_eq _ _ _ _ _ (pop_top _ _ s Hs)).
  unfold isCandidate. cbn [xss node]. unfold bind at 1, ret at 1. cbn [negb].
  assert (E : getXssCandidateParent arr (set_exprStack (above ++ f :: below) s)
              = Ok (Some (List.length above), lookedUp (node f) s1)).
  { unfold getXssCandidateParent, bind, gets. cbn [exprStack set_exprStack].
    apply (candidateLoop_stops arr f below above _ s1 Ha Hstop 0). }
  rewrite (bind_eq _ _ _ _ _ E). unfold infect, modify.
  rewrite lookedUp_stack.
  destruct (AllTransparent_onlyCache _ _ _ _ Ha) as [Hst _].
  rewrite Hst. cbn [exprStack set_exprStack]. rewrite taint_app. reflexivity.
Qed.
End Arrays.

(** [x.join("<b>").toString()] as a statement, on entering the literal: it
    is an argument of [.join], which passes its arguments through, and the
    frame of [.toString], which passes only its object through, is marked. *)
Lemma X17_first_opaque_frame_is_marked_witness :
  let inner := CallExpression
                 (MemberExpression (Identifier "x") (Identifier "join") false)
                 [Literal (StringValue "<b>")] in
  let method := MemberExpression inner (Identifier "toString") false in
  let outer := root (CallExpression method []) in
  let innerNode := at_object (at_callee outer method) inner in
  let leaf := child innerNode 1 (Literal (StringValue "<b>")) in
  let s := mkState [mkFrame innerNode false; mkFrame outer false]
                   (functionRules Example.plain) ∅ [] in
  bind (getXssCandidateParent leaf) infect s
    = Ok (tt, set_exprStack [mkFrame innerNode false; mkFrame outer true]
                            (remember (remember s inner) (self outer))).
Proof.
  intros inner method outer innerNode leaf s.
  refine (proj2 (X17_first_opaque_frame_is_marked leaf
                   (mkFrame innerNode false) (mkFrame outer false)
                   [mkFrame innerNode false] []
                   s (remember s inner) eq_refl eq_refl _ eq_refl _ _)).
  - exists [], 1. reflexivity.
  - eapply pass_cons; [reflexivity|reflexivity|reflexivity|apply pass_nil].
  - reflexivity.
Defined.

(** [a.join(["<b>"]).toString()] as a statement, on leaving the marked array
    literal: the array is an argument of its closest call, so the scan goes
    past the frame of [.join] and marks the frame of [.toString]. *)
Lemma X18_marked_array_marks_its_sink_witness :
  let arrExpr := ArrayExpression [Literal (StringValue "<b>")] in
  let inner := CallExpression
                 (MemberExpression (Identifier "a") (Identifier "join") false)
                 [arrExpr] in
  let method := MemberExpression inner (Identifier "toString") false in
  let outer := root (CallExpression method []) in
  let innerNode := at_object (at_callee outer method) inner in
  let arr := child innerNode 1 arrExpr in
  let s := mkState [mkFrame arr true; mkFrame innerNode false;
                    mkFrame outer false]
                   (functionRules Example.plain) ∅ [] in
  markParentXSS Example.literalExec Example.plain s
    = Ok (tt, set_exprStack [mkFrame innerNode false; mkFrame outer true]
                            (remember (remember s inner) (self outer))).
Proof.
  intros arrExpr inner method outer innerNode arr s.
  refine (X18_marked_array_marks_its_sink Example.literalExec Example.plain
           arr (mkFrame outer false) [mkFrame innerNode false] [] s
           (remember (set_exprStack [mkFrame innerNode false;
                                     mkFrame outer false] s) inner)
           eq_refl _ _).
  - eapply transparent_cons; [reflexivity|reflexivity|reflexivity|].
    apply transparent_nil.
  - split; [reflexivity|]. exists false. reflexivity.
Defined.

(** *** Code the rule does not look at *)

Lemma forallb_In {A} (f : A -> bool) (l : list A) (x : A) :
  forallb f l = true -> In x l -> f x = true.
Proof. intros H Hx. rewrite forallb_forall in H. apply H. exact Hx. Qed.

Section Inert.
Variable exec : RegExp -> string -> bool.
Variable context : RuleContext.

Lemma traverseAll_inert (this : Node) (l : list BaseNode) (s : State) :
  (forall c, In c l -> forall up, traverse exec context c up s = Ok (tt, s)) ->
  forall i, traverseAll (traverse exec context) this l i s = Ok (tt, s).
Proof.
  induction l as [|c l IH]; intros H i; simpl; [reflexivity|].
  unfold bind. rewrite (H c (or_introl eq_refl)).
  apply IH. intros c' Hc'. apply H. right. exact Hc'.
Qed.

Lemma traverse_inert (s : State) :
  exprStack s = [] ->
  forall n, sinkFree n = true ->
            forall up, traverse exec context n up s = Ok (tt, s).
Proof.
  intros Hs.
  assert (Hbind : forall (m : M unit) (k : M unit),
             m s = Ok (tt, s) -> k s = Ok (tt, s) ->
             bind m (fun _ => k) s = Ok (tt, s)).
  { intros m k Hm Hk. unfold bind. rewrite Hm. exact Hk. }
  assert (Hleaf : forall condition x,
             infectParentConditional context condition x s = Ok (tt, s)).
  { intros condition x. apply infect_empty. exact Hs. }
  induction n; intros Hfree up; simpl in Hfree; try discriminate Hfree;
    repeat match goal with
           | H : _ && _ = true |- _ => apply andb_true_iff in H; destruct H
           end;
    cbn [traverse];
    repeat first
      [ reflexivity
      | apply Hleaf
      | apply Hbind
      | match goal with
        | H : sinkFree ?c = true -> _ |- traverse _ _ ?c _ _ = _ =>
            apply H; assumption
        | H : list_all BaseNode _ ?l |- traverseAll _ _ ?l _ _ = _ =>
            apply traverseAll_inert; intros c Hc up';
            apply (list_all_In _ _ H c Hc);
            eapply forallb_In; eassumption
        | H : option_all BaseNode _ ?o |- traverseOption _ _ ?o _ _ = _ =>
            destruct H; cbn [traverseOption]
        end ].
Qed.

(** X19.  Code outside of every sink is not examined.  The visit of a
    subtree that holds no assignment, declarator, property, return
    statement, arrow function, array literal or call, started on an empty
    stack, completes and leaves the state as it was: a [new] expression, for
    one, is no sink, and what is passed to a constructor is never checked. *)
Theorem X19_code_outside_sinks_is_not_examined
        (n : BaseNode) (up : Ancestors) (s : State) :
  sinkFree n = true -> exprStack s = [] ->
  traverse exec context n up s = Ok (tt, s).
Proof. intros Hf Hs. apply (traverse_inert s Hs n Hf). Qed.
End Inert.

(** [new Widget("<b>" + htmlInput);] under the default options. *)
Lemma X19_code_outside_sinks_is_not_examined_witness :
  let widget :=
    NewExpression (Identifier "Widget")
      [BinaryExpression (Literal (StringValue "<b>")) (Identifier "htmlInput")] in
  let program := Other Program [Other ExpressionStatement [widget]] in
  lint Example.literalExec Example.plain program = Ok [].
Proof.
  intros widget program. unfold lint.
  rewrite (X19_code_outside_sinks_is_not_examined
             Example.literalExec Example.plain program []
             (initialState Example.plain) eq_refl eq_refl).
  reflexivity.
Defined.

(** *** Detection *)

Section Detection.
Variable exec : RegExp -> string -> bool.
Variable context : RuleContext.

Lemma traverse_binary l r up s :
  let b := mkNode (BinaryExpression l r) up in
  traverse exec context (BinaryExpression l r) up s
    = bind (traverse exec context l (slot b 0))
           (fun _ => traverse exec context r (slot b 1)) s.
Proof.
  intros b. simpl. unfold bind, enter, leave. simpl. fold b.
  destruct (traverse exec context l (slot b 0) s) as [[[] s1]|];
    [|reflexivity].
  destruct (traverse exec context r (slot b 1) s1) as [[[] s2]|]; reflexivity.
Qed.

(** The two operands of [literal + x] directly below a sink that is not
    commentable: without safe comments neither is commented safe. *)
Lemma operands_not_commented (sink : BaseNode) (up : Ancestors)
      (l r : BaseNode) (tok : Token) :
  let d := mkNode sink up in
  let bin := child d 1 (BinaryExpression l r) in
  commentable sink = false ->
  nodeHasSafeComment context bin = false ->
  getTokenBefore context bin = Some tok ->
  (commentable l = true -> nodeHasSafeComment context (at_left bin l) = false ->
   isCommentedSafe context (at_left bin l) = Ok false) /\
  (commentable r = true -> nodeHasSafeComment context (at_right bin r) = false ->
   isCommentedSafe context (at_right bin r) = Ok false).
Proof.
  intros d bin Hd Hcb Htok.
  assert (Hdsafe : isCommentedSafe context d = Ok false).
  { apply isCommentedSafe_not_commentable. exact Hd. }
  assert (Hbin : isCommentedSafe context bin = Ok false).
  { rewrite isCommentedSafe_eq. cbn [self bin child commentable]. rewrite Hcb.
    unfold getCommentParent. cbn [parent ancestors bin child self d].
    fold d. destruct sink; try discriminate Hd; exact Hdsafe. }
  split.
  - intros Hl Hcl. rewrite isCommentedSafe_eq. cbn [self at_left child].
    rewrite Hl. fold (at_left bin l). rewrite Hcl.
    unfold getCommentParent. cbn [parent ancestors at_left child self bin].
    fold d. fold bin. rewrite same_refl. exact Hbin.
  - intros Hr Hcr. rewrite isCommentedSafe_eq. cbn [self at_right child].
    rewrite Hr. fold (at_right bin r). rewrite Hcr.
    unfold getCommentParent. cbn [parent ancestors at_right child self bin].
    fold d. fold bin. unfold at_left, at_right. rewrite same_child.
    rewrite bool_decide_eq_false_2 by discriminate.
    cbn [closestParenthesized]. unfold hasParentheses.
    change (mkNode (BinaryExpression l r) ((1, self d) :: ancestors d))
      with bin.
    rewrite Htok. destruct (_ && _).
    + exact Hbin.
    + cbn [ancestors d self].
      destruct sink; try discriminate Hd; destruct up as [|[]]; reflexivity.
Qed.

(** A leaf that passes the gates but does not fulfil the condition of its
    handler marks nothing. *)
Lemma infect_declined (condition : Node -> M bool) (n top : Node) (b : bool)
      (rest : list Frame) (s : State) :
  exprStack s = mkFrame top b :: rest ->
  isCommentedSafe context n = Ok false ->
  parameterChain top (self n) (ancestors n) = Ok true ->
  condition n s = Ok (false, s) ->
  infectParentConditional context condition n s = Ok (tt, s).
Proof.
  intros Hs Hsafe Hchain Hcond.
  unfold infectParentConditional, bind, gets, lift. rewrite Hs, Hsafe.
  unfold canInfectXss, bind, gets, lift. rewrite Hs. simpl node.
  rewrite Hchain. simpl. rewrite Hcond. reflexivity.
Qed.

(** The walk from an operand of a binary expression that is the value of a
    sink reaches the sink through value-carrying steps only. *)
Lemma parameterChain_operand (d : Node) (l r : BaseNode) (i : nat) (c : BaseNode) :
  let bin := child d 1 (BinaryExpression l r) in
  tree.isParameter bin d = true ->
  parameterChain d c (slot bin i) = Ok true.
Proof.
  intros bin Hpar. cbn [parameterChain slot bin child self ancestors].
  change (mkNode (BinaryExpression l r) ((1, self d) :: ancestors d)) with bin.
  cbn [tree.isParameter self bin child negb].
  rewrite (inside_not_same d bin (inside_child d 1 _)).
  destruct d as [sink up]. cbn [self ancestors] in *.
  fold (child (mkNode sink up) 1 (BinaryExpression l r)).
  rewrite Hpar. cbn [negb]. rewrite same_refl. reflexivity.
Qed.

(** X25.  Unencoded input is reported.  For [var h = "...<tag..." + x] or
    [h = "...<tag..." + x], with a variable [h] that the naming rules take for
    HTML, a literal that contains a tag, and no safe comment on the value or
    its operands: when the name of [x] does not say HTML the visit makes
    exactly one report, "Unencoded input", located at [x]; when it does, the
    visit makes none.  In both cases the stack and the cache are as
    before. *)
Theorem X25_unencoded_input_is_reported
        (h v x : string) (sink : BaseNode) (up : Ancestors) (tok : Token)
        (s : State) :
  let value := BinaryExpression (Literal (StringValue v)) (Identifier x) in
  let d := mkNode sink up in
  let bin := child d 1 value in
  let lit := at_left bin (Literal (StringValue v)) in
  let input := at_right bin (Identifier x) in
  storesInto h value sink ->
  htmlTagExec v = true ->
  isHtmlVariable exec context (child d 0 (Identifier h)) = true ->
  nodeHasSafeComment context bin = false ->
  nodeHasSafeComment context lit = false ->
  nodeHasSafeComment context input = false ->
  getTokenBefore context bin = Some tok ->
  traverse exec context sink up s =
    Ok (tt, if isHtmlVariable exec context input then s
            else add_report (unencodedInputReport context input) s).
Proof.
  intros value d bin lit input Hsink Htag Hvar Hcb Hcl Hcx Htok.
  set (ident := child d 0 (Identifier h)) in *.
  set (marked := set_exprStack (mkFrame d true :: exprStack s) s).
  assert (Hd : commentable sink = false).
  { destruct Hsink as [E|E]; rewrite E; reflexivity. }
  assert (Hcall : type (self d) <> "CallExpression").
  { destruct Hsink as [E|E]; unfold d; simpl; rewrite E; discriminate. }
  destruct (operands_not_commented sink up (Literal (StringValue v))
              (Identifier x) tok Hd Hcb Htok) as [Hl Hr].
  assert (Hsafe_l : isCommentedSafe context lit = Ok false)
    by exact (Hl eq_refl Hcl).
  assert (Hsafe_x : isCommentedSafe context input = Ok false)
    by exact (Hr eq_refl Hcx).
  clear Hl Hr.
  assert (Hsafe_i : isCommentedSafe context ident
                    = Ok (nodeHasSafeComment context ident)).
  { apply (isCommentedSafe_own_comment _ ident d); [reflexivity|reflexivity|].
    exact Hd. }
  assert (Hpar : tree.isParameter bin d = true).
  { unfold tree.isParameter.
    destruct Hsink as [E|E]; unfold d; simpl; rewrite E; simpl;
      unfold same; apply bool_decide_eq_true_2; reflexivity. }
  assert (Hbroken : BrokenChain d ident).
  { apply broken_here with (p := d); [reflexivity|].
    unfold tree.isParameter.
    destruct Hsink as [E|E]; unfold d; simpl; rewrite E; simpl;
      unfold same; apply bool_decide_eq_false_2; discriminate. }
  assert (Hid : traverse exec context (Identifier h) (slot d 0) (pushed d s)
                = Ok (tt, pushed d s)).
  { rewrite traverse_identifier. unfold onIdentifier.
    rewrite (infect_broken context _ _ (pushed d s) d false (exprStack s)
               eq_refl Hbroken).
    change (mkNode (Identifier h) (slot d 0)) with ident.
    rewrite Hsafe_i. reflexivity. }
  assert (Hlit : traverse exec context (Literal (StringValue v)) (slot bin 0)
                          (pushed d s) = Ok (tt, marked)).
  { rewrite traverse_literal. unfold onLiteral.
    change (mkNode (Literal (StringValue v)) (slot bin 0)) with lit.
    rewrite (infect_top context _ lit d false (exprStack s) (pushed d s)
               eq_refl Hsafe_l); try reflexivity.
    - apply (parameterChain_operand d _ _ 0). exact Hpar.
    - unfold containsHtml. change (self lit) with (Literal (StringValue v)).
      cbn [regex]. unfold bind, lift. rewrite Hsafe_l.
      cbn [negb literalHasHtmlTag andb]. rewrite Htag. reflexivity.
    - exact Hcall. }
  assert (Hin : traverse exec context (Identifier x) (slot bin 1) marked
                = Ok (tt, marked)).
  { rewrite traverse_identifier. unfold onIdentifier.
    change (mkNode (Identifier x) (slot bin 1)) with input.
    destruct (isHtmlVariable exec context input) eqn:Hx.
    - rewrite (infect_top context _ input d true (exprStack s) marked
                 eq_refl Hsafe_x); try reflexivity.
      + apply (parameterChain_operand d _ _ 1). exact Hpar.
      + unfold namesHtml. rewrite Hx. reflexivity.
      + exact Hcall.
    - apply (infect_declined _ input d true (exprStack s) marked eq_refl Hsafe_x).
      + apply (parameterChain_operand d _ _ 1). exact Hpar.
      + unfold namesHtml. rewrite Hx. reflexivity. }
  assert (Hvalue : traverse exec context value (slot d 1) (pushed d s)
                   = Ok (tt, marked)).
  { unfold value. rewrite traverse_binary. cbv zeta.
    change (mkNode (BinaryExpression (Literal (StringValue v)) (Identifier x))
                   (slot d 1)) with bin.
    rewrite (bind_eq _ _ _ _ _ Hlit). exact Hin. }
  assert (Htrav : traverse exec context sink up s
                  = bind (traverse exec context (Identifier h) (slot d 0))
                         (fun _ => bind (traverse exec context value (slot d 1))
                                        (fun _ => exitNode exec context))
                         (pushed d s)).
  { destruct Hsink as [E|E]; unfold d; rewrite E.
    - apply traverse_declarator.
    - apply traverse_assignment. }
  rewrite Htrav, (bind_eq _ _ _ _ _ Hid), (bind_eq _ _ _ _ _ Hvalue).
  assert (Hexit : exitNode exec context marked
                  = bind (checkHtmlVariable exec context ident)
                         (fun _ => checkForXss exec context bin d) s).
  { destruct Hsink as [E|E]; subst sink.
    - erewrite (exitNode_declarator _ _ _ _ up true (exprStack s)); [|reflexivity].
      unfold marked. rewrite set_exprStack_twice, set_exprStack_same.
      reflexivity.
    - erewrite (exitNode_assignment _ _ _ _ up true (exprStack s)); [|reflexivity].
      unfold marked. rewrite set_exprStack_twice, set_exprStack_same.
      reflexivity. }
  rewrite Hexit.
  rewrite (bind_eq _ _ _ tt s).
  2:{ erewrite checkHtmlVariable_identifier; [|reflexivity|exact Hsafe_i].
      rewrite Hvar, orb_true_r. reflexivity. }
  assert (Hget : Rules.get d s = Ok (emptyPolicy, s)).
  { unfold Rules.get. destruct Hsink as [E|E]; unfold d; simpl; rewrite E;
      reflexivity. }
  unfold checkForXss. change (self bin) with value. unfold value at 1.
  cbv beta iota. rewrite (bind_eq _ _ _ _ _ Hget).
  rewrite (bind_eq _ _ _ [lit; input] s) by reflexivity.
  cbn [forEach_ safe emptyPolicy].
  rewrite (bind_eq _ _ _ tt s).
  2:{ apply checkDescendant_safe. rewrite isXssSafe_eq, Hsafe_l. reflexivity. }
  unfold bind at 1.
  unfold checkDescendant, bind. rewrite isXssSafe_eq, Hsafe_x.
  change (self input) with (Identifier x). cbv beta iota.
  destruct (isHtmlVariable exec context input); reflexivity.
Qed.
End Detection.

(** [var html = "<b>" + input;] under the default options. *)
Lemma X25_unencoded_input_is_reported_witness :
  let value := BinaryExpression (Literal (StringValue "<b>")) (Identifier "input") in
  let decl := VariableDeclarator (Identifier "html") (Some value) in
  let d := root decl in
  let input := at_right (at_init d value) (Identifier "input") in
  traverse Example.literalExec Example.plain decl [] (initialState Example.plain)
    = Ok (tt, add_report (unencodedInputReport Example.plain input)
                         (initialState Example.plain)).
Proof.
  intros value decl d input.
  exact (X25_unencoded_input_is_reported Example.literalExec Example.plain
           "html" "<b>" "input" decl [] (mkToken "Punctuator" "=")
           (initialState Example.plain) (or_introl eq_refl)
           eq_refl eq_refl eq_refl eq_refl eq_refl eq_refl).
Defined.

(** *** One cache entry for every node of a name *)

(** X26.  The cache is keyed by the full item name alone.  Once a node has
    been looked up, a lookup of any other node with the same full item name
    returns the policy of the first and changes nothing, whatever the rule
    names of the second node are. *)
Theorem X26_same_full_name_same_policy (n m : BaseNode) (s : State) :
  tree.getFullItemName m = tree.getFullItemName n ->
  Rules._getWithCache m (remember s n) = Ok (resolve s n, remember s n).
Proof.
  intros Hkey.
  assert (Hhit : cache (remember s n) !! tree.getFullItemName n
                 = Some (resolve s n)).
  { unfold remember, resolve.
    destruct (cache s !! tree.getFullItemName n) eqn:E; simpl.
    - exact E.
    - apply lookup_insert_eq. }
  rewrite getWithCache_eq. unfold remember at 2, resolve at 1.
  rewrite Hkey, Hhit. reflexivity.
Qed.

(** [b("x")] and [this[b]("x")] where the options give [b] the policy
    [{ htmlInput: true }]. *)
Lemma X26_same_full_name_same_policy_witness :
  let accepts := mkPolicy None true false None in
  let ctx := Example.withFunctions (<["b" := accepts]> ∅) in
  let named := CallExpression (Identifier "b") [Literal (StringValue "x")] in
  let computed :=
    CallExpression (MemberExpression ThisExpression (Identifier "b") true)
                   [Literal (StringValue "x")] in
  tree.getRuleNames computed = [] /\
  Rules._getWithCache computed (remember (initialState ctx) named)
    = Ok (accepts, remember (initialState ctx) named).
Proof.
  intros accepts ctx named computed. split; [reflexivity|].
  exact (X26_same_full_name_same_policy named computed (initialState ctx)
           eq_refl).
Defined.

(** *** Silence *)

Lemma turns_ret sh {A} (Q : A -> Prop) (a : A) : Q a -> turns sh sh Q (ret a).
Proof.
  intros H s Hs Hsh. exists a, s. split; [reflexivity|]. split; [exact Hs|].
  split; [reflexivity|]. split; [exact Hsh|exact H].
Qed.

Lemma turns_bind sh sh1 sh2 {A B} (P : A -> Prop) (Q : B -> Prop)
      (m : M A) (k : A -> M B) :
  turns sh sh1 P m -> (forall a, P a -> turns sh1 sh2 Q (k a)) ->
  turns sh sh2 Q (bind m k).
Proof.
  intros Hm Hk s Hs Hsh.
  destruct (Hm s Hs Hsh) as [a [s1 [E1 [Hs1 [Hr1 [Hsh1 Ha]]]]]].
  destruct (Hk a Ha s1 Hs1 Hsh1) as [b [s2 [E2 [Hs2 [Hr2 [Hsh2 Hb]]]]]].
  exists b, s2. unfold bind. rewrite E1.
  split; [exact E2|]. split; [exact Hs2|]. split; [congruence|].
  split; [exact Hsh2|exact Hb].
Qed.

Lemma plain_firstRule (t : gmap string FunctionPolicy) (names : list string) :
  plainTable t ->
  plainPolicy match Rules.firstRule t names with
              | Some r => r
              | None => emptyPolicy
              end.
Proof.
  intros Ht. induction names as [|x names IH]; simpl; [split; reflexivity|].
  destruct (t !! x) eqn:E; [|exact IH]. exact (Ht x f E).
Qed.

Lemma plain_resolve (s : State) (n : BaseNode) :
  calm s -> plainPolicy (resolve s n).
Proof.
  intros [_ [Hr Hc]]. unfold resolve.
  destruct (cache s !! _) eqn:E; [exact (Hc _ _ E)|].
  apply plain_firstRule. exact Hr.
Qed.

Lemma calm_remember (s : State) (n : BaseNode) : calm s -> calm (remember s n).
Proof.
  intros Hs. pose proof (plain_resolve s n Hs) as Hp.
  destruct Hs as [H1 [H2 H3]]. unfold remember.
  destruct (cache s !! _) eqn:E; [exact (conj H1 (conj H2 H3))|].
  split; [exact H1|]. split; [exact H2|].
  simpl. apply map_Forall_insert_2; assumption.
Qed.

Lemma remember_reports (s : State) (n : BaseNode) :
  reports (remember s n) = reports s.
Proof. unfold remember. destruct (cache s !! _); reflexivity. Qed.

Lemma remember_shape (s : State) (n : BaseNode) :
  shape (remember s n) = shape s.
Proof. unfold remember. destruct (cache s !! _); reflexivity. Qed.

Lemma turns_getFunctionRules sh (n : Node) :
  turns sh sh plainPolicy (Rules.getFunctionRules n).
Proof.
  intros s Hs Hsh. exists (resolve s (self n)), (remember s (self n)).
  split; [apply getWithCache_eq|].
  split; [apply calm_remember; exact Hs|].
  split; [apply remember_reports|].
  split; [rewrite remember_shape; exact Hsh|].
  apply plain_resolve. exact Hs.
Qed.

Lemma turns_pushNode sh (n : Node) :
  turns sh (n :: sh) (fun _ => True) (pushNode n).
Proof.
  intros s [H1 [H2 H3]] Hsh. exists tt, (pushed n s).
  split; [reflexivity|]. split.
  - split; [|exact (conj H2 H3)]. simpl. constructor; [reflexivity|exact H1].
  - split; [reflexivity|]. split; [|exact I].
    unfold shape, pushed. simpl. f_equal. exact Hsh.
Qed.

Lemma turns_pop sh (n : Node) :
  turns (n :: sh) sh (fun f => node f = n /\ xss f = false) pop.
Proof.
  intros s [H1 [H2 H3]] Hsh. unfold shape in Hsh.
  destruct (exprStack s) as [|f rest] eqn:Es; [discriminate|].
  simpl in Hsh. injection Hsh as Hn Hrest.
  inversion H1 as [|? ? Hf Hall]; subst.
  exists f, (set_exprStack rest s).
  split; [apply pop_top; exact Es|].
  split; [exact (conj Hall (conj H2 H3))|].
  split; [reflexivity|]. split; [reflexivity|]. split; [reflexivity|exact Hf].
Qed.

Section Silence.
Variable exec : RegExp -> string -> bool.
Variable context : RuleContext.
Hypothesis tokens :
  forall n l r, self n = BinaryExpression l r -> getTokenBefore context n <> None.

(** The identifier a node resolves to lies in the node. *)
Lemma free_getIdentifier (n : BaseNode) (up : Ancestors) (i : Node) :
  htmlFree exec context n = true ->
  tree.getIdentifier (mkNode n up) = Some i ->
  htmlFree exec context (self i) = true /\ exists x, self i = Identifier x.
Proof.
  intros H. unfold tree.getIdentifier. cbn [self].
  assert (Hm : forall m up', htmlFree exec context m = true ->
            match self match self (mkNode m up') with
                       | MemberExpression o p computed =>
                           if computed then at_object (mkNode m up') o
                           else at_property (mkNode m up') p
                       | _ => mkNode m up'
                       end with
            | Identifier _ =>
                Some match self (mkNode m up') with
                     | MemberExpression o p computed =>
                         if computed then at_object (mkNode m up') o
                         else at_property (mkNode m up') p
                     | _ => mkNode m up'
                     end
            | _ => None
            end = Some i ->
            htmlFree exec context (self i) = true /\
            exists x, self i = Identifier x).
  { intros m up' Hfree. cbn [self].
    destruct m; try discriminate.
    - intros E. injection E as <-. split; [exact Hfree|eauto].
    - simpl in Hfree. apply andb_true_iff in Hfree. destruct Hfree as [Ha Hb].
      destruct computed; cbn [self at_object at_property child].
      + destruct m1; try discriminate. intros E. injection E as <-.
        split; [exact Ha|eauto].
      + destruct m2; try discriminate. intros E. injection E as <-.
        split; [exact Hb|eauto]. }
  destruct n; try (apply Hm; exact H).
  simpl in H. apply andb_true_iff in H. destruct H as [H _].
  apply andb_true_iff in H. destruct H as [_ Hc].
  apply Hm. exact Hc.
Qed.

Lemma free_isHtmlVariable (n : BaseNode) (up : Ancestors) :
  htmlFree exec context n = true ->
  isHtmlVariable exec context (mkNode n up) = false.
Proof.
  intros H. unfold isHtmlVariable.
  destruct (tree.getIdentifier _) as [i|] eqn:E; [|reflexivity].
  destruct (free_getIdentifier n up i H E) as [Hi [x Hx]].
  unfold identifierName. rewrite Hx in *. simpl in *.
  apply andb_true_iff in Hi. destruct Hi as [Hi _].
  apply negb_true_iff in Hi. exact Hi.
Qed.

Lemma free_isHtmlFunction (n : BaseNode) (up : Ancestors) :
  htmlFree exec context n = true ->
  isHtmlFunction exec context (mkNode n up) = false.
Proof.
  intros H. unfold isHtmlFunction.
  destruct (tree.getIdentifier _) as [i|] eqn:E; [|reflexivity].
  destruct (free_getIdentifier n up i H E) as [Hi [x Hx]].
  unfold identifierName. rewrite Hx in *. simpl in *.
  apply andb_true_iff in Hi. destruct Hi as [_ Hi].
  apply negb_true_iff in Hi. exact Hi.
Qed.

(** *** The comment walk answers when every token lookup does *)

Lemma closestParenthesized_answers (p : BaseNode) (up : Ancestors) :
  exists r, closestParenthesized context p up = Ok r.
Proof.
  revert p. induction up as [|[i q] up IH]; intros p;
    destruct p; simpl; eauto;
    unfold hasParentheses;
    (destruct (getTokenBefore context _) eqn:E;
       [|exfalso; exact (tokens (mkNode (BinaryExpression _ _) _) _ _ eq_refl E)]);
    destruct (_ && _); eauto.
Qed.

Lemma getCommentParent_answers (n : Node) :
  exists r, getCommentParent context n = Ok r.
Proof.
  unfold getCommentParent. destruct (parent n) as [p|]; [|eauto].
  destruct (self p); eauto.
  destruct (same _ _); [eauto|apply closestParenthesized_answers].
Qed.

Lemma isCommentedSafeLoop_answers (rounds : nat) :
  forall n, exists b, isCommentedSafeLoop context rounds n = Ok b.
Proof.
  induction rounds as [|rounds IH]; intros [n|]; simpl; eauto.
  destruct (commentable (self n)); [|eauto].
  destruct (nodeHasSafeComment context n); [eauto|].
  destruct (getCommentParent_answers n) as [r ->]. apply IH.
Qed.

Lemma isCommentedSafe_answers (n : Node) :
  exists b, isCommentedSafe context n = Ok b.
Proof. apply isCommentedSafeLoop_answers. Qed.

(** *** The parameter chain ends at the top frame *)

Lemma parameterChain_answers (top : Node) (pre : Ancestors) :
  forall i p up' x,
    same (mkNode p up') top = true ->
    exists b, parameterChain top x (pre ++ (i, p) :: up') = Ok b.
Proof.
  induction pre as [|[j q] pre IH]; intros i p up' x Hsame; cbn [app parameterChain].
  - destruct (negb _); [eauto|]. rewrite Hsame. eauto.
  - destruct (negb _); [eauto|].
    destruct (same (mkNode q _) top); [eauto|].
    apply IH. exact Hsame.
Qed.

Lemma turns_canInfectXss sh (n : Node) :
  anchored (ancestors n) sh ->
  turns sh sh (fun _ => True) (canInfectXss n).
Proof.
  intros Ha s Hs Hsh. unfold canInfectXss, bind, gets.
  destruct (exprStack s) as [|top rest] eqn:Es.
  - exists false, s. split; [reflexivity|]. split; [exact Hs|].
    split; [reflexivity|]. split; [exact Hsh|exact I].
  - unfold shape in Hsh. rewrite Es in Hsh. subst sh. simpl in Ha.
    destruct Ha as [pre [i [p [up' [Hup Hsame]]]]]. rewrite Hup.
    destruct (parameterChain_answers (node top) pre i p up' (self n) Hsame)
      as [b Hb].
    unfold lift. rewrite Hb. exists b, s.
    split; [reflexivity|]. split; [exact Hs|]. split; [reflexivity|].
    split; [|exact I]. unfold shape. rewrite Es. reflexivity.
Qed.

Lemma turns_lift_isCommentedSafe sh (n : Node) :
  turns sh sh (fun _ => True) (lift (isCommentedSafe context n)).
Proof.
  intros s Hs Hsh. destruct (isCommentedSafe_answers n) as [b Hb].
  exists b, s. unfold lift. rewrite Hb.
  split; [reflexivity|]. split; [exact Hs|]. split; [reflexivity|].
  split; [exact Hsh|exact I].
Qed.

Lemma turns_infectParentConditional sh condition (n : Node) :
  anchored (ancestors n) sh ->
  turns sh sh (fun b => b = false) (condition n) ->
  turns sh sh (fun _ => True) (infectParentConditional context condition n).
Proof.
  intros Ha Hc s Hs Hsh. unfold infectParentConditional.
  unfold bind at 1, gets.
  destruct (exprStack s) eqn:Es.
  { exists tt, s. split; [reflexivity|]. split; [exact Hs|].
    split; [reflexivity|]. split; [exact Hsh|exact I]. }
  clear Es. revert s Hs Hsh.
  change (turns sh sh (fun _ : unit => True)
            (commented <- lift (isCommentedSafe context n) ;;
             if commented then ret tt
             else can <- canInfectXss n ;;
                  if negb can then ret tt
                  else holds <- condition n ;;
                       if holds then
                         infectable <- getXssCandidateParent n ;;
                         infect infectable
                       else ret tt)).
  eapply turns_bind; [apply turns_lift_isCommentedSafe|]. intros commented _.
  destruct commented; [apply turns_ret; exact I|].
  eapply turns_bind; [apply turns_canInfectXss; exact Ha|]. intros can _.
  destruct (negb can); [apply turns_ret; exact I|].
  eapply turns_bind; [exact Hc|]. intros holds ->.
  apply turns_ret. exact I.
Qed.

(** *** The handlers *)

Lemma turns_functionAcceptsHtml sh func :
  turns sh sh (fun b => b = false) (functionAcceptsHtml func).
Proof.
  unfold functionAcceptsHtml.
  eapply turns_bind; [apply turns_getFunctionRules|].
  intros r [Hin _]. apply turns_ret. exact Hin.
Qed.

Lemma turns_returnsHtml sh (c : BaseNode) (l : list BaseNode) (up : Ancestors) :
  htmlFree exec context (CallExpression c l) = true ->
  turns sh sh (fun b => b = false)
        (returnsHtml exec context (mkNode (CallExpression c l) up)).
Proof.
  intros H. unfold returnsHtml, isHtmlOutputFunction. cbn [self].
  eapply turns_bind; [apply turns_getFunctionRules|].
  intros r [_ Hout]. apply turns_ret. rewrite Hout.
  simpl in H. apply andb_true_iff in H. destruct H as [H _].
  apply andb_true_iff in H. destruct H as [H _].
  apply negb_true_iff in H. cbn [at_callee child self]. rewrite H. reflexivity.
Qed.

Lemma turns_containsHtml sh v (up : Ancestors) :
  htmlFree exec context (Literal v) = true ->
  turns sh sh (fun b => b = false) (containsHtml context (mkNode (Literal v) up)).
Proof.
  intros H. unfold containsHtml. cbn [self]. simpl in H.
  destruct (regex v); [apply turns_ret; reflexivity|].
  simpl in H. apply negb_true_iff in H.
  eapply turns_bind; [apply turns_lift_isCommentedSafe|]. intros c _.
  apply turns_ret. rewrite H. apply andb_false_r.
Qed.

Lemma turns_enter sh (n : BaseNode) (up : Ancestors) :
  htmlFree exec context n = true ->
  anchored up sh ->
  turns sh (pushedShape (mkNode n up) sh) (fun _ => True)
        (enter exec context (mkNode n up)).
Proof.
  intros Hfree Ha. unfold enter, pushedShape, onCallExpression, onLiteral,
    onIdentifier. cbn [self].
  destruct n; cbn [isSink];
    try apply turns_pushNode; try (apply turns_ret; exact I).
  - apply turns_infectParentConditional; [exact Ha|].
    unfold namesHtml. apply turns_ret. apply free_isHtmlVariable. exact Hfree.
  - apply turns_infectParentConditional; [exact Ha|].
    apply turns_containsHtml. exact Hfree.
  - eapply turns_bind; [|intros _ _; apply turns_pushNode].
    apply turns_infectParentConditional; [exact Ha|].
    apply turns_returnsHtml. exact Hfree.
Qed.

(** *** Leaving a node *)

Lemma free_closestFunction (up : Ancestors) :
  forall n f,
    htmlFree exec context n = true ->
    Forall (fun e => htmlFree exec context (snd e) = true) up ->
    tree.closestFunction n up = Some f ->
    htmlFree exec context (self f) = true /\
    Forall (fun e => htmlFree exec context (snd e) = true) (ancestors f).
Proof.
  induction up as [|[i p] up IH]; intros n f Hn Hup H.
  - destruct n; simpl in H; try discriminate; injection H as <-; auto.
  - inversion Hup as [|? ? Hp Hrest]; subst. simpl in Hp.
    destruct n; simpl in H;
      try (apply (IH p f Hp Hrest); exact H);
      injection H as <-; auto.
Qed.

Lemma free_parentFunction (n : BaseNode) (up : Ancestors) (func : Node) :
  htmlFree exec context n = true ->
  Forall (fun e => htmlFree exec context (snd e) = true) up ->
  tree.getParentFunctionIdentifier (mkNode n up) = Some func ->
  isHtmlFunction exec context func = false.
Proof.
  intros Hn Hup H. unfold tree.getParentFunctionIdentifier in H.
  cbn [self ancestors] in H.
  destruct (tree.closestFunction n up) as [f|] eqn:Ef; [|discriminate].
  destruct (free_closestFunction up n f Hn Hup Ef) as [Hf Hfup].
  assert (Hassigned :
            match parent f with
            | Some p =>
                match self p with
                | VariableDeclarator i _ => Some (at_id p i)
                | AssignmentExpression l _ => Some (at_left p l)
                | _ => None
                end
            | None => None
            end = Some func -> isHtmlFunction exec context func = false).
  { unfold parent. destruct (ancestors f) as [|[j q] up'] eqn:Eup; [discriminate|].
    inversion Hfup as [|? ? Hq _]; subst. simpl in Hq. cbn [self].
    destruct q; try discriminate; intros E; injection E as <-;
      simpl in Hq; apply andb_true_iff in Hq; destruct Hq as [Hq _];
      apply free_isHtmlFunction; exact Hq. }
  destruct (self f) eqn:Es; try (apply Hassigned; exact H).
  - destruct id as [i|]; [|apply Hassigned; exact H].
    injection H as <-. simpl in Hf.
    apply andb_true_iff in Hf. destruct Hf as [Hf _].
    apply andb_true_iff in Hf. destruct Hf as [Hf _].
    apply free_isHtmlFunction. exact Hf.
  - destruct id as [i|]; [|apply Hassigned; exact H].
    injection H as <-. simpl in Hf.
    apply andb_true_iff in Hf. destruct Hf as [Hf _].
    apply andb_true_iff in Hf. destruct Hf as [Hf _].
    apply free_isHtmlFunction. exact Hf.
Qed.

Lemma rooted_tail (i : nat) (p : BaseNode) (up : Ancestors) :
  rooted ((i, p) :: up) -> isArray p = true -> rooted up.
Proof.
  intros [pre [k [body E]]] Hp. destruct pre as [|e pre]; simpl in E.
  - injection E as -> -> ->. discriminate Hp.
  - injection E as _ ->. exists pre, k, body. reflexivity.
Qed.

Lemma turns_usesHtml sh (up : Ancestors) :
  forall n,
    htmlFree exec context n = true ->
    Forall (fun e => htmlFree exec context (snd e) = true) up ->
    (isArray n = true -> rooted up) ->
    turns sh sh (fun b => b = false) (usesHtml exec context n up).
Proof.
  assert (Hcases : forall n up,
            htmlFree exec context n = true ->
            Forall (fun e => htmlFree exec context (snd e) = true) up ->
            isArray n = false ->
            turns sh sh (fun b => b = false) (usesHtml exec context n up)).
  { intros n up' Hn Hup Hk.
    destruct n; try discriminate Hk; destruct up' as [|[j q] up'];
      cbn [usesHtml];
      first
        [ apply turns_functionAcceptsHtml
        | apply turns_ret; reflexivity
        | apply turns_ret; apply free_isHtmlVariable; simpl in Hn;
          apply andb_true_iff in Hn; tauto
        | destruct (tree.getParentFunctionIdentifier _) as [func|] eqn:Ef;
          apply turns_ret;
          [apply (free_parentFunction _ _ _ Hn Hup Ef)|reflexivity] ]. }
  induction up as [|[i p] up IH]; intros n Hn Hup Hroot;
    destruct (isArray n) eqn:Hk; try (apply Hcases; assumption).
  - destruct (Hroot eq_refl) as [pre [k [body E]]].
    destruct pre; discriminate E.
  - inversion Hup as [|? ? Hp Hrest]; subst. simpl in Hp.
    destruct n; try discriminate Hk. cbn [usesHtml].
    apply IH; [exact Hp|exact Hrest|].
    apply (rooted_tail i). apply Hroot. reflexivity.
Qed.

Lemma turns_isCandidate sh (f : Frame) :
  xss f = false ->
  htmlFree exec context (self (node f)) = true ->
  Forall (fun e => htmlFree exec context (snd e) = true) (ancestors (node f)) ->
  (isArray (self (node f)) = true -> rooted (ancestors (node f))) ->
  turns sh sh (fun b => b = false) (isCandidate exec context f).
Proof.
  intros Hf Hn Hup Hroot. unfold isCandidate. rewrite Hf.
  apply turns_usesHtml; assumption.
Qed.

Lemma turns_leave sh (n : BaseNode) (up : Ancestors) :
  htmlFree exec context n = true ->
  Forall (fun e => htmlFree exec context (snd e) = true) up ->
  rooted up ->
  turns (pushedShape (mkNode n up) sh) sh (fun _ => True)
        (leave exec context (mkNode n up)).
Proof.
  intros Hn Hup Hroot.
  assert (Hexit : turns (mkNode n up :: sh) sh (fun _ : unit => True)
                        (exitNode exec context)).
  { unfold exitNode. eapply turns_bind; [apply turns_pop|].
    intros f [Hnode Hf].
    eapply turns_bind;
      [apply turns_isCandidate; rewrite ?Hnode; auto|].
    intros b ->. apply turns_ret. exact I. }
  assert (Hmark : turns (mkNode n up :: sh) sh (fun _ : unit => True)
                        (markParentXSS exec context)).
  { unfold markParentXSS. eapply turns_bind; [apply turns_pop|].
    intros f [Hnode Hf].
    eapply turns_bind;
      [apply turns_isCandidate; rewrite ?Hnode; auto|].
    intros b ->. apply turns_ret. exact I. }
  unfold leave, pushedShape. cbn [self].
  destruct n; cbn [isSink];
    first [exact Hexit | exact Hmark | apply turns_ret; exact I].
Qed.

(** *** The traversal *)

Lemma anchored_child (n : BaseNode) (up : Ancestors) (sh : list Node) (i : nat) :
  anchored up sh ->
  anchored (slot (mkNode n up) i) (pushedShape (mkNode n up) sh).
Proof.
  intros Ha. unfold pushedShape, slot. cbn [self ancestors].
  destruct (isSink n).
  - exists [], i, n, up. split; [reflexivity|apply same_refl].
  - destruct sh as [|top sh]; [exact I|].
    destruct Ha as [pre [j [p [up' [E Hsame]]]]].
    exists ((i, n) :: pre), j, p, up'. split; [|exact Hsame].
    rewrite E. reflexivity.
Qed.

Lemma rooted_child (n : BaseNode) (up : Ancestors) (i : nat) :
  rooted up -> rooted (slot (mkNode n up) i).
Proof.
  intros [pre [k [body E]]]. exists ((i, n) :: pre), k, body.
  unfold slot. cbn [self ancestors]. rewrite E. reflexivity.
Qed.

Lemma turns_traverseAll sh (this : Node) (l : list BaseNode) :
  (forall c, In c l -> forall i,
     turns sh sh (fun _ => True) (traverse exec context c (slot this i))) ->
  forall i, turns sh sh (fun _ => True)
                  (traverseAll (traverse exec context) this l i).
Proof.
  induction l as [|c l IH]; intros H i; simpl.
  - apply turns_ret. exact I.
  - eapply (turns_bind _ _ _ (fun _ : unit => True));
      [apply H; left; reflexivity|].
    intros _ _. apply IH. intros c' Hc'. apply H. right. exact Hc'.
Qed.

Lemma turns_traverse (n : BaseNode) :
  htmlFree exec context n = true ->
  forall up sh,
    rooted up ->
    Forall (fun e => htmlFree exec context (snd e) = true) up ->
    anchored up sh ->
    turns sh sh (fun _ => True) (traverse exec context n up).
Proof.
  induction n; intros Hfree up sh Hroot Hup Ha; pose proof Hfree as Hall;
    simpl in Hfree;
    repeat match goal with
           | H : _ && _ = true |- _ => apply andb_true_iff in H; destruct H
           end;
    cbn [traverse];
    (eapply (turns_bind _ _ _ (fun _ : unit => True));
       [apply turns_enter; [exact Hall|exact Ha]|intros _ _]);
    (eapply (turns_bind _ _ _ (fun _ : unit => True));
       [|intros _ _; apply turns_leave; assumption]);
    repeat first
      [ apply turns_ret; exact I
      | match goal with
        | H : htmlFree exec context ?c = true -> _
          |- turns _ _ _ (traverse _ _ ?c _) =>
            apply H;
            [ assumption
            | apply rooted_child; exact Hroot
            | constructor; [exact Hall|exact Hup]
            | apply anchored_child; exact Ha ]
        | H : list_all BaseNode _ ?l |- turns _ _ _ (traverseAll _ _ ?l _) =>
            apply turns_traverseAll; intros c Hc i';
            apply (list_all_In _ _ H c Hc);
            [ eapply forallb_In; eassumption
            | apply rooted_child; exact Hroot
            | constructor; [exact Hall|exact Hup]
            | apply anchored_child; exact Ha ]
        | H : option_all BaseNode _ ?o |- turns _ _ _ (traverseOption _ _ ?o _) =>
            destruct H; cbn [traverseOption]
        end
      | eapply (turns_bind _ _ _ (fun _ : unit => True)); [|intros _ _] ].
Qed.

(** X20.  No report without a sign of HTML.  Take a program in which no
    identifier has a name matching a naming rule, no callee has a full name
    matching a function naming rule and no string literal contains a tag,
    options whose function policies never say [htmlInput] or [htmlOutput],
    and a source text in which every binary expression has a token in front
    of it (that is, one that does not begin with a binary expression).  Then
    the run completes and reports nothing. *)
Theorem X20_no_report_without_html_evidence (body : list BaseNode) :
  plainTable (functionRules context) ->
  htmlFree exec context (Other Program body) = true ->
  lint exec context (Other Program body) = Ok [].
Proof.
  intros Htable Hfree. unfold lint.
  assert (Hcalm : calm (initialState context)).
  { split; [apply Forall_nil_2|]. split; [exact Htable|apply map_Forall_empty]. }
  assert (Hbody : turns [] [] (fun _ : unit => True)
                        (traverse exec context (Other Program body) [])).
  { cbn [traverse].
    eapply (turns_bind _ _ _ (fun _ : unit => True));
      [apply turns_ret; exact I|intros _ _].
    eapply (turns_bind _ _ _ (fun _ : unit => True));
      [|intros _ _; apply turns_ret; exact I].
    apply turns_traverseAll. intros c Hc i.
    apply turns_traverse.
    - simpl in Hfree. eapply forallb_In; eassumption.
    - exists [], i, body. reflexivity.
    - constructor; [exact Hfree|constructor].
    - exact I. }
  destruct (Hbody (initialState context) Hcalm eq_refl)
    as [[] [s' [E [_ [Hr _]]]]].
  rewrite E. f_equal. exact Hr.
Qed.
End Silence.

(** [x = wrap(y + "plain", [z].join(", "))], under the default options. *)
Lemma X20_no_report_without_html_evidence_witness :
  let call := CallExpression (Identifier "wrap")
                [BinaryExpression (Identifier "y") (Literal (StringValue "plain"));
                 CallExpression
                   (MemberExpression (ArrayExpression [Identifier "z"])
                                     (Identifier "join") false)
                   [Literal (StringValue ", ")]] in
  let asg := AssignmentExpression (Identifier "x") call in
  let program := Other Program [Other ExpressionStatement [asg]] in
  lint Example.literalExec Example.plain program = Ok [].
Proof.
  intros call asg program.
  apply (X20_no_report_without_html_evidence Example.literalExec Example.plain).
  - intros n l r _. discriminate.
  - unfold plainTable, functionRules. simpl.
    repeat (apply map_Forall_insert_2; [split; reflexivity|]).
    apply map_Forall_empty.
  - reflexivity.
Defined.

(** *** Terminals and the reports of a validation *)

Section Terminals.
Variable exec : RegExp -> string -> bool.
Variable context : RuleContext.

(** X21.  Terminal extraction appends to the list it is given and is
    otherwise independent of it; every terminal it finds for a node is the
    node itself or lies inside it; and it writes nothing but the rule
    cache. *)
Theorem X21_terminals_lie_inside_the_value
        (n : BaseNode) (up : Ancestors) (rec : bool) (s : State) :
  (forall ch,
      getDescendants n up ch rec s = prepend ch (getDescendants n up [] rec s)) /\
  (forall l s',
      getDescendants n up [] rec s = Ok (l, s') ->
      Forall (fun t => t = mkNode n up \/ inside (mkNode n up) t) l /\
      exprStack s' = exprStack s /\ rules s' = rules s /\
      reports s' = reports s).
Proof.
  split.
  - intros ch. apply getDescendants_acc.
  - intros l s' E. apply getDescendants_terminals in E. exact E.
Qed.

(** X22.  Validating a value reports only nodes of that value: every report
    [checkForXss] makes is located at the value or inside it, the reports
    made before are kept in front, and neither the stack nor the rule table
    is written. *)
Theorem X22_validation_reports_inside_the_value (n target : Node) (s s' : State) :
  checkForXss exec context n target s = Ok (tt, s') ->
  exprStack s' = exprStack s /\ rules s' = rules s /\
  exists new, reports s' = reports s ++ new /\
              Forall (fun r => report_node r = n \/ inside n (report_node r)) new.
Proof. intros H. exact (respects_checkForXss exec context n target s tt s' H). Qed.
End Terminals.

(** [html = a + b] under the default options, the validation of the right
    side. *)
Lemma X22_validation_reports_inside_the_value_witness :
  let value := BinaryExpression (Identifier "a") (Identifier "b") in
  let asg := root (AssignmentExpression (Identifier "html") value) in
  let rhs := at_right asg value in
  match checkForXss Example.literalExec Example.plain rhs asg
                    (initialState Example.plain) with
  | Ok (_, s') =>
      exists new,
        reports s' = [] ++ new /\
        Forall (fun r => report_node r = rhs \/ inside rhs (report_node r)) new
  | TypeError => False
  end.
Proof.
  intros value asg rhs.
  destruct (checkForXss Example.literalExec Example.plain rhs asg
                        (initialState Example.plain)) as [[[] s']|] eqn:E.
  - exact (proj2 (proj2 (X22_validation_reports_inside_the_value _ _ _ _ _ _ E))).
  - vm_compute in E. discriminate E.
Defined.

(** *** The rule on assignments to [location.href] *)

Section LocationHref.
Variable isPrivateIdentifier : option BaseNode -> Result bool.
Variable isBaseCallExpression : option BaseNode -> Result bool.
Variable escapeFuncOption : option string.
Variable getText : Node -> string.

(** X23.  The handler reads [left.object.property.name] whether or not the
    object is itself named [location].  When the object of the assigned
    member has no [property] (a plain identifier such as [location], or
    [this]), the handler therefore never reports: it returns early when the
    test of the [href] property fails and raises a TypeError when it
    passes.  This holds for every definition of the two guards. *)
Theorem X23_plain_location_href_is_never_reported
        (n : Node) (o p right : BaseNode) (computed : bool) :
  self n = AssignmentExpression (MemberExpression o p computed) right ->
  location_href.property o = None ->
  (forall r, location_href.onAssignment isPrivateIdentifier
               isBaseCallExpression escapeFuncOption getText n
             <> Ok (Some r)) /\
  (isPrivateIdentifier (Some p) = Ok true ->
   location_href.named p "href" = true ->
   location_href.onAssignment isPrivateIdentifier isBaseCallExpression
     escapeFuncOption getText n = TypeError).
Proof.
  intros Hn Ho. unfold location_href.onAssignment.
  rewrite Hn, Ho. split.
  - intros r. destruct (isPrivateIdentifier (Some p)) as [g|]; [|discriminate].
    destruct (negb (g && location_href.named p "href")); discriminate.
  - intros Hg Hp. rewrite Hg, Hp. reflexivity.
Qed.
End LocationHref.

(** [location.href = input], with a guard that lets the [href] identifier
    pass. *)
Lemma X23_plain_location_href_is_never_reported_witness :
  let target := MemberExpression (Identifier "location") (Identifier "href") false in
  let asg := root (AssignmentExpression target (Identifier "input")) in
  location_href.onAssignment location_href.hasName location_href.isCall None
    (fun n => Example.sourceText (self n)) asg = TypeError.
Proof.
  intros target asg.
  exact (proj2 (X23_plain_location_href_is_never_reported
                  location_href.hasName location_href.isCall None
                  (fun n => Example.sourceText (self n)) asg
                  (Identifier "location") (Identifier "href")
                  (Identifier "input") false eq_refl eq_refl)
               eq_refl eq_refl).
Defined.
